(** * HUPnP core: device host, HTTP messaging and GENA subscriptions

    A shallow embedding of the parts of the Herqq UPnP (HUPnP) library that
    carry its device-host life cycle, its HTTP send / receive framing, the
    SOAP action-error responder and the two event-subscription managers,
    followed by the properties established about them.

    Conventions.
    - C++ integers ([qint32], [quint32], [qint64]) are [Z]; every value the
      modelled code computes stays far inside the 32-bit range, which is
      stated next to the definitions where it matters.
    - [QString] and [QByteArray] are [string].
    - Objects that the code shares through pointers live in an explicit
      store and are named by their address.
    - C++ exceptions are the [Throw] result of a small state-and-exception
      monad; a mutation made before a throw stays visible afterwards, as in
      the source.
    - [Q_ASSERT] is compiled out (release build, [QT_NO_DEBUG]). *)

From Stdlib Require Import ZArith List String Ascii Bool Lia.
From Stdlib Require Import DecimalString HexadecimalString.
From stdpp Require Import base option list gmap strings.

Import ListNotations.
Local Open Scope string_scope.
Local Open Scope Z_scope.

(* ===================================================================== *)
(** * Device configuration (hdevicehost_configuration.cpp)                *)
(* ===================================================================== *)

Module DeviceConfiguration.

(** [HDeviceConfigurationPrivate]. The device creator is a callable object;
    only whether it is set matters to the code modelled here. *)
Record HDeviceConfiguration := mkDeviceConfiguration {
  m_pathToDeviceDescriptor : string;
  m_cacheControlMaxAgeInSecs : Z;
  m_deviceCreator : bool
}.

(** [HDeviceConfigurationPrivate::HDeviceConfigurationPrivate()]. *)
Definition HDeviceConfiguration_ctor : HDeviceConfiguration :=
  {| m_pathToDeviceDescriptor := "";
     m_cacheControlMaxAgeInSecs := 1800;
     m_deviceCreator := false |}.

(** [HDeviceConfiguration::setCacheControlMaxAge(quint32 maxAgeInSecs)]. *)
Definition setCacheControlMaxAge
    (maxAgeInSecs : Z) (c : HDeviceConfiguration) : HDeviceConfiguration :=
  let maxAgeInSecs' :=
    if maxAgeInSecs <? 5 then 5
    else if maxAgeInSecs >? 60*60*24 then 60*60*24
    else maxAgeInSecs in
  {| m_pathToDeviceDescriptor := m_pathToDeviceDescriptor c;
     m_cacheControlMaxAgeInSecs := maxAgeInSecs';
     m_deviceCreator := m_deviceCreator c |}.

(** [HDeviceConfiguration::cacheControlMaxAge() const]. *)
Definition cacheControlMaxAge (c : HDeviceConfiguration) : Z :=
  m_cacheControlMaxAgeInSecs c.

(** [HDeviceConfiguration::setDeviceCreator]. *)
Definition setDeviceCreator (c : HDeviceConfiguration) : HDeviceConfiguration :=
  {| m_pathToDeviceDescriptor := m_pathToDeviceDescriptor c;
     m_cacheControlMaxAgeInSecs := m_cacheControlMaxAgeInSecs c;
     m_deviceCreator := true |}.

(** [HDeviceConfiguration::setPathToDeviceDescription]; [exists] is the
    answer of [QFile::exists]. The boolean result is the C++ return value. *)
Definition setPathToDeviceDescription
    (exists_ : bool) (path : string) (c : HDeviceConfiguration)
    : HDeviceConfiguration * bool :=
  if exists_
  then ({| m_pathToDeviceDescriptor := path;
           m_cacheControlMaxAgeInSecs := m_cacheControlMaxAgeInSecs c;
           m_deviceCreator := m_deviceCreator c |}, true)
  else (c, false).

(** [HDeviceConfiguration::isValid() const]. *)
Definition isValid (c : HDeviceConfiguration) : bool :=
  negb (String.eqb (m_pathToDeviceDescriptor c) "") && m_deviceCreator c.

(** [HDeviceConfiguration::clone() const] copies the private part. *)
Definition clone (c : HDeviceConfiguration) : HDeviceConfiguration := c.

(** [HDeviceHostConfigurationPrivate]. *)
Record HDeviceHostConfiguration := mkDeviceHostConfiguration {
  m_collection : list HDeviceConfiguration;
  m_individualAdvertisementCount : Z
}.

(** [HDeviceHostConfigurationPrivate::HDeviceHostConfigurationPrivate()]. *)
Definition HDeviceHostConfiguration_ctor : HDeviceHostConfiguration :=
  {| m_collection := []; m_individualAdvertisementCount := 2 |}.

(** [HDeviceHostConfiguration::add]. *)
Definition add (arg : HDeviceConfiguration) (hc : HDeviceHostConfiguration)
    : HDeviceHostConfiguration * bool :=
  if isValid arg
  then ({| m_collection := m_collection hc ++ [clone arg];
           m_individualAdvertisementCount := m_individualAdvertisementCount hc |},
        true)
  else (hc, false).

(** [HDeviceHostConfiguration::setIndividualAdvertisementCount]. *)
Definition setIndividualAdvertisementCount
    (arg : Z) (hc : HDeviceHostConfiguration) : HDeviceHostConfiguration :=
  {| m_collection := m_collection hc; m_individualAdvertisementCount := arg |}.

Definition deviceConfigurations (hc : HDeviceHostConfiguration) :=
  m_collection hc.

Definition individualAdvertisementCount (hc : HDeviceHostConfiguration) : Z :=
  m_individualAdvertisementCount hc.

(** [HDeviceHostConfiguration::isEmpty() const]. *)
Definition isEmpty (hc : HDeviceHostConfiguration) : bool :=
  match m_collection hc with [] => true | _ => false end.

(** [HDeviceHostConfiguration::clone() const]: re-adds every element and
    copies the advertisement count. *)
Definition cloneHost (hc : HDeviceHostConfiguration) : HDeviceHostConfiguration :=
  let added :=
    fold_left (fun acc arg => fst (add arg acc))
              (m_collection hc) HDeviceHostConfiguration_ctor in
  {| m_collection := m_collection added;
     m_individualAdvertisementCount := m_individualAdvertisementCount hc |}.

End DeviceConfiguration.

(* ===================================================================== *)
(** * A state-and-exception monad for the throwing code paths             *)
(* ===================================================================== *)

Module Exn.

(** Outcome of a call that may throw: the value returned or the exception. *)
Inductive result (E A : Type) : Type :=
| Return (a : A)
| Throw (e : E).
Arguments Return {E A} a.
Arguments Throw {E A} e.

(** A computation over a mutable state [S] that returns an [A] or throws an
    [E]. The state reached at the throw is kept. *)
Definition M (S E A : Type) : Type := S -> S * result E A.

Definition ret {S E A} (a : A) : M S E A := fun s => (s, Return a).

Definition throw {S E A} (e : E) : M S E A := fun s => (s, Throw e).

Definition bind {S E A B} (m : M S E A) (k : A -> M S E B) : M S E B :=
  fun s =>
    match m s with
    | (s', Return a) => k a s'
    | (s', Throw e) => (s', Throw e)
    end.

(** A state change that cannot throw. *)
Definition modify {S E} (f : S -> S) : M S E unit := fun s => (f s, Return tt).

Definition gets {S E A} (f : S -> A) : M S E A := fun s => (s, Return (f s)).

(** [foreach] loop over a list; stops at the first throw. *)
Fixpoint forM_ {S E A} (f : A -> M S E unit) (l : list A) : M S E unit :=
  match l with
  | [] => ret tt
  | x :: l' => bind (f x) (fun _ => forM_ f l')
  end.

End Exn.

Declare Scope exn_scope.
Delimit Scope exn_scope with exn.
Notation "x <- m ;; k" := (Exn.bind m (fun x => k))
  (at level 90, m at next level, right associativity) : exn_scope.
Notation "m ;;; k" := (Exn.bind m (fun _ => k))
  (at level 90, right associativity) : exn_scope.

(* ===================================================================== *)
(** * Device host (hdevicehost.cpp)                                       *)
(* ===================================================================== *)

Module DeviceHost.
Import DeviceConfiguration.
Import Exn.

(** [HAbstractHostPrivate::InitState]. *)
Inductive InitState := Uninitialized | Initializing | Initialized | Exiting.

Definition InitState_eqb (a b : InitState) : bool :=
  match a, b with
  | Uninitialized, Uninitialized | Initializing, Initializing
  | Initialized, Initialized | Exiting, Exiting => true
  | _, _ => false
  end.

(** [HDeviceHost::ReturnCode]. The enumeration is declared in hdevicehost.h,
    which is not among the sources; the enumerators are the ones
    hdevicehost.cpp uses, and [NotStarted] from the error taxonomy of the
    specification. *)
Inductive ReturnCode :=
| Success
| AlreadyInitialized
| InvalidConfiguration
| InvalidDeviceDescription
| InvalidServiceDescription
| CommunicationsError
| NotStarted
| UndefinedFailure.

Definition ReturnCode_eqb (a b : ReturnCode) : bool :=
  match a, b with
  | Success, Success | AlreadyInitialized, AlreadyInitialized
  | InvalidConfiguration, InvalidConfiguration
  | InvalidDeviceDescription, InvalidDeviceDescription
  | InvalidServiceDescription, InvalidServiceDescription
  | CommunicationsError, CommunicationsError
  | NotStarted, NotStarted
  | UndefinedFailure, UndefinedFailure => true
  | _, _ => false
  end.

(** What a member function hands back to its caller: nothing for a [void]
    function, a return code otherwise. *)
Inductive RetVal :=
| RVoid
| RCode (rc : ReturnCode).

(** The exception classes [HDeviceHost::init] distinguishes in its handlers,
    most specific first; [HExceptionOther] is any other [HException]. Each
    carries its [reason()]. *)
Inductive HException :=
| InvalidDeviceDescriptionEx (reason : string)
| InvalidServiceDescriptionEx (reason : string)
| HSocketException (reason : string)
| HExceptionOther (reason : string).

Definition reason (ex : HException) : string :=
  match ex with
  | InvalidDeviceDescriptionEx r | InvalidServiceDescriptionEx r
  | HSocketException r | HExceptionOther r => r
  end.

(** Messages observed on the network, with the time of emission in seconds.
    A root device is named by the position of its controller in the device
    storage, which stands for the controller's address. *)
Inductive NetEvent :=
| HttpListen
| HttpClose
| SsdpBind
| SsdpAlive (rootDevice : nat) (t : Z)
| SsdpByeBye (rootDevice : nat) (t : Z).

(** Modelled from the spec: [HDeviceController] and its status notifier
    (hdevice_p.h) are not among the sources. The controller is given the
    timeout [m_deviceTimeoutInSecs] when it is created; its status notifier
    is the "half-age announcement timer per root": [startStatusNotifier]
    arms it to fire that many seconds after the call, [stopStatusNotifier]
    disarms it, and when it fires it disarms itself and emits
    [statusTimeout(this)]. An armed timer is [Some due], [due] being the
    second at which it fires. *)
Record HDeviceController := mkController {
  dc_udn : string;
  m_deviceTimeoutInSecs : Z;
  m_statusNotifier : option Z
}.

(** Modelled from the spec: [HDeviceController::startStatusNotifier] and
    [stopStatusNotifier], see above. *)
Definition startStatusNotifier (now : Z) (dc : HDeviceController) : HDeviceController :=
  {| dc_udn := dc_udn dc;
     m_deviceTimeoutInSecs := m_deviceTimeoutInSecs dc;
     m_statusNotifier := Some (now + m_deviceTimeoutInSecs dc) |}.

Definition stopStatusNotifier (dc : HDeviceController) : HDeviceController :=
  {| dc_udn := dc_udn dc;
     m_deviceTimeoutInSecs := m_deviceTimeoutInSecs dc;
     m_statusNotifier := None |}.

(** The components the host owns through scoped pointers. *)
Record HHttpHandler := { m_shuttingDown : bool }.
Record EventNotifier := { en_shutdown : bool }.
Record DeviceHostHttpServer := { srv_listening : bool; activeClientCount : nat }.
Record DeviceHostSsdpHandler := { ssdp_bound : bool }.
Record PresenceAnnouncer := { m_advertisementCount : Z }.

(** [HDeviceHostPrivate] together with the part of the outside world the
    host acts on: a clock in seconds and the trace of network messages,
    newest first. A null scoped pointer is [None]. [m_deviceStorage] is the
    list of root device controllers of the device storage, and
    [m_threadPool_active] the thread pool's [activeThreadCount()]. *)
Record HDeviceHostPrivate := mkHost {
  m_state : InitState;
  m_initParams : option HDeviceHostConfiguration;
  m_ssdp : option DeviceHostSsdpHandler;
  m_httpServer : option DeviceHostHttpServer;
  m_http : option HHttpHandler;
  m_activeRequestCount : Z;
  m_eventNotifier : option EventNotifier;
  m_presenceAnnouncer : option PresenceAnnouncer;
  m_deviceStorage : list HDeviceController;
  m_threadPool_active : nat;
  now : Z;
  network : list NetEvent
}.

(** [HDeviceHostPrivate::HDeviceHostPrivate()], on a world whose clock
    shows [t]. *)
Definition HDeviceHostPrivate_ctor (t : Z) : HDeviceHostPrivate :=
  {| m_state := Uninitialized; m_initParams := None; m_ssdp := None;
     m_httpServer := None; m_http := None; m_activeRequestCount := 0;
     m_eventNotifier := None; m_presenceAnnouncer := None;
     m_deviceStorage := []; m_threadPool_active := 0;
     now := t; network := [] |}.

Definition setState (st : InitState) (h : HDeviceHostPrivate) :=
  mkHost st (m_initParams h) (m_ssdp h) (m_httpServer h) (m_http h)
         (m_activeRequestCount h) (m_eventNotifier h) (m_presenceAnnouncer h)
         (m_deviceStorage h) (m_threadPool_active h) (now h) (network h).

Definition set_initParams (v : option HDeviceHostConfiguration) (h : HDeviceHostPrivate) :=
  mkHost (m_state h) v (m_ssdp h) (m_httpServer h) (m_http h)
         (m_activeRequestCount h) (m_eventNotifier h) (m_presenceAnnouncer h)
         (m_deviceStorage h) (m_threadPool_active h) (now h) (network h).

Definition set_ssdp (v : option DeviceHostSsdpHandler) (h : HDeviceHostPrivate) :=
  mkHost (m_state h) (m_initParams h) v (m_httpServer h) (m_http h)
         (m_activeRequestCount h) (m_eventNotifier h) (m_presenceAnnouncer h)
         (m_deviceStorage h) (m_threadPool_active h) (now h) (network h).

Definition set_httpServer (v : option DeviceHostHttpServer) (h : HDeviceHostPrivate) :=
  mkHost (m_state h) (m_initParams h) (m_ssdp h) v (m_http h)
         (m_activeRequestCount h) (m_eventNotifier h) (m_presenceAnnouncer h)
         (m_deviceStorage h) (m_threadPool_active h) (now h) (network h).

Definition set_http (v : option HHttpHandler) (h : HDeviceHostPrivate) :=
  mkHost (m_state h) (m_initParams h) (m_ssdp h) (m_httpServer h) v
         (m_activeRequestCount h) (m_eventNotifier h) (m_presenceAnnouncer h)
         (m_deviceStorage h) (m_threadPool_active h) (now h) (network h).

Definition set_activeRequestCount (v : Z) (h : HDeviceHostPrivate) :=
  mkHost (m_state h) (m_initParams h) (m_ssdp h) (m_httpServer h) (m_http h)
         v (m_eventNotifier h) (m_presenceAnnouncer h)
         (m_deviceStorage h) (m_threadPool_active h) (now h) (network h).

Definition set_eventNotifier (v : option EventNotifier) (h : HDeviceHostPrivate) :=
  mkHost (m_state h) (m_initParams h) (m_ssdp h) (m_httpServer h) (m_http h)
         (m_activeRequestCount h) v (m_presenceAnnouncer h)
         (m_deviceStorage h) (m_threadPool_active h) (now h) (network h).

Definition set_presenceAnnouncer (v : option PresenceAnnouncer) (h : HDeviceHostPrivate) :=
  mkHost (m_state h) (m_initParams h) (m_ssdp h) (m_httpServer h) (m_http h)
         (m_activeRequestCount h) (m_eventNotifier h) v
         (m_deviceStorage h) (m_threadPool_active h) (now h) (network h).

Definition set_deviceStorage (v : list HDeviceController) (h : HDeviceHostPrivate) :=
  mkHost (m_state h) (m_initParams h) (m_ssdp h) (m_httpServer h) (m_http h)
         (m_activeRequestCount h) (m_eventNotifier h) (m_presenceAnnouncer h)
         v (m_threadPool_active h) (now h) (network h).

Definition set_threadPool_active (v : nat) (h : HDeviceHostPrivate) :=
  mkHost (m_state h) (m_initParams h) (m_ssdp h) (m_httpServer h) (m_http h)
         (m_activeRequestCount h) (m_eventNotifier h) (m_presenceAnnouncer h)
         (m_deviceStorage h) v (now h) (network h).

Definition set_now (v : Z) (h : HDeviceHostPrivate) :=
  mkHost (m_state h) (m_initParams h) (m_ssdp h) (m_httpServer h) (m_http h)
         (m_activeRequestCount h) (m_eventNotifier h) (m_presenceAnnouncer h)
         (m_deviceStorage h) (m_threadPool_active h) v (network h).

(** Put messages on the wire. *)
Definition emit (evs : list NetEvent) (h : HDeviceHostPrivate) :=
  mkHost (m_state h) (m_initParams h) (m_ssdp h) (m_httpServer h) (m_http h)
         (m_activeRequestCount h) (m_eventNotifier h) (m_presenceAnnouncer h)
         (m_deviceStorage h) (m_threadPool_active h) (now h) (evs ++ network h).

(** What the host cannot decide by itself during [init]: whether the HTTP
    server can listen, what retrieving and building a configured root device
    yields (its UDN, or the exception thrown by the data retriever or the
    object creator), whether SSDP can bind, and what the [doInit] hook of the
    derived class returns. *)
Record Environment := mkEnvironment {
  env_listen : bool;
  env_createRootDevice : HDeviceConfiguration -> result HException string;
  env_bind : bool;
  env_doInit : ReturnCode
}.

(** [if (errorString) { *errorString = v; }] on an out-parameter that is
    [None] when the caller passed a null pointer. *)
Definition assign (errorString : option string) (v : string) : option string :=
  match errorString with
  | Some _ => Some v
  | None => None
  end.

Definition activeClients (h : HDeviceHostPrivate) : nat :=
  match m_httpServer h with
  | Some srv => activeClientCount srv
  | None => O
  end.

(** [HDeviceHostPrivate::createRootDevices], one round of its [foreach]:
    retrieve the description and build the root device (either may throw),
    give the controller the timeout [cacheControlMaxAge() / 2] and add it to
    the device storage. The division is the C++ integer division of two
    non-negative numbers. *)
Definition createRootDevice
    (env : Environment) (deviceInitParams : HDeviceConfiguration)
    : M HDeviceHostPrivate HException unit :=
  fun h =>
    match env_createRootDevice env deviceInitParams with
    | Throw ex => (h, Throw ex)
    | Return udn =>
        let rootDevice :=
          {| dc_udn := udn;
             m_deviceTimeoutInSecs := cacheControlMaxAge deviceInitParams / 2;
             m_statusNotifier := None |} in
        (set_deviceStorage (m_deviceStorage h ++ [rootDevice]) h, Return tt)
    end.

Definition createRootDevices
    (env : Environment) (diParams : list HDeviceConfiguration)
    : M HDeviceHostPrivate HException unit :=
  forM_ (createRootDevice env) diParams.

(** [HDeviceHostPrivate::startNotifiers]. *)
Definition startNotifiers (h : HDeviceHostPrivate) : HDeviceHostPrivate :=
  set_deviceStorage (map (startStatusNotifier (now h)) (m_deviceStorage h)) h.

(** [HDeviceHostPrivate::stopNotifiers]. *)
Definition stopNotifiers (h : HDeviceHostPrivate) : HDeviceHostPrivate :=
  set_deviceStorage (map stopStatusNotifier (m_deviceStorage h)) h.

(** Modelled from the spec: the presence announcer is not among the
    sources. [createAnnouncementMessagesForRootDevice] yields the
    [ssdp:alive] (or [ssdp:byebye]) messages of one root device, taken here
    as one message per root device; [sendAnnouncements] sends the messages
    it is given once; [announce] at start-up sends the messages of all root
    devices [individualAdvertisementCount] times, and on shutdown one
    [ssdp:byebye] per root device. *)
Definition createAnnouncementMessagesForRootDevice
    (t : Z) (rootDevice : nat) : list NetEvent :=
  [SsdpAlive rootDevice t].

(** Modelled from the spec: [PresenceAnnouncer::sendAnnouncements], each
    message once. *)
Definition sendAnnouncements
    (announcements : list NetEvent) (h : HDeviceHostPrivate) : HDeviceHostPrivate :=
  emit announcements h.

(** Modelled from the spec: [PresenceAnnouncer::announce] of the
    [ssdp:alive] messages of every root device at start-up,
    [individualAdvertisementCount] times. *)
Definition announceAvailable
    (pa : PresenceAnnouncer) (h : HDeviceHostPrivate) : HDeviceHostPrivate :=
  let rootDevices := seq 0 (length (m_deviceStorage h)) in
  let announcements :=
    flat_map (createAnnouncementMessagesForRootDevice (now h)) rootDevices in
  Nat.iter (Z.to_nat (m_advertisementCount pa)) (sendAnnouncements announcements) h.

(** Modelled from the spec: [PresenceAnnouncer::announce] of the
    [ssdp:byebye] messages on shutdown, one per root device. *)
Definition announceUnavailable (h : HDeviceHostPrivate) : HDeviceHostPrivate :=
  let rootDevices := seq 0 (length (m_deviceStorage h)) in
  sendAnnouncements (map (fun d => SsdpByeBye d (now h)) rootDevices) h.

(** [HDeviceHostPrivate::announcementTimedout(rootDevice)]: announce the
    root device and restart its status notifier. The slot runs only while
    status notifiers are armed, that is between [startNotifiers] and
    [stopNotifiers], when the presence announcer exists; with a null
    announcer the C++ code has no defined behaviour and the model leaves the
    host as it is. *)
Definition announcementTimedout
    (rootDevice : nat) (h : HDeviceHostPrivate) : HDeviceHostPrivate :=
  match m_presenceAnnouncer h with
  | None => h
  | Some _ =>
      let announcements :=
        createAnnouncementMessagesForRootDevice (now h) rootDevice in
      let h1 := sendAnnouncements announcements h in
      set_deviceStorage
        (alter (startStatusNotifier (now h1)) rootDevice (m_deviceStorage h1)) h1
  end.

(** Modelled from the spec: the slot of [HDeviceController] that runs when
    the status notifier of [rootDevice] fires. It disarms the notifier and
    emits [statusTimeout], which [startNotifiers] connected to
    [announcementTimedout]. *)
Definition timeout_ (rootDevice : nat) (h : HDeviceHostPrivate) : HDeviceHostPrivate :=
  announcementTimedout rootDevice
    (set_deviceStorage (alter stopStatusNotifier rootDevice (m_deviceStorage h)) h).

Definition due (t : Z) (dc : HDeviceController) : bool :=
  match m_statusNotifier dc with
  | Some d => d <=? t
  | None => false
  end.

(** Qt's event loop looks at the status notifier of one root device and
    lets it fire when it is due. *)
Definition dispatchTimer (rootDevice : nat) (h : HDeviceHostPrivate) : HDeviceHostPrivate :=
  match m_deviceStorage h !! rootDevice with
  | Some dc => if due (now h) dc then timeout_ rootDevice h else h
  | None => h
  end.

Fixpoint dispatchTimers (n : nat) (h : HDeviceHostPrivate) : HDeviceHostPrivate :=
  match n with
  | O => h
  | S k => dispatchTimer k (dispatchTimers k h)
  end.

(** One second of the event loop: the clock advances and every status
    notifier that is due fires. *)
Definition tick (h : HDeviceHostPrivate) : HDeviceHostPrivate :=
  let h1 := set_now (now h + 1) h in
  dispatchTimers (length (m_deviceStorage h1)) h1.

(** [QAbstractEventDispatcher::processEvents] while the host drains: with
    the HTTP server closed no request arrives, and one request in flight
    completes. *)
Definition processEvents (h : HDeviceHostPrivate) : HDeviceHostPrivate :=
  match m_httpServer h with
  | Some srv =>
      match activeClientCount srv with
      | S k => set_httpServer (Some {| srv_listening := srv_listening srv;
                                       activeClientCount := k |}) h
      | O => set_threadPool_active (Nat.pred (m_threadPool_active h)) h
      end
  | None => set_threadPool_active (Nat.pred (m_threadPool_active h)) h
  end.

(** The wait loop of [doClear]:
    [while (activeClientCount() != 0 || activeThreadCount() > 0)]. *)
Fixpoint drainLoop (fuel : nat) (h : HDeviceHostPrivate) : HDeviceHostPrivate :=
  match fuel with
  | O => h
  | S k =>
      if negb (Nat.eqb (activeClients h) 0) || Nat.ltb 0 (m_threadPool_active h)
      then drainLoop k (processEvents h)
      else h
  end.

Definition drain (h : HDeviceHostPrivate) : HDeviceHostPrivate :=
  drainLoop (activeClients h + m_threadPool_active h) h.

(** [HDeviceHostPrivate::doClear], with the default (empty) [doQuit], in
    three parts: what it does before the wait loop, the wait loop, and what
    it does after it. *)
Definition doClear_close (h : HDeviceHostPrivate) : HDeviceHostPrivate :=
  let close srv := {| srv_listening := false;
                      activeClientCount := activeClientCount srv |} in
  let h := emit [HttpClose] (set_httpServer (close <$> m_httpServer h) h) in
  let h := set_http ((fun _ => {| m_shuttingDown := true |}) <$> m_http h) h in
  let h := set_presenceAnnouncer None h in
  let h := set_ssdp None h in
  set_eventNotifier
    ((fun _ => {| en_shutdown := true |}) <$> m_eventNotifier h) h.

Definition doClear_reset (h : HDeviceHostPrivate) : HDeviceHostPrivate :=
  let h := set_http None h in
  let h := set_httpServer None h in
  let h := set_eventNotifier None h in
  let h := set_initParams None h in
  let h := set_activeRequestCount 0 h in
  setState Uninitialized h.

Definition doClear (h : HDeviceHostPrivate) : HDeviceHostPrivate :=
  doClear_reset (drain (doClear_close h)).

(** Modelled from the spec: [HAbstractHostPrivate::clear] is not among the
    sources. It runs the [doClear] hook "just before it starts to delete the
    device tree" and then deletes the device tree. *)
Definition clear (h : HDeviceHostPrivate) : HDeviceHostPrivate :=
  set_deviceStorage [] (doClear h).

Local Open Scope exn_scope.

(** The [try] block of [HDeviceHost::init]. Its value is the pair of the
    local [rc] and the content of the out-parameter [errorString] when the
    block is left normally. *)
Definition init_try
    (env : Environment) (initParams : HDeviceHostConfiguration)
    (errorString : option string)
    : M HDeviceHostPrivate HException (ReturnCode * option string) :=
  let params := cloneHost initParams in
  modify (setState Initializing) ;;;
  modify (set_initParams (Some params)) ;;;
  modify (set_http (Some {| m_shuttingDown := false |})) ;;;
  modify (set_eventNotifier (Some {| en_shutdown := false |})) ;;;
  modify (set_httpServer
            (Some {| srv_listening := false; activeClientCount := O |})) ;;;
  if negb (env_listen env) then
    ret (UndefinedFailure, assign errorString "Could not start the HTTP server.")
  else
    modify (fun h => emit [HttpListen]
              (set_httpServer
                 (Some {| srv_listening := true; activeClientCount := O |}) h)) ;;;
    createRootDevices env (deviceConfigurations params) ;;;
    modify (set_ssdp (Some {| ssdp_bound := false |})) ;;;
    if negb (env_bind env) then
      throw (HSocketException "Failed to initialize SSDP.")
    else
      modify (fun h => emit [SsdpBind]
                (set_ssdp (Some {| ssdp_bound := true |}) h)) ;;;
      let pa := {| m_advertisementCount := individualAdvertisementCount params |} in
      modify (set_presenceAnnouncer (Some pa)) ;;;
      let rc := env_doInit env in
      if ReturnCode_eqb rc Success then
        modify (announceAvailable pa) ;;;
        modify startNotifiers ;;;
        modify (setState Initialized) ;;;
        ret (rc, errorString)
      else
        ret (rc, errorString).

Local Close Scope exn_scope.

(** [HDeviceHost::init]: the new host, the return code and the content of
    the out-parameter [errorString]. *)
Definition init
    (env : Environment) (initParams : HDeviceHostConfiguration)
    (errorString : option string) (h : HDeviceHostPrivate)
    : HDeviceHostPrivate * (ReturnCode * option string) :=
  if InitState_eqb (m_state h) Initialized then
    (h, (AlreadyInitialized, errorString))
  else if isEmpty initParams then
    (h, (InvalidConfiguration,
         assign errorString "No UPnP device configuration provided."))
  else
    let '(h1, r) := init_try env initParams errorString h in
    let '(rc, error, errorString1) :=
      match r with
      | Return (rc, es) => (rc, "", es)
      | Throw (InvalidDeviceDescriptionEx why) =>
          (InvalidDeviceDescription, why, errorString)
      | Throw (InvalidServiceDescriptionEx why) =>
          (InvalidServiceDescription, why, errorString)
      | Throw (HSocketException why) => (CommunicationsError, why, errorString)
      | Throw (HExceptionOther why) => (UndefinedFailure, why, errorString)
      end in
    if negb (ReturnCode_eqb rc Success) then
      let h2 := clear (setState Exiting h1) in
      (h2, (rc, assign errorString1 error))
    else
      (h1, (rc, errorString1)).

(** [HDeviceHost::quit]; its C++ return type is [void]. *)
Definition quit (h : HDeviceHostPrivate) : HDeviceHostPrivate * RetVal :=
  if InitState_eqb (m_state h) Uninitialized then
    (h, RVoid)
  else
    let h1 := setState Exiting h in
    let h2 := stopNotifiers h1 in
    let h3 := announceUnavailable h2 in
    (clear h3, RVoid).

(** [HDeviceHost::isStarted]. *)
Definition isStarted (h : HDeviceHostPrivate) : bool :=
  InitState_eqb (m_state h) Initialized.

(** Emission times of the [ssdp:alive] messages of one root device, newest
    first. *)
Fixpoint aliveTimes (rootDevice : nat) (trace : list NetEvent) : list Z :=
  match trace with
  | [] => []
  | SsdpAlive d t :: rest =>
      if Nat.eqb d rootDevice then t :: aliveTimes rootDevice rest
      else aliveTimes rootDevice rest
  | _ :: rest => aliveTimes rootDevice rest
  end.

(** Every two successive emission times (newest first) are at most
    [bound] apart. *)
Fixpoint intervalsWithin (bound : Z) (times : list Z) : Prop :=
  match times with
  | newer :: (older :: _) as rest =>
      newer - older <= bound /\ intervalsWithin bound rest
  | _ => True
  end.

(** The status notifier of a root device is on schedule at time [t]: it is
    armed, fires no earlier than [lo] and no later than its timeout after
    [t] and after the latest [ssdp:alive] of the device, and the
    [ssdp:alive] messages so far are at most the timeout apart. [times] are
    the emission times of the device, newest first. *)
Definition scheduled (lo t : Z) (times : list Z) (dc : HDeviceController) : Prop :=
  1 <= m_deviceTimeoutInSecs dc /\
  exists d, m_statusNotifier dc = Some d /\
    lo <= d /\ d <= t + m_deviceTimeoutInSecs dc /\
    intervalsWithin (m_deviceTimeoutInSecs dc) times /\
    (forall tl, head times = Some tl ->
       tl <= t /\ d <= tl + m_deviceTimeoutInSecs dc).

(** While the event loop dispatches the timers at time [now h], the root
    devices below [n] have been looked at and fire after [now h]; the others
    may be due right now. *)
Definition dispatching (n : nat) (h : HDeviceHostPrivate) : Prop :=
  m_presenceAnnouncer h <> None /\
  forall i dc, m_deviceStorage h !! i = Some dc ->
    scheduled (if Nat.ltb i n then now h + 1 else now h) (now h)
              (aliveTimes i (network h)) dc.

(** Between two seconds of the event loop every root device is on
    schedule. *)
Definition onSchedule (h : HDeviceHostPrivate) : Prop :=
  dispatching (length (m_deviceStorage h)) h.

(** The exception [createRootDevices] ends with: the one the first
    configuration that cannot be built throws. *)
Fixpoint firstThrow (env : Environment) (diParams : list HDeviceConfiguration)
    : option HException :=
  match diParams with
  | [] => None
  | c :: rest =>
      match env_createRootDevice env c with
      | Throw ex => Some ex
      | Return _ => firstThrow env rest
      end
  end.

(** No component is left over: the state a freshly constructed host has. *)
Definition released (h : HDeviceHostPrivate) : Prop :=
  m_state h = Uninitialized /\ m_initParams h = None /\ m_ssdp h = None /\
  m_httpServer h = None /\ m_http h = None /\ m_activeRequestCount h = 0 /\
  m_eventNotifier h = None /\ m_presenceAnnouncer h = None /\
  m_deviceStorage h = [] /\ m_threadPool_active h = O.

End DeviceHost.

(* ===================================================================== *)
(** * HTTP messaging (http_handler_p.cpp)                                 *)
(* ===================================================================== *)

Module Http.
Import Exn.

(** ** Strings and numbers *)

Definition CR : ascii := ascii_of_nat 13.
Definition LF : ascii := ascii_of_nat 10.
Definition crlf : string := String CR (String LF EmptyString).

(** [QByteArray::size()]. *)
Definition size (s : string) : Z := Z.of_nat (String.length s).

(** [QByteArray::left(len)]. *)
Definition left (len : Z) (s : string) : string :=
  String.substring 0 (Z.to_nat len) s.

(** [QByteArray::indexOf(pattern)]: [-1] when the pattern does not occur. *)
Definition indexOf (pattern s : string) : Z :=
  match String.index 0 pattern s with
  | Some i => Z.of_nat i
  | None => -1
  end.

(** [QString::number(n)] and [QByteArray::setNum(n, 16)]. *)
Definition number (n : Z) : string :=
  DecimalString.NilZero.string_of_int (Z.to_int n).

Definition setNum16 (n : Z) : string :=
  HexadecimalString.NilZero.string_of_int (Z.to_hex_int n).

Definition toLowerAscii (c : ascii) : ascii :=
  let n := nat_of_ascii c in
  if (Nat.leb 65 n && Nat.leb n 90)%bool then ascii_of_nat (n + 32) else c.

Fixpoint toLower (s : string) : string :=
  match s with
  | EmptyString => EmptyString
  | String c rest => String (toLowerAscii c) (toLower rest)
  end.

(** ** [QHttpHeader]

    Qt's header class, as far as the handler uses it: a validity flag, the
    start line (request or status line), the HTTP version and the list of
    key / value pairs. Keys are compared case-insensitively; [setValue]
    replaces the value of the first entry with the key or appends one. *)

Inductive StartLine :=
| NoStartLine
| RequestLine (method path : string)
| StatusLine (statusCode : Z) (reasonPhrase : string).

Record QHttpHeader := mkHeader {
  isValid : bool;
  startLine : StartLine;
  majorVersion : Z;
  minorVersion : Z;
  values : list (string * string)
}.

(** [QHttpRequestHeader()] / [QHttpResponseHeader()]: an invalid header. *)
Definition Header_default : QHttpHeader :=
  {| isValid := false; startLine := NoStartLine;
     majorVersion := 1; minorVersion := 1; values := [] |}.

(** [QHttpRequestHeader(method, path)], HTTP/1.1. *)
Definition QHttpRequestHeader (method path : string) : QHttpHeader :=
  {| isValid := true; startLine := RequestLine method path;
     majorVersion := 1; minorVersion := 1; values := [] |}.

(** [QHttpResponseHeader(code, text)], HTTP/1.1. *)
Definition QHttpResponseHeader (code : Z) (text : string) : QHttpHeader :=
  {| isValid := true; startLine := StatusLine code text;
     majorVersion := 1; minorVersion := 1; values := [] |}.

Definition sameKey (k1 k2 : string) : bool :=
  String.eqb (toLower k1) (toLower k2).

Fixpoint lookupValue (key : string) (l : list (string * string)) : option string :=
  match l with
  | [] => None
  | (k, v) :: rest => if sameKey k key then Some v else lookupValue key rest
  end.

(** [QHttpHeader::value(key)]: the empty string when there is no entry. *)
Definition value (key : string) (h : QHttpHeader) : string :=
  match lookupValue key (values h) with
  | Some v => v
  | None => ""
  end.

(** [QHttpHeader::hasKey(key)]. *)
Definition hasKey (key : string) (h : QHttpHeader) : bool :=
  match lookupValue key (values h) with
  | Some _ => true
  | None => false
  end.

Fixpoint replaceValue (key v : string) (l : list (string * string))
    : list (string * string) :=
  match l with
  | [] => [(key, v)]
  | (k, v0) :: rest =>
      if sameKey k key then (k, v) :: rest
      else (k, v0) :: replaceValue key v rest
  end.

(** [QHttpHeader::setValue(key, value)]. *)
Definition setValue (key v : string) (h : QHttpHeader) : QHttpHeader :=
  {| isValid := isValid h; startLine := startLine h;
     majorVersion := majorVersion h; minorVersion := minorVersion h;
     values := replaceValue key v (values h) |}.

(** [QHttpHeader::hasContentLength], [setContentLength], [setContentType]. *)
Definition hasContentLength (h : QHttpHeader) : bool := hasKey "content-length" h.

Definition setContentLength (len : Z) (h : QHttpHeader) : QHttpHeader :=
  setValue "content-length" (number len) h.

Definition setContentType (type : string) (h : QHttpHeader) : QHttpHeader :=
  setValue "content-type" type h.

(** [QHttpHeader::toString()]: start line, one line per entry, empty line. *)
Definition toString (h : QHttpHeader) : string :=
  let version :=
    "HTTP/" ++ number (majorVersion h) ++ "." ++ number (minorVersion h) in
  let first :=
    match startLine h with
    | NoStartLine => ""
    | RequestLine method path => method ++ " " ++ path ++ " " ++ version ++ crlf
    | StatusLine code text =>
        version ++ " " ++ number code ++ " " ++ text ++ crlf
    end in
  let entries :=
    if isValid h
    then fold_right (fun kv acc => fst kv ++ ": " ++ snd kv ++ crlf ++ acc)
                    "" (values h)
    else "" in
  first ++ entries ++ crlf.

(** ** The connection *)

(** The exceptions of the messaging layer, with their messages as the
    source writes them; the [%1] of a message stands for the argument the
    source fills in (the peer address or the timeout). *)
Inductive HException :=
| HSocketException (why : string)
| HTimeoutException (why : string)
| HShutdownInProgressException (why : string)
| HOperationFailedException (why : string).

(** How the peer and the operating system treat the next [write] call on
    the socket: how many bytes they take at most (a negative number makes
    [write] fail with [-1]) and whether the socket is connected and valid
    once the call has returned. *)
Record WriteStep := mkWriteStep {
  accepts : Z;
  thenConnected : bool;
  thenValid : bool
}.

(** What one pass of a read loop observes after its wait
    ([bytesAvailable() || waitForReadyRead(50)]): the bytes that arrived,
    the stop watch, the handler's [m_shuttingDown] flag, and whether the
    socket is in [ConnectedState] or [ClosingState]. *)
Record ReadStep := mkReadStep {
  arrived : string;
  elapsed : Z;
  shuttingDown : bool;
  connectedOrClosing : bool
}.

(** [QTcpSocket]. Write side: whether it is in [ConnectedState], whether
    [isValid()], the script of the coming [write] calls (a socket whose
    script is used up takes everything) and the bytes written so far. Read
    side: the bytes buffered and the script of the coming read passes. *)
Record QTcpSocket := mkSocket {
  connected : bool;
  valid : bool;
  script : list WriteStep;
  written : string;
  readBuffer : string;
  incoming : list ReadStep
}.

(** [QTcpSocket::write(data, len)]: the bytes taken, or [-1]. *)
Definition write (data : string) (sock : QTcpSocket) : QTcpSocket * Z :=
  match script sock with
  | [] =>
      ({| connected := connected sock; valid := valid sock; script := [];
          written := written sock ++ data;
          readBuffer := readBuffer sock; incoming := incoming sock |},
       size data)
  | st :: rest =>
      if accepts st <? 0 then
        ({| connected := thenConnected st; valid := thenValid st;
            script := rest; written := written sock;
            readBuffer := readBuffer sock; incoming := incoming sock |}, -1)
      else
        let n := Z.min (accepts st) (size data) in
        ({| connected := thenConnected st; valid := thenValid st;
            script := rest; written := written sock ++ left n data;
            readBuffer := readBuffer sock; incoming := incoming sock |}, n)
  end.

(** The read side after a pass: what is left in the buffer and of the
    script. *)
Definition setRead (buffer : string) (steps : list ReadStep)
    (sock : QTcpSocket) : QTcpSocket :=
  {| connected := connected sock; valid := valid sock;
     script := script sock; written := written sock;
     readBuffer := buffer; incoming := steps |}.

(** [ChunkedInfo] and [MessagingInfo]. *)
Record MessagingInfo := mkMessagingInfo {
  socket : QTcpSocket;
  keepAlive : bool;
  receiveTimeoutForNoData : Z;
  m_maxChunkSize : Z;
  hostInfo : string
}.

Definition setSocket (sock : QTcpSocket) (mi : MessagingInfo) : MessagingInfo :=
  {| socket := sock; keepAlive := keepAlive mi;
     receiveTimeoutForNoData := receiveTimeoutForNoData mi;
     m_maxChunkSize := m_maxChunkSize mi; hostInfo := hostInfo mi |}.

Definition setKeepAlive (b : bool) (mi : MessagingInfo) : MessagingInfo :=
  {| socket := socket mi; keepAlive := b;
     receiveTimeoutForNoData := receiveTimeoutForNoData mi;
     m_maxChunkSize := m_maxChunkSize mi; hostInfo := hostInfo mi |}.

(** The bytes of [data] from position [index] on ([data.data() + index]),
    at most [len] of them. *)
Definition mid (index len : Z) (data : string) : string :=
  String.substring (Z.to_nat index) (Z.to_nat len) data.

(** ** Sending *)

(** The [while (index < data.size())] loop of
    [HHttpHandler::send(MessagingInfo&, const QByteArray&)]. [None] only
    when [fuel] rounds did not finish the loop. *)
Fixpoint send_loop (fuel : nat) (data : string) (index errorThreshold : Z)
    (sock : QTcpSocket) : option (QTcpSocket * result HException unit) :=
  if index <? size data then
    match fuel with
    | O => None
    | S fuel' =>
        if negb (connected sock) then
          Some (sock, Throw (HSocketException
                  "Failed to send data to %1. Connection closed."))
        else
          let '(sock1, bytesWritten) :=
            write (mid index (size data - index) data) sock in
          if bytesWritten =? 0 then
            if negb (valid sock1) || (errorThreshold >? 100) then
              Some (sock1, Throw (HSocketException "Failed to send data to %1."))
            else
              send_loop fuel' data (index + bytesWritten)
                        (errorThreshold + 1) sock1
          else if bytesWritten <? 0 then
            Some (sock1, Throw (HSocketException "Failed to send data to %1."))
          else
            send_loop fuel' data (index + bytesWritten) errorThreshold sock1
    end
  else Some (sock, Return tt).

(** Rounds that always finish the loop: every round either throws, or takes
    at least one byte, or uses one of the 102 tolerated empty writes. *)
Definition send_fuel (data : string) : nat := String.length data + 103.

(** [HHttpHandler::send(MessagingInfo&, const QByteArray&)]. *)
Definition send (mi : MessagingInfo) (data : string)
    : option (MessagingInfo * result HException unit) :=
  match send_loop (send_fuel data) data 0 0 (socket mi) with
  | Some (sock, r) => Some (setSocket sock mi, r)
  | None => None
  end.

(** The inner [while (errorThreshold < 100)] loop of [sendChunked], which
    writes one chunk. It yields the new [errorThreshold] and the last
    [bytesWritten]; [bytesWritten0] is the value the variable holds when the
    loop is entered. *)
Fixpoint writeChunk (fuel : nat) (chunk : string)
    (errorThreshold bytesWritten0 : Z) (sock : QTcpSocket)
    : option (QTcpSocket * result HException (Z * Z)) :=
  if errorThreshold <? 100 then
    match fuel with
    | O => None
    | S fuel' =>
        let '(sock1, bytesWritten) := write chunk sock in
        if bytesWritten =? 0 then
          if negb (valid sock1) || (errorThreshold >? 100) then
            Some (sock1, Throw (HSocketException "Failed to send data to %1."))
          else
            writeChunk fuel' chunk (errorThreshold + 1) bytesWritten sock1
        else if bytesWritten <? 0 then
          Some (sock1, Throw (HSocketException "Failed to send data to %1."))
        else
          Some (sock1, Return (errorThreshold, bytesWritten))
    end
  else Some (sock, Return (errorThreshold, bytesWritten0)).

(** The outer [while (index < data.size())] loop of [sendChunked]. *)
Fixpoint sendChunked_loop (fuel : nat) (maxChunkSize : Z) (data : string)
    (index errorThreshold : Z) (sock : QTcpSocket)
    : option (QTcpSocket * result HException unit) :=
  if index <? size data then
    match fuel with
    | O => None
    | S fuel' =>
        if negb (connected sock) then
          Some (sock, Throw (HSocketException
                  "Failed to send data to %1. Connection closed."))
        else
          let dataToSendSize := Z.min (size data - index) maxChunkSize in
          let sizeLine := setNum16 dataToSendSize ++ crlf in
          let '(sock1, bytesWritten) := write sizeLine sock in
          if negb (bytesWritten =? size sizeLine) then
            Some (sock1, Throw (HSocketException "Failed to send data to %1."))
          else
            match writeChunk 101 (mid index dataToSendSize data)
                             errorThreshold bytesWritten sock1 with
            | None => None
            | Some (sock2, Throw ex) => Some (sock2, Throw ex)
            | Some (sock2, Return (errorThreshold', bytesWritten')) =>
                let index' := index + bytesWritten' in
                let '(sock3, bytesWritten'') := write crlf sock2 in
                if negb (bytesWritten'' =? 2) then
                  Some (sock3, Throw (HSocketException "Failed to send data to %1."))
                else
                  sendChunked_loop fuel' maxChunkSize data index'
                                   errorThreshold' sock3
            end
    end
  else Some (sock, Return tt).

(** [HHttpHandler::sendChunked]. *)
Definition sendChunked (mi : MessagingInfo) (data : string)
    : option (MessagingInfo * result HException unit) :=
  let endOfHdr := indexOf (crlf ++ crlf) data + 4 in
  match send mi (left endOfHdr data) with
  | None => None
  | Some (mi1, Throw ex) => Some (mi1, Throw ex)
  | Some (mi1, Return _) =>
      match sendChunked_loop (send_fuel data) (m_maxChunkSize mi1) data
                             endOfHdr 0 (socket mi1) with
      | None => None
      | Some (sock, Throw ex) => Some (setSocket sock mi1, Throw ex)
      | Some (sock, Return _) =>
          let eof := "0" ++ crlf in
          Some (setSocket (fst (write eof sock)) mi1, Return tt)
      end
  end.

Section Handler.

(** Qt and HUPnP parts the handler calls that are not part of it:
    the current date in RFC 1123 format, the default content type of the
    [response] helpers (a default argument declared in http_handler_p.h),
    the serialisation of a SOAP message, and the header parser behind
    [Header(const QString&)]. *)
Variable currentDate : string.
Variable defaultContentType : string.

(** [HHttpHandler::send(MessagingInfo&, QHttpHeader&, const QByteArray&)],
    first half: what it does to the header, and whether it chooses the
    chunked framing. *)
Definition prepareHeader (mi : MessagingInfo) (reqHdr : QHttpHeader)
    (data : string) : QHttpHeader * bool :=
  let reqHdr := setValue "DATE" currentDate reqHdr in
  let reqHdr :=
    if negb (keepAlive mi) && (minorVersion reqHdr =? 1)
    then setValue "Connection" "close" reqHdr
    else reqHdr in
  let reqHdr := setValue "HOST" (hostInfo mi) reqHdr in
  if (m_maxChunkSize mi >? 0) && (size data >? m_maxChunkSize mi)
  then (setValue "Transfer-Encoding" "chunked" reqHdr, true)
  else (setContentLength (size data) reqHdr, false).

(** [HHttpHandler::send(MessagingInfo&, QHttpHeader&, const QByteArray&)]:
    the header as the caller sees it afterwards (it is passed by reference)
    and the outcome of the transmission. *)
Definition sendMessage (mi : MessagingInfo) (reqHdr : QHttpHeader)
    (data : string)
    : QHttpHeader * option (MessagingInfo * result HException unit) :=
  let '(reqHdr', chunked) := prepareHeader mi reqHdr data in
  let msg := toString reqHdr' ++ data in
  (reqHdr', if chunked then sendChunked mi msg else send mi msg).

(** [HHttpHandler::send(MessagingInfo&, QHttpHeader&)]. *)
Definition sendHeader (mi : MessagingInfo) (reqHdr : QHttpHeader) :=
  sendMessage mi reqHdr "".

(** [HHttpHandler::response(mi, statusCode, reasonPhrase)]. *)
Definition response (mi : MessagingInfo) (statusCode : Z)
    (reasonPhrase : string) :=
  snd (sendHeader mi (QHttpResponseHeader statusCode reasonPhrase)).

(** [HHttpHandler::response(mi, statusCode, reasonPhrase, body,
    contentType)], called with the default content type. *)
Definition responseWithBody (mi : MessagingInfo) (statusCode : Z)
    (reasonPhrase body : string) :=
  snd (sendMessage mi
         (setContentType defaultContentType
            (QHttpResponseHeader statusCode reasonPhrase))
         body).

Definition responseBadRequest (mi : MessagingInfo) :=
  response mi 400 "Bad Request".
Definition responseMethodNotAllowed (mi : MessagingInfo) :=
  response mi 405 "Method Not Allowed".
Definition responseServiceUnavailable (mi : MessagingInfo) :=
  response mi 503 "Service Unavailable".
Definition responseInternalServerError (mi : MessagingInfo) :=
  response mi 500 "Internal Server Error".
Definition responseNotFound (mi : MessagingInfo) :=
  response mi 404 "Not Found".
Definition responseInvalidAction (mi : MessagingInfo) (body : string) :=
  responseWithBody mi 401 "Invalid Action" body.
Definition responseInvalidArgs (mi : MessagingInfo) (body : string) :=
  responseWithBody mi 402 "Invalid Args" body.
Definition responsePreconditionFailed (mi : MessagingInfo) :=
  response mi 412 "Precondition Failed".
Definition responseIncompatibleHeaderFields (mi : MessagingInfo) :=
  response mi 400 "Incompatible header fields".
Definition responseOk (mi : MessagingInfo) (body : string) :=
  responseWithBody mi 200 "OK" body.

(** ** Action errors *)

(** [QtSoapMessage::FaultCode]. *)
Inductive FaultCode := VersionMismatch | MustUnderstand | Client | Server | Other.

(** A SOAP fault message as [responseActionFailed] builds it: fault code,
    fault string and the entries of the detail structure with its name. *)
Record QtSoapMessage := mkSoapFault {
  faultCode : FaultCode;
  faultString : string;
  detailName : string;
  detailEntries : list (string * string)
}.

Variable toXmlString : QtSoapMessage -> string.

(** The action return values [HAction::InvalidArgs()] ...
    [HAction::StringArgumentTooLong()], which are declared in action.h. *)
Record ActionErrorCodes := mkActionErrorCodes {
  InvalidArgs : Z;
  ActionFailed : Z;
  ArgumentValueInvalid : Z;
  ArgumentValueOutOfRange : Z;
  OptionalActionNotImplemented : Z;
  OutOfMemory : Z;
  HumanInterventionRequired : Z;
  StringArgumentTooLong : Z
}.

Definition allCodes (c : ActionErrorCodes) : list Z :=
  [InvalidArgs c; ActionFailed c; ArgumentValueInvalid c;
   ArgumentValueOutOfRange c; OptionalActionNotImplemented c; OutOfMemory c;
   HumanInterventionRequired c; StringArgumentTooLong c].

Variable HAction : ActionErrorCodes.

(** [checkForActionError]: the three out-parameters [soapFault],
    [httpStatusCode] and [httpReasonPhrase]. *)
Definition checkForActionError (actionRetVal : Z) : FaultCode * Z * string :=
  if actionRetVal =? InvalidArgs HAction then
    (Client, 402, "Invalid Args")
  else if actionRetVal =? ActionFailed HAction then
    (Client, 501, "Action Failed")
  else if actionRetVal =? ArgumentValueInvalid HAction then
    (Client, 600, "Argument Value Invalid")
  else if actionRetVal =? ArgumentValueOutOfRange HAction then
    (Client, 601, "Argument Value Out of Range")
  else if actionRetVal =? OptionalActionNotImplemented HAction then
    (Client, 602, "Optional Action Not Implemented")
  else if actionRetVal =? OutOfMemory HAction then
    (Client, 603, "Out of Memory")
  else if actionRetVal =? HumanInterventionRequired HAction then
    (Client, 604, "Human Intervention Required")
  else if actionRetVal =? StringArgumentTooLong HAction then
    (Client, 605, "String Argument Too Long")
  else
    (Client, actionRetVal, number actionRetVal).

(** The SOAP fault [responseActionFailed] serialises, and the status line
    it sends it with. *)
Definition actionFailedFault (actionErrCode : Z) (description : string)
    : Z * string * QtSoapMessage :=
  let '(soapFault, httpStatusCode, httpReasonPhrase) :=
    checkForActionError actionErrCode in
  (httpStatusCode, httpReasonPhrase,
   {| faultCode := soapFault;
      faultString := "UPnPError";
      detailName := "UPnPError";
      detailEntries := [("errorCode", number actionErrCode);
                        ("errorDescription", description)] |}).

(** [HHttpHandler::responseActionFailed]. *)
Definition responseActionFailed (mi : MessagingInfo) (actionErrCode : Z)
    (description : string) :=
  let '(httpStatusCode, httpReasonPhrase, soapFaultResponse) :=
    actionFailedFault actionErrCode description in
  responseWithBody mi httpStatusCode httpReasonPhrase
                   (toXmlString soapFaultResponse).

(** ** Receiving *)

Variable parseHeader : string -> QHttpHeader.

(** The inner loop of [receive],
    [while (linesRead < 2 && mi.socket().getChar(&readChar))]: it moves
    bytes from the socket buffer to [headerData] and counts the CRLF pairs
    that follow each other. *)
Fixpoint scanHeader (buffer : string) (linesRead : Z) (headerData : string)
    : string * Z * string :=
  if linesRead <? 2 then
    match buffer with
    | EmptyString => (buffer, linesRead, headerData)
    | String readChar rest =>
        let headerData := headerData ++ String readChar EmptyString in
        if negb (Ascii.eqb readChar CR) then
          scanHeader rest (if linesRead >? 0 then 0 else linesRead) headerData
        else
          match rest with
          | EmptyString => (rest, linesRead, headerData)
          | String readChar' rest' =>
              let headerData := headerData ++ String readChar' EmptyString in
              let linesRead :=
                if Ascii.eqb readChar' LF then linesRead + 1
                else if linesRead >? 0 then 0 else linesRead in
              scanHeader rest' linesRead headerData
          end
    end
  else (buffer, linesRead, headerData).

(** The [for (;;)] loop of [receive] that reads the header. It ends with
    the header bytes or an exception; [None] when the script of read passes
    ends while the loop still waits. *)
Fixpoint readHeaderData (steps : list ReadStep) (timeout : Z)
    (buffer headerData : string)
    : option (string * list ReadStep * result HException string) :=
  match steps with
  | [] => None
  | st :: steps' =>
      let buffer := buffer ++ arrived st in
      let dataAvailable := negb (String.eqb buffer "") in
      if shuttingDown st && (negb dataAvailable || (elapsed st >? 500)) then
        Some (buffer, steps', Throw (HShutdownInProgressException
                "Shutting down. Aborting HTTP message header read."))
      else if negb dataAvailable && negb (connectedOrClosing st) then
        Some (buffer, steps', Throw (HSocketException
                "Peer has disconnected. Could not read HTTP message header."))
      else if (elapsed st >=? timeout) && (timeout >=? 0) then
        Some (buffer, steps', Throw (HTimeoutException
                "Timeout [%1] has elapsed. Could not read HTTP message header."))
      else if negb dataAvailable then
        readHeaderData steps' timeout buffer headerData
      else
        let '(buffer', linesRead, headerData') :=
          scanHeader buffer 0 headerData in
        if linesRead =? 2 then Some (buffer', steps', Return headerData')
        else readHeaderData steps' timeout buffer' headerData'
  end.

(** The two body readers [readChunkedRequest] and [readRequestData]; they
    act on the connection only. *)
Variable readChunkedRequest :
  MessagingInfo -> option (MessagingInfo * result HException string).
Variable readRequestData :
  MessagingInfo -> Z -> option (MessagingInfo * result HException string).

(** [QHttpHeader::contentLength()], a [uint]. *)
Variable contentLength : QHttpHeader -> Z.

(** [QTcpSocket::readAll()]. *)
Definition readAll (mi : MessagingInfo) : MessagingInfo * string :=
  (setSocket (setRead "" (incoming (socket mi)) (socket mi)) mi,
   readBuffer (socket mi)).

(** Modelled from the spec: [HHttpUtils::keepAlive] is not among the
    sources. "Keep-alive is inferred from the header (HTTP/1.1 default on,
    Connection: close off; HTTP/1.0 default off, Connection: Keep-Alive
    on)". *)
Definition keepAliveOf (hdr : QHttpHeader) : bool :=
  let connection := toLower (value "CONNECTION" hdr) in
  if (majorVersion hdr =? 1) && (minorVersion hdr =? 1)
  then negb (String.eqb connection "close")
  else String.eqb connection "keep-alive".

(** [HHttpHandler::receive(MessagingInfo&, Header& hdr)]. The header is an
    out-parameter: the result holds its content when the function returns
    normally, together with the body returned. *)
Definition receive (mi : MessagingInfo)
    : option (MessagingInfo * result HException (QHttpHeader * string)) :=
  match readHeaderData (incoming (socket mi)) (receiveTimeoutForNoData mi)
                       (readBuffer (socket mi)) "" with
  | None => None
  | Some (buffer, steps, Throw ex) =>
      Some (setSocket (setRead buffer steps (socket mi)) mi, Throw ex)
  | Some (buffer, steps, Return headerData) =>
      let mi := setSocket (setRead buffer steps (socket mi)) mi in
      let hdr := parseHeader headerData in
      if negb (isValid hdr) then Some (mi, Return (hdr, ""))
      else
        let chunked := String.eqb (value "TRANSFER-ENCODING" hdr) "chunked" in
        let bodyRead :=
          if chunked then
            if hasContentLength hdr then Some (mi, Return (Header_default, ""), true)
            else
              match readChunkedRequest mi with
              | None => None
              | Some (mi', Throw ex) => Some (mi', Throw ex, true)
              | Some (mi', Return body) => Some (mi', Return (hdr, body), false)
              end
          else if hasContentLength hdr then
            match readRequestData mi (contentLength hdr) with
            | None => None
            | Some (mi', Throw ex) => Some (mi', Throw ex, true)
            | Some (mi', Return body) => Some (mi', Return (hdr, body), false)
            end
          else
            let '(mi', body) := readAll mi in
            Some (mi', Return (hdr, body), false) in
        match bodyRead with
        | None => None
        | Some (mi', r, true) => Some (mi', r)
        | Some (mi', r, false) => Some (setKeepAlive (keepAliveOf hdr) mi', r)
        end
  end.

End Handler.

(** Modelled from the spec: action.h is not among the sources. The action
    return values as UDA numbers them, which are the UPnP error codes the
    response helpers are named after (402 Invalid Args, 501 Action Failed,
    600 to 605). *)
Definition udaCodes : ActionErrorCodes :=
  {| InvalidArgs := 402; ActionFailed := 501; ArgumentValueInvalid := 600;
     ArgumentValueOutOfRange := 601; OptionalActionNotImplemented := 602;
     OutOfMemory := 603; HumanInterventionRequired := 604;
     StringArgumentTooLong := 605 |}.

(** The error-mapping table of the specification, read as a relation
    between the internal action error code and the HTTP status sent:
    InvalidArgs 402, ActionFailed 501, ArgumentValueInvalid 600,
    ArgumentValueOutOfRange 601, OptionalActionNotImplemented 602,
    OutOfMemory 603, HumanInterventionRequired 604, StringArgumentTooLong
    605, and any other (vendor) code passed through. *)
Definition followsErrorTable (c : ActionErrorCodes) (code status : Z) : Prop :=
  (code = InvalidArgs c -> status = 402) /\
  (code = ActionFailed c -> status = 501) /\
  (code = ArgumentValueInvalid c -> status = 600) /\
  (code = ArgumentValueOutOfRange c -> status = 601) /\
  (code = OptionalActionNotImplemented c -> status = 602) /\
  (code = OutOfMemory c -> status = 603) /\
  (code = HumanInterventionRequired c -> status = 604) /\
  (code = StringArgumentTooLong c -> status = 605) /\
  (~ In code (allCodes c) -> status = code).

End Http.

(* ===================================================================== *)
(** * Client-side subscriptions (hevent_subscriptionmanager_p.cpp)        *)
(* ===================================================================== *)

Module SubscriptionManager.

(** [HEventSubscription::SubscriptionStatus]. *)
Inductive SubscriptionStatus :=
| Status_Unsubscribed
| Status_Subscribing
| Status_Subscribed
| Status_Unsubscribing.

Definition isSubscribed (st : SubscriptionStatus) : bool :=
  match st with
  | Status_Subscribed => true
  | _ => false
  end.

(** [HEventSubscriptionManager::SubscriptionResult]. *)
Inductive SubscriptionResult :=
| Sub_Success
| Sub_AlreadySubscribed
| Sub_Failed_NotEvented.

(** A service proxy, as far as the manager looks at it: its address, which
    the manager compares subscriptions with, whether it [isEvented()], the
    UDN and the locations of its parent device. *)
Record HServiceProxy := mkServiceProxy {
  srv_address : nat;
  isEvented : bool;
  parentUdn : string;
  parentLocations : list string
}.

(** [HEventSubscription]: its id (a [QUuid]), the service it belongs to,
    the root URL of the HTTP server that receives the notifications, the
    timeout to ask for, and its status. *)
Record HEventSubscription := mkSubscription {
  id : string;
  service : nat;
  serverRootUrl : string;
  desiredTimeout : Z;
  subscriptionStatus_ : SubscriptionStatus
}.

(** [HEventSubscriptionManager]. The subscription objects live in [objects]
    under their addresses; both maps hold addresses, so that a subscription
    is shared between them as in the source. [issued] lists the
    subscriptions on which [HEventSubscription::subscribe()] was called,
    newest first. *)
Record HEventSubscriptionManager := mkManager {
  objects : gmap nat HEventSubscription;
  m_subscribtionsByUuid : gmap string nat;
  m_subscriptionsByUdn : gmap string (list nat);
  issued : list nat
}.

Definition HEventSubscriptionManager_ctor : HEventSubscriptionManager :=
  {| objects := ∅; m_subscribtionsByUuid := ∅; m_subscriptionsByUdn := ∅;
     issued := [] |}.

Section Manager.

(** What lies outside the manager: the choice of the HTTP server root URL
    for a device ([getSuitableHttpServerRootUrl] asks the server and the
    system's network interfaces), and what
    [HEventSubscription::subscribe()] does to a subscription object. *)
Variable getSuitableHttpServerRootUrl : list string -> string.
Variable HEventSubscription_subscribe : HEventSubscription -> HEventSubscription.

(** [HEventSubscriptionManager::createSubscription]: the new object; [newId]
    is the [QUuid] its constructor draws. *)
Definition createSubscription (newId : string) (srv : HServiceProxy)
    (timeout : Z) : HEventSubscription :=
  {| id := newId;
     service := srv_address srv;
     serverRootUrl := getSuitableHttpServerRootUrl (parentLocations srv);
     desiredTimeout := timeout;
     subscriptionStatus_ := Status_Unsubscribed |}.

(** The loop over [*subs] that [subscribe], [subscriptionStatus], [cancel]
    and [remove] share: the first subscription of the list that belongs to
    the service, with its address. *)
Fixpoint findSubscription (objs : gmap nat HEventSubscription)
    (srv : HServiceProxy) (subs : list nat) : option (nat * HEventSubscription) :=
  match subs with
  | [] => None
  | a :: rest =>
      match objs !! a with
      | Some sub =>
          if Nat.eqb (service sub) (srv_address srv) then Some (a, sub)
          else findSubscription objs srv rest
      | None => findSubscription objs srv rest
      end
  end.

(** [sub->subscribe()] on the object at address [a]. *)
Definition callSubscribe (a : nat) (m : HEventSubscriptionManager)
    : HEventSubscriptionManager :=
  {| objects := alter HEventSubscription_subscribe a (objects m);
     m_subscribtionsByUuid := m_subscribtionsByUuid m;
     m_subscriptionsByUdn := m_subscriptionsByUdn m;
     issued := a :: issued m |}.

(** The code after the label [end:] of [subscribe]: create the
    subscription, enter it into both maps, append it to [subs] and call
    [subscribe()] on it. [new] yields an address that is not in use. *)
Definition subscribeNew (newId : string) (srv : HServiceProxy) (timeout : Z)
    (subs : list nat) (m : HEventSubscriptionManager)
    : HEventSubscriptionManager :=
  let sub := createSubscription newId srv timeout in
  let a := fresh (dom (objects m)) in
  callSubscribe a
    {| objects := <[a := sub]> (objects m);
       m_subscribtionsByUuid := <[id sub := a]> (m_subscribtionsByUuid m);
       m_subscriptionsByUdn :=
         <[parentUdn srv := (subs ++ [a])%list]> (m_subscriptionsByUdn m);
       issued := issued m |}.

(** [HEventSubscriptionManager::subscribe(HServiceProxy*, qint32)]. *)
Definition subscribe (newId : string) (srv : HServiceProxy) (timeout : Z)
    (m : HEventSubscriptionManager)
    : HEventSubscriptionManager * SubscriptionResult :=
  if negb (isEvented srv) then (m, Sub_Failed_NotEvented)
  else
    let deviceUdn := parentUdn srv in
    match m_subscriptionsByUdn m !! deviceUdn with
    | None => (subscribeNew newId srv timeout [] m, Sub_Success)
    | Some subs =>
        match findSubscription (objects m) srv subs with
        | Some (a, sub) =>
            if isSubscribed (subscriptionStatus_ sub)
            then (m, Sub_AlreadySubscribed)
            else (callSubscribe a m, Sub_Success)
        | None => (subscribeNew newId srv timeout subs m, Sub_Success)
        end
    end.

(** [HEventSubscriptionManager::subscriptionStatus]. *)
Definition subscriptionStatus (srv : HServiceProxy)
    (m : HEventSubscriptionManager) : SubscriptionStatus :=
  match m_subscriptionsByUdn m !! parentUdn srv with
  | None => Status_Unsubscribed
  | Some subs =>
      match findSubscription (objects m) srv subs with
      | Some (_, sub) => subscriptionStatus_ sub
      | None => Status_Unsubscribed
      end
  end.

End Manager.

End SubscriptionManager.

(* ===================================================================== *)
(** * Server-side event notifier (event_notifier_p.cpp)                   *)
(* ===================================================================== *)

Module Notifier.

(** [HService], as far as the notifier looks at it. *)
Record HService := mkService {
  udn : string;
  scpdUrl : string;
  isEvented : bool
}.

Definition HService_eqb (a b : HService) : bool :=
  String.eqb (udn a) (udn b) && String.eqb (scpdUrl a) (scpdUrl b)
  && Bool.eqb (isEvented a) (isEvented b).

(** [isSameService]. *)
Definition isSameService (srv1 srv2 : HService) : bool :=
  String.eqb (udn srv1) (udn srv2) && String.eqb (scpdUrl srv1) (scpdUrl srv2).

(** A valid fresh [SubscribeRequest]: its callbacks (at least one) and the
    timeout asked for, in seconds. *)
Record SubscribeRequest := mkSubscribeRequest {
  callback0 : string;
  moreCallbacks : list string;
  timeout : Z
}.

Definition callbacks (sreq : SubscribeRequest) : list string :=
  callback0 sreq :: moreCallbacks sreq.

Fixpoint contains (l : list string) (x : string) : bool :=
  match l with
  | [] => false
  | y :: rest => String.eqb y x || contains rest x
  end.

(** [ServiceEventSubscriber]: the service subscribed to, the callback the
    events go to, the timeout granted, the SID, and whether the
    subscription has expired. *)
Record ServiceEventSubscriber := mkSubscriber {
  service : HService;
  location : string;
  grantedTimeout : Z;
  sid : string;
  expired : bool
}.

Definition expire (rc : ServiceEventSubscriber) : ServiceEventSubscriber :=
  {| service := service rc; location := location rc;
     grantedTimeout := grantedTimeout rc; sid := sid rc; expired := true |}.

(** Modelled from the spec: [ServiceEventSubscriber::isInterested] is not
    among the sources. A subscription refers to one service; a subscriber
    takes the change notifications of that service until it has expired. *)
Definition isInterested (rc : ServiceEventSubscriber) (source : HService) : bool :=
  negb (expired rc) && HService_eqb (service rc) source.

(** [EventNotifier], with the change notifications handed to subscribers
    ([ServiceEventSubscriber::notify]), newest first. *)
Record EventNotifier := mkNotifier {
  m_remoteClients : list ServiceEventSubscriber;
  m_shutdown : bool;
  notified : list (ServiceEventSubscriber * string)
}.

Definition EventNotifier_ctor : EventNotifier :=
  {| m_remoteClients := []; m_shutdown := false; notified := [] |}.

(** [EventNotifier::shutdown]. *)
Definition shutdown (en : EventNotifier) : EventNotifier :=
  {| m_remoteClients := []; m_shutdown := true; notified := notified en |}.

(** [EventNotifier::addSubscriber]; [newSid] is the SID the new subscriber
    draws. The result is the subscriber accepted, or [None] for the null
    pointer. *)
Definition addSubscriber (newSid : string) (srv : HService)
    (sreq : SubscribeRequest) (en : EventNotifier)
    : EventNotifier * option ServiceEventSubscriber :=
  if m_shutdown en then (en, None)
  else if existsb (fun rc => isSameService (service rc) srv
                             && contains (callbacks sreq) (location rc))
                  (m_remoteClients en)
  then (en, None)
  else
    let timeout := if isEvented srv then timeout sreq else 60*60*24 in
    let rc := {| service := srv; location := callback0 sreq;
                 grantedTimeout := timeout; sid := newSid;
                 expired := false |} in
    ({| m_remoteClients := m_remoteClients en ++ [rc];
        m_shutdown := m_shutdown en; notified := notified en |}, Some rc).

(** [EventNotifier::removeSubscriber], on the SID of the request. *)
Fixpoint removeFirst (reqSid : string) (l : list ServiceEventSubscriber)
    : list ServiceEventSubscriber * bool :=
  match l with
  | [] => ([], false)
  | rc :: rest =>
      if String.eqb (sid rc) reqSid then (rest, true)
      else let '(rest', found) := removeFirst reqSid rest in (rc :: rest', found)
  end.

Definition removeSubscriber (reqSid : string) (en : EventNotifier)
    : EventNotifier * bool :=
  if m_shutdown en then (en, false)
  else
    let '(clients, found) := removeFirst reqSid (m_remoteClients en) in
    ({| m_remoteClients := clients; m_shutdown := m_shutdown en;
        notified := notified en |}, found).

(** The loop of [EventNotifier::stateChanged] over the subscribers: the
    subscribers kept and the notifications handed out, oldest first. *)
Fixpoint notifyLoop (source : HService) (msgBody : string)
    (l : list ServiceEventSubscriber)
    : list ServiceEventSubscriber * list (ServiceEventSubscriber * string) :=
  match l with
  | [] => ([], [])
  | rc :: rest =>
      let '(kept, sent) := notifyLoop source msgBody rest in
      if isInterested rc source then (rc :: kept, (rc, msgBody) :: sent)
      else if expired rc then (kept, sent)
      else (rc :: kept, sent)
  end.

(** [EventNotifier::stateChanged]; [msgBody] is the property set that
    [getCurrentValues] builds from the source. *)
Definition stateChanged (source : HService) (msgBody : string)
    (en : EventNotifier) : EventNotifier :=
  if m_shutdown en then en
  else
    let '(kept, sent) := notifyLoop source msgBody (m_remoteClients en) in
    {| m_remoteClients := kept; m_shutdown := m_shutdown en;
       notified := rev sent ++ notified en |}.

(** What the device host asks of the notifier. *)
Inductive Request :=
| Subscribe (newSid : string) (srv : HService) (sreq : SubscribeRequest)
| Unsubscribe (reqSid : string)
| StateChanged (source : HService) (msgBody : string).

Definition serve (en : EventNotifier) (rq : Request) : EventNotifier :=
  match rq with
  | Subscribe newSid srv sreq => fst (addSubscriber newSid srv sreq en)
  | Unsubscribe reqSid => fst (removeSubscriber reqSid en)
  | StateChanged source msgBody => stateChanged source msgBody en
  end.

(** [HService] emits [stateChanged] only when it is evented; a request
    sequence that respects this. *)
Definition fromEventedSources (rqs : list Request) : Prop :=
  Forall (fun rq => match rq with
                    | StateChanged source _ => isEvented source = true
                    | _ => True
                    end) rqs.

End Notifier.


(* ===================================================================== *)
(** * Sample inputs                                                       *)
(* ===================================================================== *)

Module Samples.
Import Exn.

(** A connected socket whose coming [write] calls follow [steps]. *)
Definition socketWith (steps : list Http.WriteStep) : Http.QTcpSocket :=
  Http.mkSocket true true steps "" "" [].

(** A connection with keep-alive off and chunks of at most four bytes. *)
Definition connectionWith (steps : list Http.WriteStep) : Http.MessagingInfo :=
  Http.mkMessagingInfo (socketWith steps) false 5000 4 "192.168.0.2:80".

(** A [write] that takes everything, and one that takes nothing. *)
Definition takesAll : Http.WriteStep := Http.mkWriteStep 1000 true true.
Definition takesNothing : Http.WriteStep := Http.mkWriteStep 0 true true.

(** A request of 18 header bytes and 10 body bytes. *)
Definition sampleMessage : string :=
  "GET / HTTP/1.1" ++ Http.crlf ++ Http.crlf ++ "ABCDEFGHIJ".

(** A header that carries both framings. *)
Definition bothFramings : Http.QHttpHeader :=
  Http.setValue "Content-Length" "5"
    (Http.setValue "Transfer-Encoding" "chunked"
       (Http.QHttpRequestHeader "POST" "/control")).

(** A connection on which one read pass delivers a whole header and the
    first bytes of a body. *)
Definition connectionReceiving (bytes : string) : Http.MessagingInfo :=
  Http.mkMessagingInfo
    (Http.mkSocket true true [] "" ""
       [Http.mkReadStep bytes 10 false true])
    true 5000 0 "".

Definition bothFramingsBytes : string :=
  Http.toString bothFramings ++ "5" ++ Http.crlf ++ "hello".

(** Two device configurations with maximum ages 10 and 5. *)
Definition twoDevices : DeviceConfiguration.HDeviceHostConfiguration :=
  let c1 := DeviceConfiguration.setCacheControlMaxAge 10
              (DeviceConfiguration.mkDeviceConfiguration "/a/d.xml" 1800 true) in
  let c2 := DeviceConfiguration.setCacheControlMaxAge 3
              (DeviceConfiguration.mkDeviceConfiguration "/b/d.xml" 1800 true) in
  fst (DeviceConfiguration.add c2
         (fst (DeviceConfiguration.add c1
                 DeviceConfiguration.HDeviceHostConfiguration_ctor))).

(** An environment in which everything works, and its variations. *)
Definition describe (c : DeviceConfiguration.HDeviceConfiguration)
    : result DeviceHost.HException string :=
  Return ("uuid:" ++ DeviceConfiguration.m_pathToDeviceDescriptor c).

Definition allWell : DeviceHost.Environment :=
  DeviceHost.mkEnvironment true describe true DeviceHost.Success.

Definition hookFails : DeviceHost.Environment :=
  DeviceHost.mkEnvironment true describe true DeviceHost.UndefinedFailure.

Definition noHttp : DeviceHost.Environment :=
  DeviceHost.mkEnvironment false describe true DeviceHost.Success.

Definition noSsdp : DeviceHost.Environment :=
  DeviceHost.mkEnvironment true describe false DeviceHost.Success.

Definition badDescription : DeviceHost.Environment :=
  DeviceHost.mkEnvironment true
    (fun _ => Throw (DeviceHost.InvalidDeviceDescriptionEx
                       "Missing mandatory element: UDN"))
    true DeviceHost.Success.

(** Services and requests for the two subscription managers. *)
Definition eventedProxy : SubscriptionManager.HServiceProxy :=
  SubscriptionManager.mkServiceProxy 7 true "uuid:device-1" ["http://10.0.0.5/d"].

Definition plainService : Notifier.HService :=
  Notifier.mkService "uuid:device-1" "/scpd/plain.xml" false.

Definition eventedService : Notifier.HService :=
  Notifier.mkService "uuid:device-1" "/scpd/evented.xml" true.

Definition sampleRequest : Notifier.SubscribeRequest :=
  Notifier.mkSubscribeRequest "http://10.0.0.9/cb" [] 1800.

End Samples.

(* ===================================================================== *)
(** * Hosted services and their state variables                           *)
(* ===================================================================== *)

Module HostedService.
Import Notifier.

(** [HStateVariable::EventingType]; [getCurrentValues] passes over the
    variables whose type is [NoEvents]. *)
Inductive EventingType :=
| NoEvents
| UnicastOnly
| UnicastAndMulticast.

(** [HStateVariable], as far as eventing looks at it. *)
Record HStateVariable := mkStateVariable {
  sv_name : string;
  sv_value : string;
  eventingType : EventingType
}.

Definition declaresEvents (v : HStateVariable) : bool :=
  match eventingType v with
  | NoEvents => false
  | _ => true
  end.

(** [HServicePrivate], declared in hservice_p.h: the parent device, the
    SCPD URL and the state variables. *)
Record HServicePrivate := mkHostedService {
  m_parentUdn : string;
  m_scpdUrl : string;
  m_stateVariables : list HStateVariable
}.

(** Modelled from the spec: [HService::isEvented] is not among the
    sources. A service is evented iff at least one state variable declares
    events. *)
Definition HService_isEvented (s : HServicePrivate) : bool :=
  existsb declaresEvents (m_stateVariables s).

(** The [HService] of a hosted service, which is what the notifier is
    handed. *)
Definition q_ptr (s : HServicePrivate) : HService :=
  {| udn := m_parentUdn s;
     scpdUrl := m_scpdUrl s;
     isEvented := HService_isEvented s |}.

(** When the update path of a service emits [stateChanged]. The spec ties
    it to the variable ("if the variable is evented, triggers the event
    notifier"), the comment in [addSubscriber] to the service ("should not
    send any events unless one or more of its state variables are
    evented"); both readings are kept. *)
Inductive Emission :=
| WhenVariableEvented
| WhenServiceEvented.

Definition stateVariable (name : string) (s : HServicePrivate)
    : option HStateVariable :=
  List.find (fun v => String.eqb (sv_name v) name) (m_stateVariables s).

Definition storeValue (name value : string) (s : HServicePrivate)
    : HServicePrivate :=
  {| m_parentUdn := m_parentUdn s;
     m_scpdUrl := m_scpdUrl s;
     m_stateVariables :=
       map (fun v =>
              if String.eqb (sv_name v) name
              then {| sv_name := sv_name v; sv_value := value;
                      eventingType := eventingType v |}
              else v)
           (m_stateVariables s) |}.

Definition emits (rule : Emission) (s : HServicePrivate)
    (updated : list HStateVariable) : bool :=
  match rule with
  | WhenVariableEvented => existsb declaresEvents updated
  | WhenServiceEvented => HService_isEvented s
  end.

Section Eventing.

(** [QDomDocument::toByteArray] on the property set, and the validation of
    a new value against the type and the constraints of a variable;
    neither is part of the eventing code. *)
Variable toByteArray : list (string * string) -> string.
Variable isValidValue : HStateVariable -> string -> bool.

(** [getCurrentValues] of event_notifier_p.cpp: one [e:property] per state
    variable that is not [NoEvents], with its name and value. *)
Definition getCurrentValues (s : HServicePrivate) : string :=
  toByteArray (map (fun v => (sv_name v, sv_value v))
                   (List.filter declaresEvents (m_stateVariables s))).

(** Modelled from the spec: [HServicePrivate::updateVariable] is declared
    in hservice_p.h, its code is not among the sources. [update(name,
    value)] validates the value, sets it, and, if evented, enqueues a
    change notification. The result is the service and whether
    [stateChanged] is emitted. *)
Definition updateVariable (rule : Emission) (name value : string)
    (s : HServicePrivate) : HServicePrivate * bool :=
  match stateVariable name s with
  | Some v =>
      if isValidValue v value
      then (storeValue name value s, emits rule s [v])
      else (s, false)
  | None => (s, false)
  end.

(** Modelled from the spec: [HServicePrivate::updateVariables] is declared
    in hservice_p.h, its code is not among the sources. The batch updates
    all or nothing: any validation failure aborts it with no visible
    change; with [sendEvent] it enqueues a change notification as a single
    update does. *)
Definition updateVariables (rule : Emission)
    (variables : list (string * string)) (sendEvent : bool)
    (s : HServicePrivate) : HServicePrivate * bool :=
  let found := map (fun p => (stateVariable (fst p) s, snd p)) variables in
  if forallb (fun p => match fst p with
                       | Some v => isValidValue v (snd p)
                       | None => false
                       end) found
  then (fold_left (fun s p => storeValue (fst p) (snd p) s) variables s,
        sendEvent && emits rule s (omap fst found))
  else (s, false).

(** What happens at the host: a control point subscribes to the service at
    position [i] or unsubscribes, or the host updates state variables of
    the service at position [i]. *)
Inductive HostEvent :=
| Subscribes (newSid : string) (i : nat) (sreq : SubscribeRequest)
| Unsubscribes (reqSid : string)
| Updates (i : nat) (name value : string)
| UpdatesMany (i : nat) (variables : list (string * string)) (sendEvent : bool).

(** The [stateChanged] signal of a service; [connectSelfToServiceSignals]
    of hdevicehost.cpp connects it to the slot of the notifier, for every
    service of the device tree. *)
Definition stateChangedSignal (s : HServicePrivate) (sent : bool)
    : list Request :=
  if sent then [StateChanged (q_ptr s) (getCurrentValues s)] else [].

(** The services after an event, and the requests that reach the
    notifier. *)
Definition respond (rule : Emission) (services : list HServicePrivate)
    (ev : HostEvent) : list HServicePrivate * list Request :=
  match ev with
  | Subscribes newSid i sreq =>
      match services !! i with
      | Some s => (services, [Subscribe newSid (q_ptr s) sreq])
      | None => (services, [])
      end
  | Unsubscribes reqSid => (services, [Unsubscribe reqSid])
  | Updates i name value =>
      match services !! i with
      | Some s =>
          let '(s', sent) := updateVariable rule name value s in
          (<[i := s']> services, stateChangedSignal s' sent)
      | None => (services, [])
      end
  | UpdatesMany i variables sendEvent =>
      match services !! i with
      | Some s =>
          let '(s', sent) := updateVariables rule variables sendEvent s in
          (<[i := s']> services, stateChangedSignal s' sent)
      | None => (services, [])
      end
  end.

(** The services of the host with its notifier. *)
Record HostSide := mkHostSide {
  services : list HServicePrivate;
  eventNotifier : EventNotifier
}.

Definition handle (rule : Emission) (h : HostSide) (ev : HostEvent)
    : HostSide :=
  let '(services', rqs) := respond rule (services h) ev in
  {| services := services';
     eventNotifier := fold_left serve rqs (eventNotifier h) |}.

End Eventing.

(** ** Sample surroundings *)

(** A service without evented variables and an evented one; the notifier
    sees them as [Samples.plainService] and [Samples.eventedService]. *)
Definition plainHosted : HServicePrivate :=
  mkHostedService "uuid:device-1" "/scpd/plain.xml"
                  [mkStateVariable "Status" "off" NoEvents].

Definition eventedHosted : HServicePrivate :=
  mkHostedService "uuid:device-1" "/scpd/evented.xml"
                  [mkStateVariable "Level" "0" UnicastOnly;
                   mkStateVariable "Label" "lamp" NoEvents].

Definition sampleToByteArray (properties : list (string * string)) : string :=
  fold_right (fun p acc => fst p ++ "=" ++ snd p ++ ";" ++ acc) "" properties.

Definition anyValue (v : HStateVariable) (value : string) : bool := true.

(** The control point of the evented service subscribes; then the host
    updates the variables of both services, one by one and in a batch. *)
Definition sampleEvents : list HostEvent :=
  [Subscribes "uuid:sid-2" 1 Samples.sampleRequest;
   Updates 0 "Status" "on";
   Updates 1 "Level" "5";
   UpdatesMany 0 [("Status", "off")] true].

End HostedService.
(* ===================================================================== *)
(** * Reading a message body (http_handler_p.cpp)                         *)
(* ===================================================================== *)

Module HttpBody.
Import Exn Http.

(** A pass of the read loop of [readRequestData]: what the pass observes
    after its wait, and whether [QTcpSocket::read] reports an error ([-1])
    rather than [0] once the buffer is empty. *)
Record BodyStep := mkBodyStep {
  pass : ReadStep;
  readFails : bool
}.

(** The [do ... while (bytesRead < contentLength && !m_shuttingDown)] loop
    of [readRequestData]: it takes up to 4096 bytes at a time from the
    socket buffer. [None] only when [fuel] rounds did not finish the loop. *)
Fixpoint readSome (fuel : nat) (st : BodyStep) (contentLength : Z)
    (buffer : string) (bytesRead : Z) (requestData : string)
    : option (string * result HException (Z * string)) :=
  match fuel with
  | O => None
  | S fuel' =>
      let maxSize := Z.min 4096 (contentLength - bytesRead) in
      let retVal :=
        if String.eqb buffer "" then (if readFails st then -1 else 0)
        else Z.min maxSize (size buffer) in
      if retVal <? 0 then
        Some (buffer, Throw (HSocketException "Could not read HTTP message body: ."))
      else if retVal >? 0 then
        let bytesRead := bytesRead + retVal in
        let requestData := requestData ++ left retVal buffer in
        let buffer := mid retVal (size buffer - retVal) buffer in
        if (bytesRead <? contentLength) && negb (shuttingDown (pass st))
        then readSome fuel' st contentLength buffer bytesRead requestData
        else Some (buffer, Return (bytesRead, requestData))
      else Some (buffer, Return (bytesRead, requestData))
  end.

(** The [while (bytesRead < contentLength)] loop of [readRequestData].
    [None] when the script of read passes ends while the loop still
    waits. *)
Fixpoint readRequestData_loop (steps : list BodyStep) (timeout contentLength : Z)
    (buffer : string) (bytesRead : Z) (requestData : string)
    : option (string * list BodyStep * result HException string) :=
  if bytesRead <? contentLength then
    match steps with
    | [] => None
    | st :: steps' =>
        let buffer := buffer ++ arrived (pass st) in
        let dataAvailable := negb (String.eqb buffer "") in
        if shuttingDown (pass st)
           && (negb dataAvailable || (elapsed (pass st) >? 500)) then
          Some (buffer, steps', Throw (HShutdownInProgressException
                  "Shutting down. Aborting HTTP message body read."))
        else if negb dataAvailable && negb (connectedOrClosing (pass st)) then
          Some (buffer, steps', Throw (HSocketException
                  "Peer has disconnected. Could not read HTTP message body."))
        else if (elapsed (pass st) >=? timeout) && (timeout >=? 0) then
          Some (buffer, steps', Throw (HTimeoutException
                  "Timeout [%1] has elapsed. Could not read HTTP message body."))
        else if negb dataAvailable then
          readRequestData_loop steps' timeout contentLength buffer bytesRead
                               requestData
        else
          match readSome (S (String.length buffer)) st contentLength buffer
                         bytesRead requestData with
          | None => None
          | Some (buffer', Throw ex) => Some (buffer', steps', Throw ex)
          | Some (buffer', Return (bytesRead', requestData')) =>
              readRequestData_loop steps' timeout contentLength buffer'
                                   bytesRead' requestData'
          end
    end
  else Some (buffer, steps, Return requestData).

(** [HHttpHandler::readRequestData], on the read side of the connection:
    the bytes buffered, the coming passes and the receive timeout. *)
Definition readRequestData (steps : list BodyStep) (timeout : Z)
    (buffer : string) (contentLength : Z) :=
  readRequestData_loop steps timeout contentLength buffer 0 "".

(** A string that ends with the empty line that closes an HTTP header. *)
Definition endsHeader (q : string) : Prop :=
  exists p, q = p ++ crlf ++ crlf.

(** The bytes the passes of a read loop took from the network. *)
Definition arrivedIn (steps : list ReadStep) : string :=
  fold_right (fun st acc => arrived st ++ acc) "" steps.

End HttpBody.

(* ===================================================================== *)
(** * What a device host shows of itself (hdevicehost.cpp)                *)
(* ===================================================================== *)

Module HostQueries.
Import DeviceConfiguration DeviceHost.

(** [HDeviceHost::configuration]. *)
Definition configuration (h : HDeviceHostPrivate) : option HDeviceHostConfiguration :=
  m_initParams h.

(** [HDeviceHost::rootDevices]: the root devices of the device storage, by
    their UDNs, or nothing when the host is not started. *)
Definition rootDevices (h : HDeviceHostPrivate) : list string :=
  if negb (isStarted h) then [] else map dc_udn (m_deviceStorage h).

(** The messages of one start-up announcement round for [n] root devices
    at time [t], sent [count] times. *)
Definition startupAnnouncements (t : Z) (n : nat) (count : Z) : list NetEvent :=
  concat (repeat (flat_map (createAnnouncementMessagesForRootDevice t) (seq 0 n))
                 (Z.to_nat count)).

(** The seconds at which a status notifier with the timeout [half], armed
    at [t0], has fired when [n] seconds have passed: [t0 + half],
    [t0 + 2 * half], ..., newest first. *)
Definition announcementTimes (t0 half : Z) (n : nat) : list Z :=
  rev (map (fun k => t0 + Z.of_nat k * half)
           (seq 1 (Z.to_nat (Z.of_nat n / half)))).

End HostQueries.

(* ===================================================================== *)
(** * Looking subscribers up by their SID (event_notifier_p.cpp)          *)
(* ===================================================================== *)

Module NotifierLookup.
Import Notifier.

(** [EventNotifier::remoteClient]: the first subscriber with the SID, or
    [None] for the null pointer. *)
Definition remoteClient (reqSid : string) (en : EventNotifier)
    : option ServiceEventSubscriber :=
  List.find (fun rc => String.eqb (sid rc) reqSid) (m_remoteClients en).

Section Renewal.

(** [ServiceEventSubscriber::renew], which is not part of the notifier. *)
Variable renew : ServiceEventSubscriber -> ServiceEventSubscriber.

(** The loop of [renewSubscription]: the list with the first subscriber
    of the SID renewed, and that subscriber. *)
Fixpoint renewFirst (reqSid : string) (l : list ServiceEventSubscriber)
    : list ServiceEventSubscriber * option ServiceEventSubscriber :=
  match l with
  | [] => ([], None)
  | rc :: rest =>
      if String.eqb (sid rc) reqSid then (renew rc :: rest, Some (renew rc))
      else let '(rest', found) := renewFirst reqSid rest in (rc :: rest', found)
  end.

(** [EventNotifier::renewSubscription], on the SID of the request. *)
Definition renewSubscription (reqSid : string) (en : EventNotifier)
    : EventNotifier * option ServiceEventSubscriber :=
  if m_shutdown en then (en, None)
  else
    let '(clients, found) := renewFirst reqSid (m_remoteClients en) in
    ({| m_remoteClients := clients; m_shutdown := m_shutdown en;
        notified := notified en |}, found).

End Renewal.

(** What [addSubscriber] compares subscribers by: the service, as
    [isSameService] sees it, and the callback location. *)
Definition subscriberKey (rc : ServiceEventSubscriber) : string * string * string :=
  (udn (service rc), scpdUrl (service rc), location rc).

End NotifierLookup.

(* ===================================================================== *)
(** * Cancelling and removing subscriptions                               *)
(**   (hevent_subscriptionmanager_p.cpp)                                  *)
(* ===================================================================== *)

Module SubscriptionRemoval.
Import SubscriptionManager.

(** A device proxy, as far as the manager looks at it: its UDN and its
    embedded devices. *)
#[warnings="-register-all"] Inductive HDeviceProxy :=
| mkDeviceProxy (dev_udn : string) (embeddedProxyDevices : list HDeviceProxy).

Definition dev_udn (device : HDeviceProxy) : string :=
  match device with mkDeviceProxy u _ => u end.

Definition embeddedProxyDevices (device : HDeviceProxy) : list HDeviceProxy :=
  match device with mkDeviceProxy _ l => l end.

(** [HDevice::DeviceVisitType]. *)
Inductive DeviceVisitType :=
| VisitThisOnly
| VisitThisAndDirectChildren
| VisitThisRecursively.

(** The loop of [remove(service)] up to [subs->erase(it)]: the first
    subscription of the list that belongs to the service, and the list
    without it. An address without an object is passed over; the source
    would read a deleted object there, which does not happen in a manager
    whose maps are [consistent] (below). *)
Fixpoint eraseSubscription (objs : gmap nat HEventSubscription)
    (srv : HServiceProxy) (subs : list nat)
    : option (nat * HEventSubscription * list nat) :=
  match subs with
  | [] => None
  | a :: rest =>
      let further :=
        match eraseSubscription objs srv rest with
        | Some (b, sub, rest') => Some (b, sub, a :: rest')
        | None => None
        end in
      match objs !! a with
      | Some sub =>
          if Nat.eqb (service sub) (srv_address srv) then Some (a, sub, rest)
          else further
      | None => further
      end
  end.

(** [HEventSubscriptionManager::remove(service)]. *)
Definition remove_service (srv : HServiceProxy) (m : HEventSubscriptionManager)
    : HEventSubscriptionManager * bool :=
  let udn := parentUdn srv in
  match m_subscriptionsByUdn m !! udn with
  | None => (m, false)
  | Some subs =>
      match eraseSubscription (objects m) srv subs with
      | None => (m, false)
      | Some (a, sub, subs') =>
          ({| objects := delete a (objects m);
              m_subscribtionsByUuid := delete (id sub) (m_subscribtionsByUuid m);
              m_subscriptionsByUdn :=
                match subs' with
                | [] => delete udn (m_subscriptionsByUdn m)
                | _ => <[udn := subs']> (m_subscriptionsByUdn m)
                end;
              issued := issued m |}, true)
      end
  end.

(** One round of the loop of [remove(device, recursive)]:
    [m_subscribtionsByUuid.remove(sub->id()); delete sub;]. As in
    [eraseSubscription], an address without an object is passed over. *)
Definition deleteSubscription (m : HEventSubscriptionManager) (a : nat)
    : HEventSubscriptionManager :=
  match objects m !! a with
  | Some sub =>
      {| objects := delete a (objects m);
         m_subscribtionsByUuid := delete (id sub) (m_subscribtionsByUuid m);
         m_subscriptionsByUdn := m_subscriptionsByUdn m;
         issued := issued m |}
  | None => m
  end.

(** [HEventSubscriptionManager::remove(device, recursive)]. *)
Fixpoint remove_device (recursive : bool) (device : HDeviceProxy)
    (m : HEventSubscriptionManager) : HEventSubscriptionManager * bool :=
  match device with
  | mkDeviceProxy udn devices =>
      match m_subscriptionsByUdn m !! udn with
      | None => (m, false)
      | Some subs =>
          let m1 := fold_left deleteSubscription subs m in
          let m2 :=
            {| objects := objects m1;
               m_subscribtionsByUuid := m_subscribtionsByUuid m1;
               m_subscriptionsByUdn := delete udn (m_subscriptionsByUdn m1);
               issued := issued m1 |} in
          (if recursive
           then fold_left (fun m d => fst (remove_device recursive d m)) devices m2
           else m2,
           true)
      end
  end.

Section Cancel.

(** [HEventSubscription::unsubscribe] and [resetSubscription], which are
    not part of the manager. *)
Variable HEventSubscription_unsubscribe : HEventSubscription -> HEventSubscription.
Variable resetSubscription : HEventSubscription -> HEventSubscription.

(** [unsubscribe ? sub->unsubscribe() : sub->resetSubscription()] on the
    object at address [a]. *)
Definition cancelSubscription (unsubscribe : bool)
    (m : HEventSubscriptionManager) (a : nat) : HEventSubscriptionManager :=
  {| objects :=
       alter (if unsubscribe then HEventSubscription_unsubscribe
              else resetSubscription) a (objects m);
     m_subscribtionsByUuid := m_subscribtionsByUuid m;
     m_subscriptionsByUdn := m_subscriptionsByUdn m;
     issued := issued m |}.

(** [HEventSubscriptionManager::cancel(service, unsubscribe)]. *)
Definition cancel_service (srv : HServiceProxy) (unsubscribe : bool)
    (m : HEventSubscriptionManager) : HEventSubscriptionManager * bool :=
  match m_subscriptionsByUdn m !! parentUdn srv with
  | None => (m, false)
  | Some subs =>
      match findSubscription (objects m) srv subs with
      | Some (a, _) => (cancelSubscription unsubscribe m a, true)
      | None => (m, false)
      end
  end.

(** [HEventSubscriptionManager::cancel(device, visitType, unsubscribe)]. *)
Fixpoint cancel_device (visitType : DeviceVisitType) (unsubscribe : bool)
    (device : HDeviceProxy) (m : HEventSubscriptionManager)
    : HEventSubscriptionManager * bool :=
  match device with
  | mkDeviceProxy udn devices =>
      match m_subscriptionsByUdn m !! udn with
      | None => (m, false)
      | Some subs =>
          let m1 := fold_left (cancelSubscription unsubscribe) subs m in
          let visitTypeForChildren :=
            match visitType with
            | VisitThisRecursively => VisitThisRecursively
            | _ => VisitThisOnly
            end in
          (match visitType with
           | VisitThisOnly => m1
           | _ =>
               fold_left
                 (fun m d =>
                    fst (cancel_device visitTypeForChildren unsubscribe d m))
                 devices m1
           end,
           true)
      end
  end.

End Cancel.

(** [HEventSubscriptionManager::removeAll]: [qDeleteAll] deletes the
    objects the by-id map points to, and both maps are cleared. *)
Definition removeAll (m : HEventSubscriptionManager) : HEventSubscriptionManager :=
  {| objects :=
       map_fold (fun _ a objs => delete a objs) (objects m)
                (m_subscribtionsByUuid m);
     m_subscribtionsByUuid := ∅;
     m_subscriptionsByUdn := ∅;
     issued := issued m |}.

Section OnNotify.

(** [HEventSubscription::onNotify], which is not part of the manager: what
    it does to the subscription and whether it accepts the notification. *)
Variable HEventSubscription_onNotify :
  HEventSubscription -> HEventSubscription * bool.

(** [HEventSubscriptionManager::onNotify]. *)
Definition onNotify (callbackId : string) (m : HEventSubscriptionManager)
    : HEventSubscriptionManager * bool :=
  match m_subscribtionsByUuid m !! callbackId with
  | None => (m, false)
  | Some a =>
      match objects m !! a with
      | None => (m, false)
      | Some sub =>
          let '(sub', ok) := HEventSubscription_onNotify sub in
          ({| objects := <[a := sub']> (objects m);
              m_subscribtionsByUuid := m_subscribtionsByUuid m;
              m_subscriptionsByUdn := m_subscriptionsByUdn m;
              issued := issued m |}, ok)
      end
  end.

End OnNotify.

(** The services the subscriptions of a list belong to. *)
Definition servicesOf (objs : gmap nat HEventSubscription) (subs : list nat)
    : list nat :=
  omap (fun a => service <$> objs !! a) subs.

(** The maps of the manager fit together: every address in a device's
    list is the address of a subscription object; no list holds two
    subscriptions of the same service; the by-id map leads each id to the
    object with that id and holds every object; and no address is in the
    lists of two devices. *)
Record consistent (m : HEventSubscriptionManager) : Prop := mkConsistent {
  listed_live :
    forall udn subs a,
      m_subscriptionsByUdn m !! udn = Some subs -> a ∈ subs ->
      is_Some (objects m !! a);
  one_per_service :
    forall udn subs,
      m_subscriptionsByUdn m !! udn = Some subs ->
      NoDup (servicesOf (objects m) subs);
  indexed_live :
    forall i a,
      m_subscribtionsByUuid m !! i = Some a ->
      exists sub, objects m !! a = Some sub /\ id sub = i;
  live_indexed :
    forall a sub,
      objects m !! a = Some sub -> m_subscribtionsByUuid m !! id sub = Some a;
  lists_disjoint :
    forall udn1 udn2 subs1 subs2 a,
      m_subscriptionsByUdn m !! udn1 = Some subs1 ->
      m_subscriptionsByUdn m !! udn2 = Some subs2 ->
      a ∈ subs1 -> a ∈ subs2 -> udn1 = udn2
}.

(** A method of [HEventSubscription] leaves the id and the service of the
    subscription as they are. *)
Definition keepsIdentity (f : HEventSubscription -> HEventSubscription) : Prop :=
  forall sub, id (f sub) = id sub /\ service (f sub) = service sub.

Section Operations.

Variable getSuitableHttpServerRootUrl : list string -> string.
Variable HEventSubscription_subscribe : HEventSubscription -> HEventSubscription.
Variable HEventSubscription_unsubscribe : HEventSubscription -> HEventSubscription.
Variable resetSubscription : HEventSubscription -> HEventSubscription.
Variable HEventSubscription_onNotify :
  HEventSubscription -> HEventSubscription * bool.

(** What the control point asks of the manager. *)
Inductive Operation :=
| OpSubscribe (newId : string) (srv : HServiceProxy) (timeout : Z)
| OpCancelService (srv : HServiceProxy) (unsubscribe : bool)
| OpCancelDevice (device : HDeviceProxy) (visitType : DeviceVisitType)
                 (unsubscribe : bool)
| OpRemoveService (srv : HServiceProxy)
| OpRemoveDevice (device : HDeviceProxy) (recursive : bool)
| OpRemoveAll
| OpNotify (callbackId : string).

Definition perform (m : HEventSubscriptionManager) (op : Operation)
    : HEventSubscriptionManager :=
  match op with
  | OpSubscribe newId srv timeout =>
      fst (subscribe getSuitableHttpServerRootUrl HEventSubscription_subscribe
                     newId srv timeout m)
  | OpCancelService srv unsubscribe =>
      fst (cancel_service HEventSubscription_unsubscribe resetSubscription
                          srv unsubscribe m)
  | OpCancelDevice device visitType unsubscribe =>
      fst (cancel_device HEventSubscription_unsubscribe resetSubscription
                         visitType unsubscribe device m)
  | OpRemoveService srv => fst (remove_service srv m)
  | OpRemoveDevice device recursive => fst (remove_device recursive device m)
  | OpRemoveAll => removeAll m
  | OpNotify callbackId => fst (onNotify HEventSubscription_onNotify callbackId m)
  end.

(** The id a new subscription draws is not in use ([QUuid::createUuid]). *)
Definition freshId (m : HEventSubscriptionManager) (op : Operation) : Prop :=
  match op with
  | OpSubscribe newId _ _ => m_subscribtionsByUuid m !! newId = None
  | _ => True
  end.

(** Every id drawn along a sequence of operations is fresh when it is
    drawn. *)
Fixpoint freshIds (m : HEventSubscriptionManager) (ops : list Operation) : Prop :=
  match ops with
  | [] => True
  | op :: rest => freshId m op /\ freshIds (perform m op) rest
  end.

End Operations.

(** The UDNs of a device and of the devices below it. *)
Fixpoint udnsOf (device : HDeviceProxy) : list string :=
  match device with
  | mkDeviceProxy udn devices => udn :: flat_map udnsOf devices
  end.

(** ** Sample surroundings *)

Definition sampleRootUrl (locations : list string) : string :=
  "http://10.0.0.2:4000".

Definition setStatus (st : SubscriptionStatus) (sub : HEventSubscription)
    : HEventSubscription :=
  {| id := id sub;
     service := service sub;
     serverRootUrl := serverRootUrl sub;
     desiredTimeout := desiredTimeout sub;
     subscriptionStatus_ := st |}.

Definition acceptNotify (sub : HEventSubscription) : HEventSubscription * bool :=
  (sub, true).

Definition embeddedService : HServiceProxy :=
  mkServiceProxy 9 true "uuid:device-2" ["http://10.0.0.5/d"].

Definition sampleDevice : HDeviceProxy :=
  mkDeviceProxy "uuid:device-1" [mkDeviceProxy "uuid:device-2" []].

Definition sampleOperations : list (Operation) :=
  [OpSubscribe "{id-1}" Samples.eventedProxy 1800;
   OpSubscribe "{id-2}" embeddedService 1800;
   OpNotify "{id-1}";
   OpCancelDevice sampleDevice VisitThisAndDirectChildren true;
   OpRemoveService embeddedService;
   OpRemoveDevice sampleDevice true].

End SubscriptionRemoval.

(* ===================================================================== *)
(** * Product tokens (hproduct_tokens.cpp)                                *)
(* ===================================================================== *)

Module ProductTokens.

(** ** The [QString] functions the parser uses *)

Definition size (s : string) : Z := Z.of_nat (String.length s).

(** [QChar::isSpace] on ASCII characters: tab, line feed, vertical tab,
    form feed, carriage return and space. Which characters above 127 count
    as white space depends on how the bytes were decoded; the words below
    are ASCII words. *)
Definition isSpace (c : ascii) : bool :=
  let n := nat_of_ascii c in
  (Nat.leb 9 n && Nat.leb n 13) || Nat.eqb n 32.

(** Where [QString::simplified] is in the string: before the first word,
    inside a word, or behind white space that follows a word. *)
Inductive Gap := AtStart | InWord | AfterSpace.

Fixpoint simplifiedFrom (g : Gap) (s : string) : string :=
  match s with
  | EmptyString => EmptyString
  | String c rest =>
      if isSpace c then
        simplifiedFrom (match g with AtStart => AtStart | _ => AfterSpace end) rest
      else
        match g with
        | AfterSpace => String " "%char (String c (simplifiedFrom InWord rest))
        | _ => String c (simplifiedFrom InWord rest)
        end
  end.

(** [QString::simplified]: white space removed from both ends, and every
    run of white space inside replaced by one space. *)
Definition simplified (s : string) : string := simplifiedFrom AtStart s.

(** [QString::left(n)]: the whole string when [n] is negative or not
    smaller than the size. *)
Definition left (n : Z) (s : string) : string :=
  if (n <? 0) || (n >=? size s) then s
  else String.substring 0 (Z.to_nat n) s.

(** [QString::mid(position, n)]; [n = -1] asks for the rest of the
    string. *)
Definition mid (position n : Z) (s : string) : string :=
  if position >=? size s then ""
  else
    let n := if n <? 0 then size s - position else n in
    let '(position, n) := if position <? 0 then (0, n + position) else (position, n) in
    let n := if n + position >? size s then size s - position else n in
    String.substring (Z.to_nat position) (Z.to_nat n) s.

(** The first index from [from] on at which [p] holds, or [-1]. *)
Fixpoint indexWhere (p : ascii -> bool) (s : string) (at_ from : Z) : Z :=
  match s with
  | EmptyString => -1
  | String c rest =>
      if (from <=? at_) && p c then at_
      else indexWhere p rest (at_ + 1) from
  end.

(** [QString::indexOf(ch, from)]. *)
Definition indexOf (ch : ascii) (from : Z) (s : string) : Z :=
  indexWhere (Ascii.eqb ch) s 0 from.

(** [QString::contains(ch)] and [QString::remove(ch)]. *)
Definition contains (ch : ascii) (s : string) : bool :=
  0 <=? indexOf ch 0 s.

Fixpoint remove (ch : ascii) (s : string) : string :=
  match s with
  | EmptyString => EmptyString
  | String c rest =>
      if Ascii.eqb c ch then remove ch rest else String c (remove ch rest)
  end.

(** ** [HProductToken] *)

Record HProductToken := mkProductToken {
  m_token : string;
  m_productVersion : string
}.

(** [HProductToken::HProductToken()]. *)
Definition HProductToken_default : HProductToken :=
  {| m_token := ""; m_productVersion := "" |}.

(** [HProductToken::HProductToken(token, productVersion)]. *)
Definition HProductToken_ctor (token productVersion : string) : HProductToken :=
  let tokenTmp := simplified token in
  let productVersionTmp := simplified productVersion in
  if String.eqb tokenTmp "" || String.eqb productVersionTmp ""
  then HProductToken_default
  else {| m_token := tokenTmp; m_productVersion := productVersionTmp |}.

(** Modelled from the spec: [HProductToken::isValid] is declared inline in
    hproduct_tokens.h, which is not among the sources. The constructor
    above calls a token invalid when one of its parts is empty and leaves
    both parts empty then, so a token is valid when both parts are
    defined. Every token the two constructors build has both parts empty
    or both defined, so the definition is settled on every token that
    occurs. *)
Definition isValid (t : HProductToken) : bool :=
  negb (String.eqb (m_token t) "") && negb (String.eqb (m_productVersion t) "").

(** [HProductToken::toString]. *)
Definition toString (t : HProductToken) : string :=
  if negb (isValid t) then ""
  else m_token t ++ "/" ++ m_productVersion t.

(** [HProductToken::isValidUpnpToken]. The comparison with [UPnP] ignores
    the case. *)
Definition isValidUpnpToken (t : HProductToken) : bool :=
  if negb (isValid t) then false
  else if negb (String.eqb (Http.toLower (m_token t)) (Http.toLower "UPnP"))
  then false
  else
    let version := m_productVersion t in
    let at_ i c :=
      match String.get i version with
      | Some x => Ascii.eqb x c
      | None => false
      end in
    (size version =? 3) && at_ 0%nat "1"%char && at_ 1%nat "."%char
    && (at_ 2%nat "0"%char || at_ 2%nat "1"%char).

(** ** [HProductTokensPrivate] *)

(** The [for] loop of [HProductTokensPrivate::parse] over the characters
    behind the first slash. [None] stands for [return false]; otherwise the
    result holds [productTokens] after the token behind the loop has been
    appended. *)
Fixpoint parseLoop (rest token buf : string) (j lastDelim : Z)
    (productTokens : list HProductToken) : option (list HProductToken) :=
  match rest with
  | EmptyString =>
      let newToken := HProductToken_ctor token buf in
      if isValid newToken then Some (productTokens ++ [newToken])%list else None
  | String c rest' =>
      if Ascii.eqb c "/"%char then
        if lastDelim <=? 0 then None
        else
          let newToken := HProductToken_ctor token (left lastDelim buf) in
          if isValid newToken then
            parseLoop rest' (mid (lastDelim + 1) (-1) buf) "" 0 lastDelim
                      (productTokens ++ [newToken])%list
          else None
      else
        let lastDelim := if Ascii.eqb c " "%char then j else lastDelim in
        parseLoop rest' token (buf ++ String c EmptyString) (j + 1) lastDelim
                  productTokens
  end.

(** [HProductTokensPrivate::parse]: the new [m_productTokens], or [None]
    when it returns [false] and leaves the member as it is. *)
Definition parse (tokens : string) : option (list HProductToken) :=
  let i := indexOf "/"%char 0 tokens in
  if i <? 0 then None
  else
    match parseLoop (mid (i + 1) (-1) tokens) (left i tokens) "" 0 0 [] with
    | None => None
    | Some productTokens =>
        if (length productTokens <? 3)%nat
           || negb (isValidUpnpToken (nth 1 productTokens HProductToken_default))
        then None
        else Some productTokens
    end.

Record HProductTokensPrivate := mkProductTokens {
  m_originalTokenString : string;
  m_productTokens : list HProductToken
}.

(** [HProductTokensPrivate::HProductTokensPrivate()]. *)
Definition HProductTokens_default : HProductTokensPrivate :=
  {| m_originalTokenString := ""; m_productTokens := [] |}.

Section Fallback.

(** [indexOf(rexp, Qt::CaseInsensitive)] for the regular expression
    [(\b|\s+)UPnP/] of the fall-back, with [rexp.matchedLength()]: Qt's
    regular expression engine is not part of the parser. The index is
    negative when nothing matches. *)
Variable indexOfUpnp : string -> Z * Z.

(** [indexOf(QRegExp("\\s|,"), from)]: the next white space or comma. *)
Definition indexOfDelimiter (from : Z) (s : string) : Z :=
  indexWhere (fun c => isSpace c || Ascii.eqb c ","%char) s 0 from.

(** [HProductTokensPrivate::HProductTokensPrivate(tokens)]. *)
Definition HProductTokens_ctor (tokens : string) : HProductTokensPrivate :=
  let original := simplified tokens in
  let found tokens := {| m_originalTokenString := original;
                         m_productTokens := tokens |} in
  match parse original with
  | Some productTokens => found productTokens
  | None =>
      let retry :=
        if contains ","%char original then parse (remove ","%char original) else None in
      match retry with
      | Some productTokens => found productTokens
      | None =>
          let '(index, matchedLength) := indexOfUpnp original in
          if index >=? 0 then
            let slash := index + matchedLength in
            let nextDelim := indexOfDelimiter slash original in
            let token :=
              HProductToken_ctor
                (mid index (matchedLength - 1) original)
                (mid slash (if nextDelim <? 0 then -1 else nextDelim - slash)
                     original) in
            if isValidUpnpToken token then found [token] else found []
          else found []
      end
  end.

End Fallback.

(** [HProductTokens::isValid], [isEmpty], [osToken], [upnpToken],
    [productToken], [extraTokens], [hasExtraTokens], [tokens] and
    [toString]. *)
Definition tokens_isValid (o : HProductTokensPrivate) : bool :=
  (0 <? length (m_productTokens o))%nat.

Definition tokens_isEmpty (o : HProductTokensPrivate) : bool :=
  String.eqb (m_originalTokenString o) "".

Definition osToken (o : HProductTokensPrivate) : HProductToken :=
  if (length (m_productTokens o) <? 3)%nat then HProductToken_default
  else nth 0 (m_productTokens o) HProductToken_default.

Definition upnpToken (o : HProductTokensPrivate) : HProductToken :=
  match m_productTokens o with
  | [] => HProductToken_default
  | [t] => t
  | _ :: t :: _ => t
  end.

Definition productToken (o : HProductTokensPrivate) : HProductToken :=
  if (length (m_productTokens o) <? 3)%nat then HProductToken_default
  else nth 2 (m_productTokens o) HProductToken_default.

Definition extraTokens (o : HProductTokensPrivate) : list HProductToken :=
  if (3 <? length (m_productTokens o))%nat then skipn 3 (m_productTokens o)
  else [].

Definition hasExtraTokens (o : HProductTokensPrivate) : bool :=
  (3 <? length (m_productTokens o))%nat.

Definition tokens (o : HProductTokensPrivate) : list HProductToken :=
  m_productTokens o.

Definition tokens_toString (o : HProductTokensPrivate) : string :=
  m_originalTokenString o.

(** ** Token strings as the UDA writes them *)

(** A word: not empty, of ASCII characters, and neither a slash nor white
    space in it. *)
Definition plainChar (c : ascii) : bool :=
  (nat_of_ascii c <? 128)%nat
  && negb (Ascii.eqb c "/"%char) && negb (isSpace c).

Definition isWord (w : string) : bool :=
  negb (String.eqb w "") && forallb plainChar (list_ascii_of_string w).

(** [token/version token/version ...], the tokens separated by one
    space. *)
Fixpoint render (ts : list (string * string)) : string :=
  match ts with
  | [] => ""
  | (token, version) :: rest =>
      token ++ "/" ++ version
      ++ match rest with
         | [] => ""
         | _ => " " ++ render rest
         end
  end.

Definition tokenOf (tv : string * string) : HProductToken :=
  {| m_token := fst tv; m_productVersion := snd tv |}.

(** ** Sample surroundings *)

(** A regular expression search that finds nothing. *)
Definition noUpnpMatch (s : string) : Z * Z := (-1, -1).

Definition sampleTokens : list (string * string) :=
  [("Linux", "2.6"); ("UPnP", "1.1"); ("HUPnP", "0.5")].

End ProductTokens.

(* ===================================================================== *)
(** * Properties of the device configuration                              *)
(* ===================================================================== *)

Module ConfigurationProperties.
Import DeviceConfiguration.

(** The constructor and the setter keep the age inside the range a
    [quint32] holds, and inside [5, 86400]. *)
Lemma ctor_maxAge_in_range :
  5 <= cacheControlMaxAge HDeviceConfiguration_ctor <= 86400.
Proof. unfold cacheControlMaxAge; simpl; lia. Qed.

Lemma setCacheControlMaxAge_in_range (v : Z) (c : HDeviceConfiguration) :
  5 <= cacheControlMaxAge (setCacheControlMaxAge v c) <= 86400.
Proof.
  unfold cacheControlMaxAge, setCacheControlMaxAge; simpl.
  destruct (Z.ltb_spec v 5); [lia|].
  destruct (Z.gtb_spec v (60*60*24)); lia.
Qed.

(** C3. Setting [cacheControlMaxAge] to [v] stores [v] clamped to
    [5, 86400], that is [max 5 (min v 86400)]: it is 5 for [v] below 5,
    86400 for [v] above 86400 and [v] in between; the getter returns the
    stored value, and the other attributes are left alone. *)
Theorem setCacheControlMaxAge_clamps (v : Z) (c : HDeviceConfiguration) :
  cacheControlMaxAge (setCacheControlMaxAge v c) = Z.max 5 (Z.min v 86400)
  /\ m_cacheControlMaxAgeInSecs (setCacheControlMaxAge v c)
     = (if v <? 5 then 5 else if 86400 <? v then 86400 else v)
  /\ m_pathToDeviceDescriptor (setCacheControlMaxAge v c)
     = m_pathToDeviceDescriptor c
  /\ m_deviceCreator (setCacheControlMaxAge v c) = m_deviceCreator c.
Proof.
  unfold cacheControlMaxAge, setCacheControlMaxAge; simpl.
  repeat split.
  - destruct (Z.ltb_spec v 5); [lia|].
    destruct (Z.gtb_spec v (60*60*24)); lia.
  - destruct (Z.ltb_spec v 5); [reflexivity|].
    destruct (Z.gtb_spec v (60*60*24)); destruct (Z.ltb_spec 86400 v);
      try reflexivity; lia.
Qed.

Example setCacheControlMaxAge_below :
  cacheControlMaxAge (setCacheControlMaxAge 0 HDeviceConfiguration_ctor) = 5.
Proof. reflexivity. Qed.

Example setCacheControlMaxAge_above :
  cacheControlMaxAge (setCacheControlMaxAge 100000 HDeviceConfiguration_ctor)
  = 86400.
Proof. reflexivity. Qed.

Example setCacheControlMaxAge_inside :
  cacheControlMaxAge (setCacheControlMaxAge 30 HDeviceConfiguration_ctor) = 30.
Proof. reflexivity. Qed.

End ConfigurationProperties.

(* ===================================================================== *)
(** * Properties of the HTTP messaging layer                              *)
(* ===================================================================== *)

Module HttpProperties.
Import Exn Http.

(** ** Header entries *)

Lemma sameKey_true (a b : string) :
  sameKey a b = true <-> toLower a = toLower b.
Proof. unfold sameKey. apply String.eqb_eq. Qed.

Lemma sameKey_trans_l (k key' key : string) :
  sameKey k key' = true -> sameKey k key = sameKey key' key.
Proof.
  unfold sameKey. intros H. apply String.eqb_eq in H. now rewrite H.
Qed.

Lemma lookupValue_replaceValue (key' key v : string) (l : list (string * string)) :
  lookupValue key (replaceValue key' v l)
  = if sameKey key' key then Some v else lookupValue key l.
Proof.
  induction l as [|[k v0] rest IH]; simpl.
  - destruct (sameKey key' key); reflexivity.
  - destruct (sameKey k key') eqn:Hk; simpl.
    + rewrite (sameKey_trans_l _ _ key Hk).
      destruct (sameKey key' key); reflexivity.
    + destruct (sameKey k key) eqn:Hkk.
      * destruct (sameKey key' key) eqn:Hn; [|reflexivity].
        exfalso. apply sameKey_true in Hkk. apply sameKey_true in Hn.
        assert (sameKey k key' = true) by (apply sameKey_true; congruence).
        congruence.
      * exact IH.
Qed.

(** [value] after [setValue]: the new value under the same key (whatever
    its case), the old one under any other key. *)
Lemma value_setValue (key' key v : string) (h : QHttpHeader) :
  value key (setValue key' v h)
  = if sameKey key' key then v else value key h.
Proof.
  unfold value, setValue; simpl. rewrite lookupValue_replaceValue.
  destruct (sameKey key' key); reflexivity.
Qed.

Lemma minorVersion_setValue (key v : string) (h : QHttpHeader) :
  minorVersion (setValue key v h) = minorVersion h.
Proof. reflexivity. Qed.

(** ** C1: action errors *)

Section ActionErrors.

Variable currentDate defaultContentType : string.
Variable toXmlString : QtSoapMessage -> string.
Variable codes : ActionErrorCodes.

(** The eight action return values are different numbers. *)
Hypothesis codes_distinct : NoDup (allCodes codes).

Lemma checkForActionError_fault (code : Z) :
  fst (fst (checkForActionError codes code)) = Client.
Proof.
  unfold checkForActionError.
  repeat match goal with |- context [if ?b then _ else _] => destruct b end;
    reflexivity.
Qed.

Ltac distinct_codes :=
  let H := fresh in
  pose proof codes_distinct as H; unfold allCodes in H;
  repeat match goal with
         | H : NoDup (_ :: _) |- _ =>
             let Hn := fresh in let Hr := fresh in
             apply NoDup_cons in H; destruct H as [Hn H];
             repeat rewrite list_elem_of_In in Hn; simpl in Hn
         end;
  repeat match goal with
         | H : ~ (_ \/ _) |- _ =>
             let Hl := fresh in
             apply Decidable.not_or in H; destruct H as [Hl H]
         end.

Lemma checkForActionError_status (code : Z) :
  followsErrorTable codes code (snd (fst (checkForActionError codes code))).
Proof.
  distinct_codes.
  unfold followsErrorTable, checkForActionError.
  repeat match goal with
         | |- context [?a =? ?b] => destruct (Z.eqb_spec a b)
         end; simpl; repeat split; intros; subst;
    try reflexivity; try congruence;
    try (exfalso; simpl in *; intuition congruence).
Qed.


(** C1. The error responder follows the error-mapping table: the HTTP
    status is 402 for InvalidArgs, 501 for ActionFailed, 600 to 605 for
    ArgumentValueInvalid, ArgumentValueOutOfRange,
    OptionalActionNotImplemented, OutOfMemory, HumanInterventionRequired
    and StringArgumentTooLong, and the code itself for any other (vendor)
    code; the SOAP fault code is always Client, and the fault detail carries
    the errorCode and the errorDescription. The response sent is an HTTP
    response with that status whose body is the serialised fault. *)
Theorem responseActionFailed_mapping
    (mi : MessagingInfo) (code : Z) (description : string)
    (status : Z) (phrase : string) (fault : QtSoapMessage) :
  actionFailedFault codes code description = (status, phrase, fault) ->
  followsErrorTable codes code status /\
  faultCode fault = Client /\
  detailEntries fault = [("errorCode", number code);
                         ("errorDescription", description)] /\
  responseActionFailed currentDate defaultContentType toXmlString codes
                       mi code description
  = snd (sendMessage currentDate mi
           (setContentType defaultContentType
              (QHttpResponseHeader status phrase))
           (toXmlString fault)) /\
  startLine (setContentType defaultContentType
               (QHttpResponseHeader status phrase))
  = StatusLine status phrase.
Proof.
  intros Hfault.
  pose proof (checkForActionError_status code) as Htable.
  pose proof (checkForActionError_fault code) as Hclient.
  unfold responseActionFailed. rewrite Hfault.
  unfold actionFailedFault in Hfault.
  destruct (checkForActionError codes code) as [[f s] p].
  simpl in Htable, Hclient. inversion Hfault; subst; clear Hfault.
  split; [exact Htable|]. split; [reflexivity|].
  split; [reflexivity|]. split; reflexivity.
Qed.

End ActionErrors.

Lemma udaCodes_distinct : NoDup (allCodes udaCodes).
Proof. apply (bool_decide_unpack _). vm_compute. reflexivity. Qed.

(** ** The send loops *)

(** One round of the loop of [send]. *)
Lemma send_loop_S (fuel : nat) (data : string) (index errorThreshold : Z)
    (sock : QTcpSocket) :
  send_loop (S fuel) data index errorThreshold sock
  = if index <? size data then
      if negb (connected sock) then
        Some (sock, Throw (HSocketException
                "Failed to send data to %1. Connection closed."))
      else
        let '(sock1, bytesWritten) :=
          write (mid index (size data - index) data) sock in
        if bytesWritten =? 0 then
          if negb (valid sock1) || (errorThreshold >? 100) then
            Some (sock1, Throw (HSocketException "Failed to send data to %1."))
          else
            send_loop fuel data (index + bytesWritten)
                      (errorThreshold + 1) sock1
        else if bytesWritten <? 0 then
          Some (sock1, Throw (HSocketException "Failed to send data to %1."))
        else
          send_loop fuel data (index + bytesWritten) errorThreshold sock1
    else Some (sock, Return tt).
Proof. reflexivity. Qed.

Lemma send_fuel_S (data : string) :
  send_fuel data = S (String.length data + 102).
Proof. unfold send_fuel. lia. Qed.

Lemma size_pos (data : string) : data <> "" -> (0 <? size data) = true.
Proof.
  intros H. apply Z.ltb_lt. unfold size.
  destruct data; [congruence|]. simpl String.length. lia.
Qed.

Lemma setSocket_socket (mi : MessagingInfo) : setSocket (socket mi) mi = mi.
Proof. destruct mi; reflexivity. Qed.

(** A send on a socket that is not connected fails at once, before any
    [write]. *)
Lemma send_disconnected (mi : MessagingInfo) (data : string) :
  data <> "" ->
  connected (socket mi) = false ->
  exists why, send mi data = Some (mi, Throw (HSocketException why)).
Proof.
  intros Hdata Hconn. unfold send.
  rewrite send_fuel_S, send_loop_S, (size_pos _ Hdata), Hconn.
  cbn [negb]. rewrite setSocket_socket. eexists. reflexivity.
Qed.

(** A [write] that returns a negative number fails the send at once: no
    further [write] is attempted. *)
Lemma send_negative_write
    (mi : MessagingInfo) (data : string) (st : WriteStep) (rest : list WriteStep) :
  data <> "" ->
  connected (socket mi) = true ->
  script (socket mi) = st :: rest ->
  accepts st < 0 ->
  exists mi' why,
    send mi data = Some (mi', Throw (HSocketException why)) /\
    script (socket mi') = rest /\
    written (socket mi') = written (socket mi).
Proof.
  intros Hdata Hconn Hscript Hneg. unfold send.
  rewrite send_fuel_S, send_loop_S, (size_pos _ Hdata), Hconn.
  cbn [negb]. unfold write. rewrite Hscript.
  replace (accepts st <? 0) with true by (symmetry; apply Z.ltb_lt; lia).
  cbn [Z.eqb Z.ltb Z.compare Z.opp].
  eexists _, _. split; [reflexivity|]. split; reflexivity.
Qed.

(** *** The send loops come to an end *)

Lemma substring_length_le (n m : nat) (s : string) :
  (String.length (String.substring n m s) <= m)%nat.
Proof.
  revert n m. induction s as [|c rest IH]; intros [|n] [|m]; cbn; try lia.
  - specialize (IH 0%nat m). lia.
  - apply IH.
  - apply IH.
Qed.

(** [write] takes no more than it is given, or fails with [-1]. *)
Lemma write_result (data : string) (sock sock' : QTcpSocket) (n : Z) :
  write data sock = (sock', n) -> n = -1 \/ 0 <= n <= size data.
Proof.
  unfold write. destruct (script sock) as [|st rest].
  - intros H; inversion H; subst. right. unfold size. lia.
  - destruct (Z.ltb_spec (accepts st) 0).
    + intros H'; inversion H'; subst. left. reflexivity.
    + intros H'; inversion H'; subst. right. unfold size in *. lia.
Qed.

Lemma size_mid (index len : Z) (data : string) :
  0 <= len -> size (mid index len data) <= len.
Proof.
  intros Hlen. unfold size, mid.
  pose proof (substring_length_le (Z.to_nat index) (Z.to_nat len) data). lia.
Qed.

(** The loop of [send] ends within the rounds [send] gives it. *)
Lemma send_loop_total (fuel : nat) :
  forall (data : string) (index errorThreshold : Z) (sock : QTcpSocket),
    (Z.to_nat (size data - index) + Z.to_nat (102 - errorThreshold) < fuel)%nat ->
    exists r, send_loop fuel data index errorThreshold sock = Some r.
Proof.
  induction fuel as [|k IH]; intros data index thr sock Hfuel; [lia|].
  rewrite send_loop_S.
  destruct (Z.ltb_spec index (size data)) as [Hlt|Hge]; [|eexists; reflexivity].
  destruct (connected sock); cbn [negb]; [|eexists; reflexivity].
  destruct (write (mid index (size data - index) data) sock) as [sock1 n] eqn:Hw.
  apply write_result in Hw.
  pose proof (size_mid index (size data - index) data ltac:(lia)) as Hmid.
  destruct (Z.eqb_spec n 0) as [Hz|Hnz].
  - destruct (negb (valid sock1) || (thr >? 100)) eqn:Hstop; [eexists; reflexivity|].
    apply orb_false_iff in Hstop. destruct Hstop as [_ Hthr].
    rewrite Z.gtb_ltb in Hthr. apply Z.ltb_ge in Hthr.
    apply IH. subst n. rewrite Z.add_0_r. lia.
  - destruct (Z.ltb_spec n 0); [eexists; reflexivity|].
    apply IH. lia.
Qed.

(** [send] always comes to an end: it returns or throws. *)
Lemma send_total (mi : MessagingInfo) (data : string) :
  exists r, send mi data = Some r.
Proof.
  unfold send.
  destruct (send_loop_total (send_fuel data) data 0 0 (socket mi)) as [[sock r] Hr].
  - unfold send_fuel, size. lia.
  - rewrite Hr. eexists. reflexivity.
Qed.

Lemma writeChunk_S (fuel : nat) (chunk : string)
    (errorThreshold bytesWritten0 : Z) (sock : QTcpSocket) :
  writeChunk (S fuel) chunk errorThreshold bytesWritten0 sock
  = if errorThreshold <? 100 then
      let '(sock1, bytesWritten) := write chunk sock in
      if bytesWritten =? 0 then
        if negb (valid sock1) || (errorThreshold >? 100) then
          Some (sock1, Throw (HSocketException "Failed to send data to %1."))
        else
          writeChunk fuel chunk (errorThreshold + 1) bytesWritten sock1
      else if bytesWritten <? 0 then
        Some (sock1, Throw (HSocketException "Failed to send data to %1."))
      else
        Some (sock1, Return (errorThreshold, bytesWritten))
    else Some (sock, Return (errorThreshold, bytesWritten0)).
Proof. reflexivity. Qed.

(** The chunk-writing loop ends; when it ends normally it has written
    something, or used up empty writes, or was not entered at all. *)
Lemma writeChunk_total (fuel : nat) :
  forall (chunk : string) (thr bw0 : Z) (sock : QTcpSocket),
    (Z.to_nat (100 - thr) < fuel)%nat ->
    exists sock' r,
      writeChunk fuel chunk thr bw0 sock = Some (sock', r) /\
      match r with
      | Throw _ => True
      | Return (thr', bw') =>
          thr <= thr' /\
          (0 < bw' \/ (bw' = 0 /\ thr < thr' /\ thr < 100)
           \/ (thr' = thr /\ bw' = bw0))
      end.
Proof.
  induction fuel as [|k IH]; intros chunk thr bw0 sock Hfuel; [lia|].
  rewrite writeChunk_S.
  destruct (Z.ltb_spec thr 100) as [Hlt|Hge].
  2: { eexists _, _. split; [reflexivity|]. cbn. lia. }
  destruct (write chunk sock) as [sock1 n] eqn:Hw.
  apply write_result in Hw.
  destruct (Z.eqb_spec n 0) as [Hz|Hnz].
  - destruct (negb (valid sock1) || (thr >? 100));
      [eexists _, _; split; [reflexivity | exact I]|].
    destruct (IH chunk (thr + 1) n sock1 ltac:(lia)) as (sock' & r & Hr & Hpost).
    exists sock', r. split; [exact Hr|].
    destruct r as [[thr' bw']|ex]; [|exact I]. lia.
  - destruct (Z.ltb_spec n 0);
      [eexists _, _; split; [reflexivity | exact I]|].
    eexists _, _. split; [reflexivity|]. cbn. lia.
Qed.

Lemma sendChunked_loop_S (fuel : nat) (maxChunkSize : Z) (data : string)
    (index errorThreshold : Z) (sock : QTcpSocket) :
  sendChunked_loop (S fuel) maxChunkSize data index errorThreshold sock
  = if index <? size data then
      if negb (connected sock) then
        Some (sock, Throw (HSocketException
                "Failed to send data to %1. Connection closed."))
      else
        let dataToSendSize := Z.min (size data - index) maxChunkSize in
        let sizeLine := setNum16 dataToSendSize ++ crlf in
        let '(sock1, bytesWritten) := write sizeLine sock in
        if negb (bytesWritten =? size sizeLine) then
          Some (sock1, Throw (HSocketException "Failed to send data to %1."))
        else
          match writeChunk 101 (mid index dataToSendSize data)
                           errorThreshold bytesWritten sock1 with
          | None => None
          | Some (sock2, Throw ex) => Some (sock2, Throw ex)
          | Some (sock2, Return (errorThreshold', bytesWritten')) =>
              let index' := index + bytesWritten' in
              let '(sock3, bytesWritten'') := write crlf sock2 in
              if negb (bytesWritten'' =? 2) then
                Some (sock3, Throw (HSocketException "Failed to send data to %1."))
              else
                sendChunked_loop fuel maxChunkSize data index'
                                 errorThreshold' sock3
          end
    else Some (sock, Return tt).
Proof. reflexivity. Qed.

Lemma size_append (a b : string) : size (a ++ b) = size a + size b.
Proof.
  unfold size. induction a as [|c rest IH]; [reflexivity|].
  change (String c rest ++ b) with (String c (rest ++ b)).
  change (String.length (String c (rest ++ b)))
    with (S (String.length (rest ++ b))).
  change (String.length (String c rest)) with (S (String.length rest)).
  rewrite !Nat2Z.inj_succ, IH. lia.
Qed.

(** The outer loop of [sendChunked] ends within the rounds it is given. *)
Lemma sendChunked_loop_total (fuel : nat) :
  forall (maxChunkSize : Z) (data : string) (index thr : Z) (sock : QTcpSocket),
    0 <= thr ->
    (Z.to_nat (size data - index) + Z.to_nat (100 - thr) < fuel)%nat ->
    exists r, sendChunked_loop fuel maxChunkSize data index thr sock = Some r.
Proof.
  induction fuel as [|k IH]; intros maxChunkSize data index thr sock Hthr Hfuel;
    [lia|].
  rewrite sendChunked_loop_S.
  destruct (Z.ltb_spec index (size data)) as [Hlt|Hge]; [|eexists; reflexivity].
  destruct (connected sock); cbn [negb]; [|eexists; reflexivity].
  cbv zeta.
  set (sizeLine := setNum16 (Z.min (size data - index) maxChunkSize) ++ crlf).
  assert (Hline : 2 <= size sizeLine).
  { subst sizeLine. rewrite size_append. unfold size at 1.
    change (size crlf) with 2. lia. }
  destruct (write sizeLine sock) as [sock1 n] eqn:Hw.
  destruct (Z.eqb_spec n (size sizeLine)) as [Hn|Hn]; cbn [negb];
    [|eexists; reflexivity].
  destruct (writeChunk_total 101
              (mid index (Z.min (size data - index) maxChunkSize) data)
              thr n sock1 ltac:(lia)) as (sock2 & r & Hr & Hpost).
  rewrite Hr. destruct r as [[thr' bw']|ex]; [|eexists; reflexivity].
  destruct (write crlf sock2) as [sock3 m].
  destruct (negb (m =? 2)); [eexists; reflexivity|].
  apply IH; lia.
Qed.

(** [sendChunked] always comes to an end: it returns or throws. *)
Lemma sendChunked_total (mi : MessagingInfo) (data : string) :
  exists r, sendChunked mi data = Some r.
Proof.
  unfold sendChunked.
  destruct (send_total mi (left (indexOf (crlf ++ crlf) data + 4) data))
    as [[mi1 [[]|ex]] Hsend]; rewrite Hsend; [|eexists; reflexivity].
  assert (Hidx : 3 <= indexOf (crlf ++ crlf) data + 4).
  { unfold indexOf. destruct (index 0 (crlf ++ crlf) data); lia. }
  destruct (sendChunked_loop_total (send_fuel data) (m_maxChunkSize mi1) data
              (indexOf (crlf ++ crlf) data + 4) 0 (socket mi1))
    as [[sock [[]|ex]] Hloop].
  - lia.
  - unfold send_fuel, size. lia.
  - rewrite Hloop. eexists. reflexivity.
  - rewrite Hloop. eexists. reflexivity.
Qed.

(** ** C4: what [send] does to the header *)

Ltac header_values :=
  repeat (rewrite value_setValue;
          match goal with
          | |- context [sameKey ?a ?b] =>
              let r := eval vm_compute in (sameKey a b) in
              change (sameKey a b) with r
          end; cbv iota).

(** C4. Sending a header and a body always sets the DATE and HOST entries,
    sets [Connection: close] when keep-alive is off and the minor version
    is 1, and chooses the chunked framing, with [Transfer-Encoding:
    chunked], exactly when the maximum chunk size is positive and smaller
    than the body; otherwise it sets Content-Length to the size of the body
    and sends the message unchunked. Either way the transmission comes to
    an end: it returns or throws. *)
Theorem sendMessage_framing
    (currentDate : string) (mi : MessagingInfo) (reqHdr : QHttpHeader)
    (data : string) :
  let hdr := fst (sendMessage currentDate mi reqHdr data) in
  let outcome := snd (sendMessage currentDate mi reqHdr data) in
  let msg := toString hdr ++ data in
  value "DATE" hdr = currentDate /\
  value "HOST" hdr = hostInfo mi /\
  value "Connection" hdr
  = (if negb (keepAlive mi) && (minorVersion reqHdr =? 1)
     then "close" else value "Connection" reqHdr) /\
  (if (0 <? m_maxChunkSize mi) && (m_maxChunkSize mi <? size data)
   then value "Transfer-Encoding" hdr = "chunked" /\
        value "Content-Length" hdr = value "Content-Length" reqHdr /\
        outcome = sendChunked mi msg
   else value "Content-Length" hdr = number (size data) /\
        value "Transfer-Encoding" hdr = value "Transfer-Encoding" reqHdr /\
        outcome = send mi msg) /\
  (exists r, outcome = Some r).
Proof.
  unfold sendMessage, prepareHeader, setContentLength.
  rewrite minorVersion_setValue.
  rewrite !Z.gtb_ltb.
  destruct (negb (keepAlive mi) && (minorVersion reqHdr =? 1));
    destruct ((0 <? m_maxChunkSize mi) && (m_maxChunkSize mi <? size data));
    cbn [fst snd];
    (split; [|split; [|split; [|split; [repeat split|]]]]);
    try (header_values; reflexivity);
    first [apply sendChunked_total | apply send_total].
Qed.

(** ** C8: empty writes *)

(** C8. What the two send loops do with empty writes.
    [send]: 101 empty writes in a row are each followed by another attempt
    and the message still goes out; the 102nd empty write fails the send.
    [sendChunked]: after 100 empty writes of a chunk the loop gives up
    without an exception, goes on writing size lines and line ends only,
    and returns normally although no byte of the body was written. *)
Theorem empty_writes_tolerated :
  (exists mi',
     send (Samples.connectionWith (repeat Samples.takesNothing 101)) "abc"
     = Some (mi', Return tt)
     /\ written (socket mi') = "abc") /\
  (exists mi' why,
     send (Samples.connectionWith (repeat Samples.takesNothing 102)) "abc"
     = Some (mi', Throw (HSocketException why))) /\
  (exists mi',
     sendChunked
       (Samples.connectionWith
          ([Samples.takesAll; Samples.takesAll]
           ++ repeat Samples.takesNothing 100))
       Samples.sampleMessage
     = Some (mi', Return tt)
     /\ written (socket mi')
        = "GET / HTTP/1.1" ++ crlf ++ crlf
          ++ "4" ++ crlf ++ crlf ++ "4" ++ crlf ++ crlf
          ++ "4" ++ crlf ++ crlf ++ "4" ++ crlf ++ crlf
          ++ "1" ++ crlf ++ crlf ++ "0" ++ crlf).
Proof.
  split; [|split].
  - eexists. split; vm_compute; reflexivity.
  - eexists _, _. vm_compute. reflexivity.
  - eexists. split; vm_compute; reflexivity.
Qed.

(** An unhindered chunked send, for comparison. *)
Example sendChunked_unhindered :
  exists mi',
    sendChunked (Samples.connectionWith []) Samples.sampleMessage
    = Some (mi', Return tt)
    /\ written (socket mi')
       = "GET / HTTP/1.1" ++ crlf ++ crlf
         ++ "4" ++ crlf ++ "ABCD" ++ crlf ++ "4" ++ crlf ++ "EFGH" ++ crlf
         ++ "2" ++ crlf ++ "IJ" ++ crlf ++ "0" ++ crlf.
Proof. eexists. split; vm_compute; reflexivity. Qed.

(** ** C10: both framings at once *)

Section Receive.

Variable parseHeader : string -> QHttpHeader.
Variable readChunkedRequest :
  MessagingInfo -> option (MessagingInfo * result HException string).
Variable readRequestData :
  MessagingInfo -> Z -> option (MessagingInfo * result HException string).
Variable contentLength : QHttpHeader -> Z.

(** C10. When the header read is valid and carries both
    [Transfer-Encoding: chunked] and a Content-Length, [receive] returns an
    invalid default header and an empty body, and reads nothing of the body:
    the connection is left as the header read left it. *)
Theorem receive_rejects_both_framings
    (mi : MessagingInfo) (buffer : string) (steps : list ReadStep)
    (headerData : string) :
  readHeaderData (incoming (socket mi)) (receiveTimeoutForNoData mi)
                 (readBuffer (socket mi)) ""
  = Some (buffer, steps, Return headerData) ->
  isValid (parseHeader headerData) = true ->
  value "TRANSFER-ENCODING" (parseHeader headerData) = "chunked" ->
  hasContentLength (parseHeader headerData) = true ->
  receive parseHeader readChunkedRequest readRequestData contentLength mi
  = Some (setSocket (setRead buffer steps (socket mi)) mi,
          Return (Header_default, ""))
  /\ isValid Header_default = false.
Proof.
  intros Hread Hvalid Hchunked Hlength.
  unfold receive. rewrite Hread, Hvalid, Hchunked, Hlength.
  split; reflexivity.
Qed.

End Receive.

(** Witness of C1: the UDA codes, error 601. *)
Lemma responseActionFailed_mapping_witness :
  NoDup (allCodes udaCodes) /\
  followsErrorTable udaCodes 601 601 /\
  faultCode (mkSoapFault Client "UPnPError" "UPnPError"
               [("errorCode", "601");
                ("errorDescription", "Argument Value Out of Range")])
  = Client.
Proof.
  split; [exact udaCodes_distinct|].
  pose proof (responseActionFailed_mapping
                "Thu, 01 Jan 2010 00:00:00" "text/xml" (fun _ => "<fault/>")
                udaCodes udaCodes_distinct
                (Samples.connectionWith []) 601 "Argument Value Out of Range"
                601 "Argument Value Out of Range"
                (mkSoapFault Client "UPnPError" "UPnPError"
                   [("errorCode", "601");
                    ("errorDescription", "Argument Value Out of Range")])
                eq_refl) as H.
  destruct H as (Htable & Hclient & _). split; assumption.
Defined.

(** Witness of C10: a header with both framings, followed by body bytes. *)
Lemma receive_rejects_both_framings_witness :
  receive (fun _ => Samples.bothFramings)
          (fun mi => Some (mi, Return "")) (fun mi _ => Some (mi, Return ""))
          (fun _ => 5)
          (Samples.connectionReceiving Samples.bothFramingsBytes)
  = Some (setSocket
            (setRead ("5" ++ crlf ++ "hello") []
               (socket (Samples.connectionReceiving Samples.bothFramingsBytes)))
            (Samples.connectionReceiving Samples.bothFramingsBytes),
          Return (Header_default, ""))
  /\ isValid Header_default = false.
Proof.
  apply (receive_rejects_both_framings
           (fun _ => Samples.bothFramings)
           (fun mi => Some (mi, Return "")) (fun mi _ => Some (mi, Return ""))
           (fun _ => 5)
           (Samples.connectionReceiving Samples.bothFramingsBytes)
           ("5" ++ crlf ++ "hello") []
           (toString Samples.bothFramings));
    vm_compute; reflexivity.
Defined.

End HttpProperties.

(* ===================================================================== *)
(** * Properties of the device host                                       *)
(* ===================================================================== *)

Module DeviceHostProperties.
Import Exn DeviceConfiguration DeviceHost.

(** ** Shutting down *)

Lemma processEvents_progress (h : HDeviceHostPrivate) :
  (0 < activeClients h + m_threadPool_active h)%nat ->
  (activeClients (processEvents h) + m_threadPool_active (processEvents h)
   < activeClients h + m_threadPool_active h)%nat.
Proof.
  unfold processEvents, activeClients.
  destruct (m_httpServer h) as [srv|] eqn:Hsrv.
  - destruct (activeClientCount srv) as [|k] eqn:Hk; simpl;
      rewrite ?Hsrv, ?Hk; simpl; lia.
  - simpl. rewrite Hsrv. lia.
Qed.

(** The wait loop of [doClear] ends, and when it ends no request is in
    flight. *)
Lemma drainLoop_done (fuel : nat) :
  forall h,
    (activeClients h + m_threadPool_active h <= fuel)%nat ->
    activeClients (drainLoop fuel h) = O /\
    m_threadPool_active (drainLoop fuel h) = O.
Proof.
  induction fuel as [|k IH]; intros h Hle; simpl.
  - lia.
  - destruct (Nat.eqb_spec (activeClients h) 0) as [Hc|Hc];
      destruct (Nat.ltb_spec 0 (m_threadPool_active h)) as [Ht|Ht]; simpl;
      try (apply IH; pose proof (processEvents_progress h); lia).
    lia.
Qed.

Lemma drain_done (h : HDeviceHostPrivate) :
  activeClients (drain h) = O /\ m_threadPool_active (drain h) = O.
Proof. unfold drain. apply drainLoop_done. lia. Qed.

(** Draining touches the requests in flight only. *)
Lemma processEvents_frame (h : HDeviceHostPrivate) :
  m_state (processEvents h) = m_state h /\
  m_initParams (processEvents h) = m_initParams h /\
  m_ssdp (processEvents h) = m_ssdp h /\
  m_http (processEvents h) = m_http h /\
  m_activeRequestCount (processEvents h) = m_activeRequestCount h /\
  m_eventNotifier (processEvents h) = m_eventNotifier h /\
  m_presenceAnnouncer (processEvents h) = m_presenceAnnouncer h /\
  m_deviceStorage (processEvents h) = m_deviceStorage h /\
  now (processEvents h) = now h /\
  network (processEvents h) = network h.
Proof.
  unfold processEvents.
  destruct (m_httpServer h) as [srv|]; [destruct (activeClientCount srv)|];
    simpl; repeat split; reflexivity.
Qed.

Lemma drainLoop_frame (fuel : nat) :
  forall h,
    m_state (drainLoop fuel h) = m_state h /\
    m_initParams (drainLoop fuel h) = m_initParams h /\
    m_ssdp (drainLoop fuel h) = m_ssdp h /\
    m_http (drainLoop fuel h) = m_http h /\
    m_activeRequestCount (drainLoop fuel h) = m_activeRequestCount h /\
    m_eventNotifier (drainLoop fuel h) = m_eventNotifier h /\
    m_presenceAnnouncer (drainLoop fuel h) = m_presenceAnnouncer h /\
    m_deviceStorage (drainLoop fuel h) = m_deviceStorage h /\
    now (drainLoop fuel h) = now h /\
    network (drainLoop fuel h) = network h.
Proof.
  induction fuel as [|k IH]; intros h; simpl.
  - repeat split; reflexivity.
  - destruct (negb (activeClients h =? 0)%nat || (0 <? m_threadPool_active h)%nat).
    + destruct (IH (processEvents h)) as (H1 & H2 & H3 & H4 & H5 & H6 & H7 & H8 & H9 & H10).
      destruct (processEvents_frame h) as (P1 & P2 & P3 & P4 & P5 & P6 & P7 & P8 & P9 & P10).
      repeat split; congruence.
    + repeat split; reflexivity.
Qed.

(** [clear] leaves nothing behind, whatever the host held; it touches
    neither the clock nor, but for closing the HTTP server, the network. *)
Lemma doClear_close_fields (h : HDeviceHostPrivate) :
  m_ssdp (doClear_close h) = None /\
  m_presenceAnnouncer (doClear_close h) = None /\
  now (doClear_close h) = now h /\
  network (doClear_close h) = HttpClose :: network h.
Proof. destruct h; repeat split; reflexivity. Qed.

Lemma doClear_reset_fields (h : HDeviceHostPrivate) :
  m_state (doClear_reset h) = Uninitialized /\
  m_initParams (doClear_reset h) = None /\
  m_ssdp (doClear_reset h) = m_ssdp h /\
  m_httpServer (doClear_reset h) = None /\
  m_http (doClear_reset h) = None /\
  m_activeRequestCount (doClear_reset h) = 0 /\
  m_eventNotifier (doClear_reset h) = None /\
  m_presenceAnnouncer (doClear_reset h) = m_presenceAnnouncer h /\
  m_threadPool_active (doClear_reset h) = m_threadPool_active h /\
  now (doClear_reset h) = now h /\
  network (doClear_reset h) = network h.
Proof. destruct h; repeat split; reflexivity. Qed.

Lemma clear_released (h : HDeviceHostPrivate) : released (clear h).
Proof.
  unfold released, clear, doClear.
  set (x := doClear_close h).
  destruct (doClear_close_fields h) as (Cs & Cp & _ & _). fold x in Cs, Cp.
  destruct (drainLoop_frame (activeClients x + m_threadPool_active x) x)
    as (_ & _ & Hssdp & _ & _ & _ & Hpa & _ & _ & _).
  destruct (drain_done x) as [_ Hthreads].
  fold (drain x) in Hssdp, Hpa. set (y := drain x) in *.
  destruct (doClear_reset_fields y)
    as (R1 & R2 & R3 & R4 & R5 & R6 & R7 & R8 & R9 & _ & _).
  set (z := doClear_reset y) in *.
  destruct z; cbn in *. repeat split; congruence.
Qed.

Lemma clear_world (h : HDeviceHostPrivate) :
  now (clear h) = now h /\ network (clear h) = HttpClose :: network h.
Proof.
  unfold clear, doClear.
  set (x := doClear_close h).
  destruct (doClear_close_fields h) as (_ & _ & Cn & Cw). fold x in Cn, Cw.
  destruct (drainLoop_frame (activeClients x + m_threadPool_active x) x)
    as (_ & _ & _ & _ & _ & _ & _ & _ & Hn & Hw).
  fold (drain x) in Hn, Hw. set (y := drain x) in *.
  destruct (doClear_reset_fields y)
    as (_ & _ & _ & _ & _ & _ & _ & _ & _ & Rn & Rw).
  set (z := doClear_reset y) in *.
  destruct z; cbn in *. split; congruence.
Qed.

(** ** C7: [quit] on a host that is not started *)

Lemma quit_leaves_uninitialized (h : HDeviceHostPrivate) :
  m_state (fst (quit h)) = Uninitialized.
Proof.
  unfold quit. destruct (InitState_eqb (m_state h) Uninitialized) eqn:E; simpl.
  - destruct (m_state h); try discriminate; reflexivity.
  - reflexivity.
Qed.

(** C7, as the code has it. [quit] on an [Uninitialized] host changes
    nothing, neither the host nor the network trace, and returns no value
    ([quit] is a [void] function); a second [quit] after a first one is such
    a call. *)
Theorem quit_idempotent (h : HDeviceHostPrivate) :
  (m_state h = Uninitialized -> quit h = (h, RVoid)) /\
  quit (fst (quit h)) = (fst (quit h), RVoid).
Proof.
  assert (Hnoop : forall h0, m_state h0 = Uninitialized -> quit h0 = (h0, RVoid)).
  { intros h0 H0. unfold quit. rewrite H0. reflexivity. }
  split.
  - apply Hnoop.
  - apply Hnoop. apply quit_leaves_uninitialized.
Qed.

Lemma quit_idempotent_witness :
  quit (HDeviceHostPrivate_ctor 0) = (HDeviceHostPrivate_ctor 0, RVoid).
Proof.
  apply (proj1 (quit_idempotent (HDeviceHostPrivate_ctor 0))). reflexivity.
Defined.

(** C7 as stated fails: [quit] on an [Uninitialized] host does not return
    [NotStarted]; it returns nothing. *)
Lemma quit_returns_no_code :
  snd (quit (HDeviceHostPrivate_ctor 0)) <> RCode NotStarted.
Proof. simpl. discriminate. Qed.

(** A started host that quits says goodbye and ends up released. *)
Example quit_started :
  let h := fst (init Samples.allWell Samples.twoDevices None
                     (HDeviceHostPrivate_ctor 0)) in
  m_state h = Initialized /\
  network (fst (quit h))
  = HttpClose :: SsdpByeBye 0 0 :: SsdpByeBye 1 0 :: network h.
Proof. vm_compute. split; reflexivity. Qed.

(** ** C6: failed initialisation *)

Lemma createRootDevices_result (env : Environment) (l : list HDeviceConfiguration) :
  forall h,
    snd (createRootDevices env l h)
    = match firstThrow env l with
      | Some ex => Throw ex
      | None => Return tt
      end.
Proof.
  induction l as [|c rest IH]; intros h; [reflexivity|].
  unfold createRootDevices in *. cbn [forM_ firstThrow]. unfold bind at 1.
  unfold createRootDevice at 1.
  destruct (env_createRootDevice env c) as [udn|ex]; [apply IH|reflexivity].
Qed.

(** How the [try] block of [init] ends, read off the environment. *)
Lemma init_try_result
    (env : Environment) (initParams : HDeviceHostConfiguration)
    (errorString : option string) (h : HDeviceHostPrivate) :
  snd (init_try env initParams errorString h)
  = if negb (env_listen env) then
      Return (UndefinedFailure,
              assign errorString "Could not start the HTTP server.")
    else
      match firstThrow env (deviceConfigurations (cloneHost initParams)) with
      | Some ex => Throw ex
      | None =>
          if negb (env_bind env)
          then Throw (HSocketException "Failed to initialize SSDP.")
          else Return (env_doInit env, errorString)
      end.
Proof.
  unfold init_try, bind, modify, ret, throw.
  destruct (env_listen env); cbn [negb]; [|reflexivity].
  match goal with
  | |- context [createRootDevices env ?l ?x] =>
      pose proof (createRootDevices_result env l x) as Hc;
      destruct (createRootDevices env l x) as [h2 r]
  end.
  cbn [snd] in Hc. subst r.
  destruct (firstThrow env (deviceConfigurations (cloneHost initParams)));
    [reflexivity|].
  destruct (env_bind env); cbn [negb]; [|reflexivity].
  destruct (ReturnCode_eqb (env_doInit env) Success) eqn:E; [|reflexivity].
  destruct (env_doInit env); try discriminate E. reflexivity.
Qed.

(** C6, as the code has it. When [init] on an [Uninitialized] host does
    not return [Success], the host is [Uninitialized] again and, unless the
    configuration was empty and nothing had been touched, every component
    is released. The code returned is [InvalidConfiguration] for an empty
    configuration, [UndefinedFailure] when the HTTP server cannot listen or
    an unclassified exception is thrown, [InvalidDeviceDescription] and
    [InvalidServiceDescription] for the two description exceptions,
    [CommunicationsError] when SSDP cannot bind, and the code of the
    [doInit] hook when the hook fails. The error string is the message for
    the empty configuration, the reason of the exception, and empty after a
    failed hook. *)
Theorem init_failure_unwinds
    (env : Environment) (initParams : HDeviceHostConfiguration)
    (errorString : option string) (h h' : HDeviceHostPrivate)
    (rc : ReturnCode) (errorString' : option string) :
  m_state h = Uninitialized ->
  init env initParams errorString h = (h', (rc, errorString')) ->
  rc <> Success ->
  m_state h' = Uninitialized /\
  (isEmpty initParams = false -> released h') /\
  ( (isEmpty initParams = true /\ h' = h /\ rc = InvalidConfiguration /\
     errorString'
     = assign errorString "No UPnP device configuration provided.")
    \/
    (isEmpty initParams = false /\ env_listen env = false /\
     rc = UndefinedFailure)
    \/
    (isEmpty initParams = false /\ env_listen env = true /\
     exists ex,
       firstThrow env (deviceConfigurations (cloneHost initParams)) = Some ex /\
       rc = match ex with
            | InvalidDeviceDescriptionEx _ => InvalidDeviceDescription
            | InvalidServiceDescriptionEx _ => InvalidServiceDescription
            | HSocketException _ => CommunicationsError
            | HExceptionOther _ => UndefinedFailure
            end /\
       errorString' = assign errorString (reason ex))
    \/
    (isEmpty initParams = false /\ env_listen env = true /\
     firstThrow env (deviceConfigurations (cloneHost initParams)) = None /\
     env_bind env = false /\ rc = CommunicationsError /\
     errorString' = assign errorString "Failed to initialize SSDP.")
    \/
    (isEmpty initParams = false /\ env_listen env = true /\
     firstThrow env (deviceConfigurations (cloneHost initParams)) = None /\
     env_bind env = true /\ rc = env_doInit env /\
     errorString' = assign errorString "") ).
Proof.
  intros Hstate Hinit Hfail.
  unfold init in Hinit. rewrite Hstate in Hinit. cbn [InitState_eqb] in Hinit.
  destruct (isEmpty initParams) eqn:Hempty.
  - inversion Hinit; subst. split; [assumption|]. split; [discriminate|].
    left. repeat split; reflexivity.
  - pose proof (init_try_result env initParams errorString h) as Htry.
    destruct (init_try env initParams errorString h) as [h1 r].
    cbn [snd] in Htry.
    assert (Hrel : forall x, released (clear (setState Exiting x)))
      by (intros x; apply clear_released).
    destruct (env_listen env) eqn:Hlisten; cbn [negb] in Htry.
    + destruct (firstThrow env (deviceConfigurations (cloneHost initParams)))
        as [ex|] eqn:Hthrow.
      * subst r.
        destruct ex as [why|why|why|why]; cbn in Hinit;
          inversion Hinit; subst;
          (split; [apply Hrel|]); (split; [intros _; apply Hrel|]);
          right; right; left; repeat split; try reflexivity;
          eexists; repeat split; reflexivity.
      * destruct (env_bind env) eqn:Hbind; cbn [negb] in Htry; subst r.
        -- destruct (env_doInit env) eqn:Hhook; cbn in Hinit;
             inversion Hinit; subst; try congruence;
             (split; [apply Hrel|]); (split; [intros _; apply Hrel|]);
             right; right; right; right;
             destruct errorString; repeat split; reflexivity.
        -- cbn in Hinit. inversion Hinit; subst.
           (split; [apply Hrel|]); (split; [intros _; apply Hrel|]).
           right; right; right; left. repeat split; reflexivity.
    + subst r. cbn in Hinit. inversion Hinit; subst.
      (split; [apply Hrel|]); (split; [intros _; apply Hrel|]).
      right; left. repeat split; reflexivity.
Qed.

(** ** C2: the half-age rule *)

Lemma aliveTimes_app (i : nat) (l1 l2 : list NetEvent) :
  aliveTimes i (l1 ++ l2) = (aliveTimes i l1 ++ aliveTimes i l2)%list.
Proof.
  induction l1 as [|ev rest IH]; [reflexivity|].
  destruct ev; simpl; try exact IH.
  destruct (Nat.eqb rootDevice i); simpl; congruence.
Qed.

Lemma intervalsWithin_cons (bound newer : Z) (times : list Z) :
  intervalsWithin bound times ->
  (forall older, head times = Some older -> newer - older <= bound) ->
  intervalsWithin bound (newer :: times).
Proof.
  intros Hrest Hhead. destruct times as [|older rest]; simpl; [exact I|].
  split; [apply Hhead; reflexivity | exact Hrest].
Qed.

Lemma lookup_map {A B} (f : A -> B) (l : list A) (i : nat) :
  map f l !! i = f <$> l !! i.
Proof.
  revert i. induction l as [|x rest IH]; intros [|i]; simpl; auto.
Qed.

Ltac host_simpl :=
  cbv [m_state m_initParams m_ssdp m_httpServer m_http m_activeRequestCount
       m_eventNotifier m_presenceAnnouncer m_deviceStorage m_threadPool_active
       now network setState set_initParams set_ssdp set_httpServer set_http
       set_activeRequestCount set_eventNotifier set_presenceAnnouncer
       set_deviceStorage set_threadPool_active set_now emit] in *.

(** The event loop looks at root device [k]. *)
Lemma dispatchTimer_dispatching (k : nat) (h : HDeviceHostPrivate) :
  dispatching k h ->
  dispatching (S k) (dispatchTimer k h) /\
  now (dispatchTimer k h) = now h /\
  length (m_deviceStorage (dispatchTimer k h)) = length (m_deviceStorage h).
Proof.
  destruct h as [st ip ss srv ht arc en pa ds tp t nw].
  unfold dispatching, dispatchTimer. host_simpl.
  intros [Hpa Hall].
  assert (Hother : forall i dc, i <> k -> ds !! i = Some dc ->
            scheduled (if (i <? S k)%nat then t + 1 else t) t (aliveTimes i nw) dc).
  { intros i dc Hne Hi. specialize (Hall i dc Hi).
    destruct (Nat.ltb_spec i k); destruct (Nat.ltb_spec i (S k));
      try lia; exact Hall. }
  destruct (ds !! k) as [dck|] eqn:Hk.
  - destruct (due t dck) eqn:Hdue.
    + destruct pa as [p|]; [|congruence].
      unfold timeout_, announcementTimedout, sendAnnouncements,
        createAnnouncementMessagesForRootDevice. host_simpl.
      cbn [app aliveTimes].
      split; [|split; [reflexivity | now rewrite !length_alter]].
      split; [discriminate|].
      intros i dc Hi. destruct (decide (k = i)) as [<-|Hne].
      * rewrite !list_lookup_alter_eq, Hk in Hi. cbn in Hi. inversion Hi; subst dc; clear Hi.
        rewrite Nat.eqb_refl.
        replace (k <? S k)%nat with true by (symmetry; apply Nat.ltb_lt; lia).
        destruct (Hall k dck Hk) as (HT & d & Hd & Hlo & Hhi & Hgaps & Hhead).
        replace (k <? k)%nat with false in Hlo by (symmetry; apply Nat.ltb_ge; lia).
        unfold due in Hdue. rewrite Hd in Hdue. apply Z.leb_le in Hdue.
        unfold scheduled, startStatusNotifier, stopStatusNotifier;
          cbn [m_deviceTimeoutInSecs m_statusNotifier]. split; [exact HT|].
        exists (t + m_deviceTimeoutInSecs dck). repeat split; try lia.
        -- apply intervalsWithin_cons; [exact Hgaps|].
           intros older Ho. destruct (Hhead older Ho). lia.
        -- inversion H; subst; lia.
        -- inversion H; subst; lia.
      * rewrite !list_lookup_alter_ne in Hi by exact Hne.
        replace (k =? i)%nat with false by (symmetry; apply Nat.eqb_neq; exact Hne).
        apply Hother; [congruence | exact Hi].
    + host_simpl. split; [|split; reflexivity]. split; [exact Hpa|].
      intros i dc Hi. destruct (decide (k = i)) as [<-|Hne].
      * rewrite Hk in Hi. inversion Hi; subst dc; clear Hi.
        replace (k <? S k)%nat with true by (symmetry; apply Nat.ltb_lt; lia).
        destruct (Hall k dck Hk) as (HT & d & Hd & Hlo & Hhi & Hgaps & Hhead).
        replace (k <? k)%nat with false in Hlo by (symmetry; apply Nat.ltb_ge; lia).
        unfold due in Hdue. rewrite Hd in Hdue. apply Z.leb_gt in Hdue.
        split; [exact HT|]. exists d. repeat split; try assumption; try lia;
          apply Hhead; assumption.
      * apply Hother; [congruence | exact Hi].
  - host_simpl. split; [|split; reflexivity]. split; [exact Hpa|].
    intros i dc Hi. apply Hother; [congruence | exact Hi].
Qed.

Lemma dispatchTimers_dispatching (n : nat) (h : HDeviceHostPrivate) :
  dispatching 0 h ->
  dispatching n (dispatchTimers n h) /\
  now (dispatchTimers n h) = now h /\
  length (m_deviceStorage (dispatchTimers n h)) = length (m_deviceStorage h).
Proof.
  intros H0. induction n as [|k IH]; [split; [exact H0 | split; reflexivity]|].
  destruct IH as (Hk & Hnow & Hlen). cbn [dispatchTimers].
  destruct (dispatchTimer_dispatching k _ Hk) as (HS & Hnow' & Hlen').
  split; [exact HS | split; congruence].
Qed.

(** A second of the event loop keeps every root device on schedule. *)
Lemma tick_onSchedule (h : HDeviceHostPrivate) :
  onSchedule h -> onSchedule (tick h) /\ now (tick h) = now h + 1.
Proof.
  intros [Hpa Hall]. unfold tick.
  set (h1 := set_now (now h + 1) h).
  assert (H0 : dispatching 0 h1).
  { subst h1. destruct h as [st ip ss srv ht arc en pa ds tp t nw].
    unfold dispatching in *. host_simpl. split; [exact Hpa|].
    intros i dc Hi. specialize (Hall i dc Hi).
    replace (i <? length ds)%nat with true in Hall
      by (symmetry; apply Nat.ltb_lt; eapply lookup_lt_Some; exact Hi).
    cbn [Nat.ltb Nat.leb].
    destruct Hall as (HT & d & Hd & Hlo & Hhi & Hgaps & Hhead).
    split; [exact HT|]. exists d. repeat split; try assumption; try lia;
      destruct (Hhead tl H); lia. }
  destruct (dispatchTimers_dispatching (length (m_deviceStorage h1)) h1 H0)
    as (Hn & Hnow & Hlen).
  split.
  - unfold onSchedule. rewrite Hlen. exact Hn.
  - rewrite Hnow. subst h1. destruct h; reflexivity.
Qed.

Lemma dispatchTimer_timeouts (k : nat) (h : HDeviceHostPrivate) :
  map m_deviceTimeoutInSecs (m_deviceStorage (dispatchTimer k h))
  = map m_deviceTimeoutInSecs (m_deviceStorage h).
Proof.
  destruct h as [st ip ss srv ht arc en pa ds tp t nw].
  unfold dispatchTimer. host_simpl.
  destruct (ds !! k) as [dck|] eqn:Hk; [|reflexivity].
  destruct (due t dck); [|reflexivity].
  unfold timeout_, announcementTimedout, sendAnnouncements. host_simpl.
  destruct pa; host_simpl.
  - clear Hk. revert k. induction ds as [|x rest IH]; intros [|k]; cbn; try reflexivity.
    f_equal. apply IH.
  - clear Hk. revert k. induction ds as [|x rest IH]; intros [|k]; cbn; try reflexivity.
    f_equal. apply IH.
Qed.

Lemma tick_timeouts (h : HDeviceHostPrivate) :
  map m_deviceTimeoutInSecs (m_deviceStorage (tick h))
  = map m_deviceTimeoutInSecs (m_deviceStorage h).
Proof.
  unfold tick. set (h1 := set_now (now h + 1) h).
  assert (E : m_deviceStorage h1 = m_deviceStorage h) by (destruct h; reflexivity).
  rewrite <- E. generalize (length (m_deviceStorage h1)). clear E.
  intros n. induction n as [|k IH]; [reflexivity|].
  cbn [dispatchTimers]. rewrite dispatchTimer_timeouts. exact IH.
Qed.

Lemma run_onSchedule (n : nat) (h : HDeviceHostPrivate) :
  onSchedule h ->
  onSchedule (Nat.iter n tick h) /\
  map m_deviceTimeoutInSecs (m_deviceStorage (Nat.iter n tick h))
  = map m_deviceTimeoutInSecs (m_deviceStorage h).
Proof.
  intros H. induction n as [|k [IH1 IH2]]; [split; [exact H | reflexivity]|].
  cbn [Nat.iter nat_rect]. split.
  - apply tick_onSchedule. exact IH1.
  - rewrite tick_timeouts. exact IH2.
Qed.

(** ** Initialisation puts every root device on schedule *)

Lemma snoc_app {A} (l : list A) (x : A) (k : list A) :
  ((l ++ [x]) ++ k = l ++ x :: k)%list.
Proof. induction l as [|y l IH]; cbn; congruence. Qed.

Lemma app_app_assoc {A} (l m k : list A) :
  (l ++ m ++ k = (l ++ m) ++ k)%list.
Proof. induction l as [|y l IH]; cbn; congruence. Qed.

Lemma createRootDevices_ok (env : Environment) (l : list HDeviceConfiguration) :
  forall h h',
    createRootDevices env l h = (h', Return tt) ->
    exists created,
      h' = set_deviceStorage (m_deviceStorage h ++ created) h /\
      Forall2 (fun c dc => m_deviceTimeoutInSecs dc = cacheControlMaxAge c / 2
                           /\ m_statusNotifier dc = None) l created.
Proof.
  induction l as [|c rest IH]; intros h h' Hrun.
  - inversion Hrun; subst. exists []. split; [|constructor].
    destruct h'; cbn. now rewrite app_nil_r.
  - unfold createRootDevices in *. cbn [forM_] in Hrun. unfold bind at 1 in Hrun.
    unfold createRootDevice at 1 in Hrun.
    destruct (env_createRootDevice env c) as [udn|ex]; [|discriminate].
    apply IH in Hrun. destruct Hrun as (created & Heq & Hall).
    exists ({| dc_udn := udn;
               m_deviceTimeoutInSecs := cacheControlMaxAge c / 2;
               m_statusNotifier := None |} :: created). split.
    + rewrite Heq. destruct h; host_simpl. rewrite snoc_app. reflexivity.
    + constructor; [split; reflexivity | exact Hall].
Qed.

Lemma sendAnnouncements_iter (anns : list NetEvent) (n : nat) (h : HDeviceHostPrivate) :
  exists trace,
    Nat.iter n (sendAnnouncements anns) h = emit trace h /\
    forall ev, In ev trace -> In ev anns.
Proof.
  induction n as [|k (trace & Heq & Hin)].
  - exists []. split; [destruct h; reflexivity | intros ev []].
  - exists (anns ++ trace)%list. cbn [Nat.iter nat_rect]. split.
    + change (nat_rect _ h (fun _ => sendAnnouncements anns) k)
        with (Nat.iter k (sendAnnouncements anns) h).
      rewrite Heq. unfold sendAnnouncements. destruct h; host_simpl.
      rewrite app_app_assoc. reflexivity.
    + intros ev Hev. apply in_app_or in Hev. destruct Hev; auto.
Qed.

Lemma aliveTimes_at (t0 : Z) (i : nat) (trace : list NetEvent) :
  (forall d t, In (SsdpAlive d t) trace -> t = t0) ->
  Forall (eq t0) (aliveTimes i trace).
Proof.
  induction trace as [|ev rest IH]; intros Hall; [constructor|].
  assert (Hrest : Forall (eq t0) (aliveTimes i rest))
    by (apply IH; intros d t Hin; apply (Hall d t); right; exact Hin).
  destruct ev; cbn; try exact Hrest.
  destruct (Nat.eqb rootDevice i); [|exact Hrest].
  constructor; [|exact Hrest]. symmetry. apply (Hall rootDevice). left. reflexivity.
Qed.

Lemma intervalsWithin_same (bound t0 : Z) (times : list Z) :
  0 <= bound -> Forall (eq t0) times -> intervalsWithin bound times.
Proof.
  intros Hb Hall. induction Hall as [|x rest Hx Hrest IH]; [exact I|].
  apply intervalsWithin_cons; [exact IH|].
  intros older Ho. destruct Hrest as [|y ? Hy ?]; [discriminate|].
  cbn in Ho. inversion Ho; subst. lia.
Qed.

Lemma cloneHost_Forall (P : HDeviceConfiguration -> Prop)
    (initParams : HDeviceHostConfiguration) :
  Forall P (deviceConfigurations initParams) ->
  Forall P (deviceConfigurations (cloneHost initParams)).
Proof.
  unfold deviceConfigurations, cloneHost; cbn [m_collection].
  intros Hall.
  assert (Hgen : forall l acc, Forall P l -> Forall P (m_collection acc) ->
            Forall P (m_collection (fold_left (fun acc arg => fst (add arg acc)) l acc))).
  { induction l as [|c rest IH]; intros acc Hl Hacc; [exact Hacc|].
    cbn [fold_left]. inversion Hl; subst. apply IH; [assumption|].
    unfold add. destruct (isValid c); cbn [fst m_collection]; [|exact Hacc].
    apply Forall_app. split; [exact Hacc|]. constructor; [assumption|constructor]. }
  apply Hgen; [exact Hall | constructor].
Qed.

Lemma init_success_onSchedule
    (env : Environment) (initParams : HDeviceHostConfiguration)
    (errorString errorString' : option string) (t0 : Z) (h : HDeviceHostPrivate) :
  Forall (fun c => 5 <= cacheControlMaxAge c <= 86400)
         (deviceConfigurations (cloneHost initParams)) ->
  init env initParams errorString (HDeviceHostPrivate_ctor t0)
  = (h, (Success, errorString')) ->
  onSchedule h /\
  map m_deviceTimeoutInSecs (m_deviceStorage h)
  = map (fun c => cacheControlMaxAge c / 2)
        (deviceConfigurations (cloneHost initParams)).
Proof.
  intros Hrange Hinit.
  unfold init in Hinit. cbn [HDeviceHostPrivate_ctor m_state InitState_eqb] in Hinit.
  destruct (isEmpty initParams); [discriminate|].
  unfold init_try, bind, modify, ret, throw in Hinit.
  unfold HDeviceHostPrivate_ctor in Hinit. host_simpl.
  destruct (env_listen env); cbn [negb] in Hinit; [|discriminate].
  host_simpl.
  match type of Hinit with
  | context [createRootDevices env ?l ?x] =>
      destruct (createRootDevices env l x) as [h2 [[]|ex]] eqn:Hc
  end.
  2: { destruct ex; discriminate. }
  apply createRootDevices_ok in Hc. destruct Hc as (created & -> & Hcreated).
  host_simpl. cbn [app] in Hinit.
  destruct (env_bind env); cbn [negb] in Hinit; [|discriminate].
  host_simpl.
  destruct (env_doInit env); cbn [ReturnCode_eqb negb] in Hinit; try discriminate.
  unfold announceAvailable in Hinit. host_simpl.
  match type of Hinit with
  | context [Nat.iter ?n (sendAnnouncements ?anns) ?x] =>
      destruct (sendAnnouncements_iter anns n x) as (trace & Htr & Hin);
      rewrite Htr in Hinit; clear Htr
  end.
  unfold startNotifiers in Hinit. host_simpl.
  inversion Hinit; subst h errorString'; clear Hinit.
  assert (Htimes : forall d t, In (SsdpAlive d t) (trace ++ [SsdpBind; HttpListen]) -> t = t0).
  { intros d t Hev. apply in_app_or in Hev. destruct Hev as [Hev|Hev].
    - apply Hin in Hev. apply in_flat_map in Hev. destruct Hev as (x & _ & Hx).
      cbn in Hx. destruct Hx as [Hx|[]]. now inversion Hx.
    - cbn in Hev. destruct Hev as [Hev|[Hev|[]]]; discriminate. }
  split.
  - unfold onSchedule, dispatching. host_simpl. split; [discriminate|].
    intros i dc Hi.
    replace (i <? length (map (startStatusNotifier t0) created))%nat with true
      by (symmetry; apply Nat.ltb_lt; eapply lookup_lt_Some; exact Hi).
    rewrite lookup_map in Hi.
    destruct (created !! i) as [dc0|] eqn:Hdc0; [|discriminate].
    cbn in Hi. inversion Hi; subst dc; clear Hi.
    destruct (Forall2_lookup_r _ _ _ _ _ Hcreated Hdc0) as (c & Hc & HT & Hn).
    assert (Hc5 : 5 <= cacheControlMaxAge c <= 86400).
    { rewrite Forall_forall in Hrange. apply Hrange.
      eapply list_elem_of_lookup_2. exact Hc. }
    assert (HT1 : 1 <= m_deviceTimeoutInSecs dc0).
    { rewrite HT. apply Z.div_le_lower_bound; lia. }
    unfold scheduled, startStatusNotifier; cbn [m_deviceTimeoutInSecs m_statusNotifier].
    split; [exact HT1|]. exists (t0 + m_deviceTimeoutInSecs dc0).
    pose proof (aliveTimes_at t0 i _ Htimes) as Hat.
    repeat split; try lia.
    + apply (intervalsWithin_same _ t0); [lia | exact Hat].
    + destruct Hat; [discriminate|]. cbn in H. inversion H; subst. lia.
    + destruct Hat; [discriminate|]. cbn in H. inversion H; subst. lia.
  - host_simpl. clear - Hcreated.
    induction Hcreated as [|c dc cs dcs [HT _] _ IH]; [reflexivity|].
    cbn. rewrite HT, IH. reflexivity.
Qed.

(** C2. A host that was initialised with maximum ages between 5 and 86400
    seconds re-announces each root device within half its maximum age: at
    any later second the status notifier of the device is armed with the
    timeout [cacheControlMaxAge / 2] and fires no later than that timeout
    after now and after the latest [ssdp:alive] of the device, and any two
    successive [ssdp:alive] emissions of the device are at most
    [cacheControlMaxAge / 2] seconds apart. *)
Theorem reannouncement_within_half_age
    (env : Environment) (initParams : HDeviceHostConfiguration)
    (errorString errorString' : option string) (t0 : Z)
    (h : HDeviceHostPrivate) (n i : nat) (c : HDeviceConfiguration) :
  Forall (fun c => 5 <= cacheControlMaxAge c <= 86400)
         (deviceConfigurations initParams) ->
  init env initParams errorString (HDeviceHostPrivate_ctor t0)
  = (h, (Success, errorString')) ->
  deviceConfigurations (cloneHost initParams) !! i = Some c ->
  let hn := Nat.iter n tick h in
  let times := aliveTimes i (network hn) in
  let half := cacheControlMaxAge c / 2 in
  (exists dc d,
     m_deviceStorage hn !! i = Some dc /\
     m_deviceTimeoutInSecs dc = half /\
     m_statusNotifier dc = Some d /\
     now hn < d <= now hn + half /\
     (forall tl, head times = Some tl -> d <= tl + half)) /\
  intervalsWithin half times /\
  2 * half <= cacheControlMaxAge c.
Proof.
  intros Hrange Hinit Hc hn times half.
  apply cloneHost_Forall in Hrange.
  destruct (init_success_onSchedule _ _ _ _ _ _ Hrange Hinit) as [Hsched Htimeouts].
  destruct (run_onSchedule n h Hsched) as [[Hpa Hall] Hkeep].
  fold hn in Hpa, Hall, Hkeep.
  assert (Hhalf : map m_deviceTimeoutInSecs (m_deviceStorage hn) !! i = Some half).
  { rewrite Hkeep, Htimeouts, lookup_map, Hc. reflexivity. }
  rewrite lookup_map in Hhalf.
  destruct (m_deviceStorage hn !! i) as [dc|] eqn:Hdc; [|discriminate].
  cbn in Hhalf. inversion Hhalf as [HT]; clear Hhalf.
  specialize (Hall i dc Hdc).
  replace (i <? length (m_deviceStorage hn))%nat with true in Hall
    by (symmetry; apply Nat.ltb_lt; eapply lookup_lt_Some; exact Hdc).
  destruct Hall as (H1 & d & Hd & Hlo & Hhi & Hgaps & Hhead).
  fold times in Hgaps, Hhead. rewrite HT in *.
  split; [|split].
  - exists dc, d. repeat split; try assumption; try lia.
    intros tl Htl. apply Hhead. exact Htl.
  - exact Hgaps.
  - subst half. pose proof (Z.mul_div_le (cacheControlMaxAge c) 2). lia.
Qed.

Lemma reannouncement_within_half_age_witness :
  intervalsWithin 5
    (aliveTimes 0
       (network
          (Nat.iter 12 tick
             (fst (init Samples.allWell Samples.twoDevices None
                        (HDeviceHostPrivate_ctor 0)))))).
Proof.
  apply (reannouncement_within_half_age
           Samples.allWell Samples.twoDevices None None 0
           (fst (init Samples.allWell Samples.twoDevices None
                      (HDeviceHostPrivate_ctor 0)))
           12 0
           (mkDeviceConfiguration "/a/d.xml" 10 true)).
  - vm_compute. repeat constructor; intro; discriminate.
  - vm_compute. reflexivity.
  - reflexivity.
Defined.

(** The emissions of the two sample devices over twelve seconds. *)
Example sample_alive_times :
  let h := Nat.iter 12 tick
             (fst (init Samples.allWell Samples.twoDevices None
                        (HDeviceHostPrivate_ctor 0))) in
  aliveTimes 0 (network h) = [10; 5; 0; 0] /\
  aliveTimes 1 (network h) = [12; 10; 8; 6; 4; 2; 0; 0].
Proof. vm_compute. split; reflexivity. Qed.

(** Witness of C6: a description that cannot be parsed. *)
Lemma init_failure_unwinds_witness :
  let r := init Samples.badDescription Samples.twoDevices (Some "")
                (HDeviceHostPrivate_ctor 0) in
  m_state (fst r) = Uninitialized /\ released (fst r).
Proof.
  cbv zeta.
  destruct (init_failure_unwinds
              Samples.badDescription Samples.twoDevices (Some "")
              (HDeviceHostPrivate_ctor 0)
              (fst (init Samples.badDescription Samples.twoDevices (Some "")
                         (HDeviceHostPrivate_ctor 0)))
              InvalidDeviceDescription
              (Some "Missing mandatory element: UDN"))
    as (Hstate & Hreleased & _).
  - reflexivity.
  - vm_compute. reflexivity.
  - discriminate.
  - split; [exact Hstate | apply Hreleased; reflexivity].
Defined.

(** C6 as stated fails: a failed initialisation need not leave a readable
    error string. When the [doInit] hook fails the string is empty. *)
Lemma init_failure_without_message :
  ~ (forall (env : Environment) (initParams : HDeviceHostConfiguration)
            (errorString : string) (h h' : HDeviceHostPrivate)
            (rc : ReturnCode) (errorString' : option string),
       m_state h = Uninitialized ->
       init env initParams (Some errorString) h = (h', (rc, errorString')) ->
       rc <> Success ->
       exists msg, errorString' = Some msg /\ msg <> "").
Proof.
  intros Hclaim.
  assert (E : exists h',
             init Samples.hookFails Samples.twoDevices (Some "")
                  (HDeviceHostPrivate_ctor 0)
             = (h', (UndefinedFailure, Some ""))).
  { eexists. vm_compute. reflexivity. }
  destruct E as [h' E].
  destruct (Hclaim Samples.hookFails Samples.twoDevices ""
              (HDeviceHostPrivate_ctor 0) h' UndefinedFailure (Some "")
              eq_refl E) as (msg & Hmsg & Hne);
    [discriminate|].
  inversion Hmsg; subst. apply Hne. reflexivity.
Qed.

(** The same loss on the path where a message was written first: when the
    HTTP server cannot listen, the message is overwritten by the empty
    string. *)
Example init_without_http_server :
  snd (init Samples.noHttp Samples.twoDevices (Some "")
            (HDeviceHostPrivate_ctor 0))
  = (UndefinedFailure, Some "").
Proof. vm_compute. reflexivity. Qed.

Example init_without_ssdp :
  snd (init Samples.noSsdp Samples.twoDevices (Some "")
            (HDeviceHostPrivate_ctor 0))
  = (CommunicationsError, Some "Failed to initialize SSDP.").
Proof. vm_compute. reflexivity. Qed.

End DeviceHostProperties.

(* ===================================================================== *)
(** * Properties of the client-side subscription manager                  *)
(* ===================================================================== *)

Module SubscriptionProperties.
Import SubscriptionManager.

Section Subscribe.

Variable getSuitableHttpServerRootUrl : list string -> string.
Variable HEventSubscription_subscribe : HEventSubscription -> HEventSubscription.

Let subscribe :=
  subscribe getSuitableHttpServerRootUrl HEventSubscription_subscribe.
Let createSubscription :=
  createSubscription getSuitableHttpServerRootUrl.

(** What the search loop finds is a subscription of the list that belongs
    to the service. *)
Lemma findSubscription_Some
    (objs : gmap nat HEventSubscription) (srv : HServiceProxy)
    (subs : list nat) (a : nat) (sub : HEventSubscription) :
  findSubscription objs srv subs = Some (a, sub) ->
  In a subs /\ objs !! a = Some sub /\ service sub = srv_address srv.
Proof.
  induction subs as [|b rest IH]; cbn; [discriminate|].
  destruct (objs !! b) as [sb|] eqn:Hb.
  - destruct (Nat.eqb_spec (service sb) (srv_address srv)) as [Heq|Hne].
    + intros H; inversion H; subst. auto.
    + intros H. destruct (IH H) as (? & ? & ?). auto.
  - intros H. destruct (IH H) as (? & ? & ?). auto.
Qed.

(** When it finds nothing, no subscription of the list belongs to the
    service. *)
Lemma findSubscription_None
    (objs : gmap nat HEventSubscription) (srv : HServiceProxy)
    (subs : list nat) :
  findSubscription objs srv subs = None ->
  forall a sub, In a subs -> objs !! a = Some sub ->
                service sub <> srv_address srv.
Proof.
  induction subs as [|b rest IH]; cbn; [intros _ a sub []|].
  destruct (objs !! b) as [sb|] eqn:Hb.
  - destruct (Nat.eqb_spec (service sb) (srv_address srv)) as [Heq|Hne];
      [discriminate|].
    intros H a sub [<-|Hin] Ha; [congruence | eapply IH; eauto].
  - intros H a sub [<-|Hin] Ha; [congruence | eapply IH; eauto].
Qed.

(** The address [new] hands out is not in use. *)
Lemma fresh_address_unused (objs : gmap nat HEventSubscription) :
  objs !! fresh (dom objs) = None.
Proof. apply not_elem_of_dom. apply is_fresh. Qed.

(** C5. [subscribe(service, timeout)]:
    - on a service that is not evented it returns [NotEvented] and changes
      nothing;
    - when the device's list holds a subscription of the service whose
      status is [Subscribed], it returns [AlreadySubscribed] and changes
      nothing;
    - when it holds one with another status, [subscribe()] is called on
      that object, both maps stay as they are, and [Success] is returned;
    - otherwise a new subscription object is created at an unused address,
      entered under its id in the by-id map and appended to the device's
      list in the by-UDN map, [subscribe()] is called on it, and [Success]
      is returned. *)
Theorem subscribe_cases
    (newId : string) (srv : HServiceProxy) (timeout : Z)
    (m : HEventSubscriptionManager) :
  let m' := fst (subscribe newId srv timeout m) in
  let r := snd (subscribe newId srv timeout m) in
  let subs := match m_subscriptionsByUdn m !! parentUdn srv with
              | Some l => l
              | None => []
              end in
  if negb (isEvented srv) then
    r = Sub_Failed_NotEvented /\ m' = m
  else
    match findSubscription (objects m) srv subs with
    | Some (a, sub) =>
        In a subs /\ objects m !! a = Some sub /\
        service sub = srv_address srv /\
        if isSubscribed (subscriptionStatus_ sub) then
          r = Sub_AlreadySubscribed /\ m' = m
        else
          r = Sub_Success /\
          objects m' = <[a := HEventSubscription_subscribe sub]> (objects m) /\
          m_subscribtionsByUuid m' = m_subscribtionsByUuid m /\
          m_subscriptionsByUdn m' = m_subscriptionsByUdn m /\
          issued m' = a :: issued m
    | None =>
        (forall a sub, In a subs -> objects m !! a = Some sub ->
                       service sub <> srv_address srv) /\
        r = Sub_Success /\
        exists a,
          objects m !! a = None /\
          objects m'
          = <[a := HEventSubscription_subscribe
                     (createSubscription newId srv timeout)]> (objects m) /\
          m_subscribtionsByUuid m' = <[newId := a]> (m_subscribtionsByUuid m) /\
          m_subscriptionsByUdn m'
          = <[parentUdn srv := (subs ++ [a])%list]> (m_subscriptionsByUdn m) /\
          issued m' = a :: issued m
    end.
Proof.
  cbv zeta. unfold subscribe, createSubscription, SubscriptionManager.subscribe.
  destruct (isEvented srv); cbn [negb]; [|split; reflexivity].
  assert (Hnew : forall subs,
    exists a,
      objects m !! a = None /\
      objects (subscribeNew getSuitableHttpServerRootUrl
                 HEventSubscription_subscribe newId srv timeout subs m)
      = <[a := HEventSubscription_subscribe
                 (createSubscription newId srv timeout)]> (objects m) /\
      m_subscribtionsByUuid
        (subscribeNew getSuitableHttpServerRootUrl
           HEventSubscription_subscribe newId srv timeout subs m)
      = <[newId := a]> (m_subscribtionsByUuid m) /\
      m_subscriptionsByUdn
        (subscribeNew getSuitableHttpServerRootUrl
           HEventSubscription_subscribe newId srv timeout subs m)
      = <[parentUdn srv := (subs ++ [a])%list]> (m_subscriptionsByUdn m) /\
      issued (subscribeNew getSuitableHttpServerRootUrl
                HEventSubscription_subscribe newId srv timeout subs m)
      = a :: issued m).
  { intros subs. exists (fresh (dom (objects m))).
    split; [apply fresh_address_unused|].
    unfold subscribeNew, callSubscribe; cbn.
    repeat split; try reflexivity.
    apply map_eq. intros b.
    destruct (decide (fresh (dom (objects m)) = b)) as [<-|Hne].
    - rewrite lookup_alter_eq, !lookup_insert_eq. reflexivity.
    - rewrite lookup_alter_ne, !lookup_insert_ne by exact Hne. reflexivity. }
  destruct (m_subscriptionsByUdn m !! parentUdn srv) as [subs|] eqn:Hsubs;
    cbv iota.
  - destruct (findSubscription (objects m) srv subs) as [[a sub]|] eqn:Hfind.
    + destruct (findSubscription_Some _ _ _ _ _ Hfind) as (Hin & Ha & Hsrv).
      split; [exact Hin|]. split; [exact Ha|]. split; [exact Hsrv|].
      destruct (isSubscribed (subscriptionStatus_ sub)); cbn [fst snd].
      * split; reflexivity.
      * unfold callSubscribe; cbn. repeat split; try reflexivity.
        apply map_eq. intros b.
        destruct (decide (a = b)) as [<-|Hne].
        -- rewrite lookup_alter_eq, lookup_insert_eq, Ha. reflexivity.
        -- rewrite lookup_alter_ne, lookup_insert_ne by exact Hne. reflexivity.
    + cbn [fst snd]. split; [exact (findSubscription_None _ _ _ Hfind)|].
      split; [reflexivity|]. apply Hnew.
  - cbn [findSubscription fst snd]. split; [intros a sub []|].
    split; [reflexivity|]. apply (Hnew []).
Qed.

End Subscribe.

(** A first subscription, a second call while it is pending, and a third
    call once it is subscribed. [subscribe()] is taken to move a
    subscription to [Status_Subscribing]. *)
Example subscribe_thrice :
  let url := fun _ : list string => "http://10.0.0.9:8080" in
  let subscribing := fun s : HEventSubscription =>
    mkSubscription (id s) (service s) (serverRootUrl s) (desiredTimeout s)
                   Status_Subscribing in
  let m1 := fst (subscribe url subscribing "id-1" Samples.eventedProxy 1800
                           HEventSubscriptionManager_ctor) in
  let m2 := fst (subscribe url subscribing "id-2" Samples.eventedProxy 1800 m1) in
  issued m1 = [0%nat] /\
  m_subscribtionsByUuid m1 !! "id-1" = Some 0%nat /\
  m_subscriptionsByUdn m1 !! "uuid:device-1" = Some [0%nat] /\
  issued m2 = [0%nat; 0%nat] /\
  m_subscribtionsByUuid m2 !! "id-2" = None.
Proof. vm_compute. repeat split; reflexivity. Qed.

End SubscriptionProperties.

(* ===================================================================== *)
(** * Properties of the server-side event notifier                        *)
(* ===================================================================== *)

Module NotifierProperties.
Import Notifier HostedService.

Lemma HService_eqb_evented (a b : HService) :
  HService_eqb a b = true -> isEvented a = isEvented b.
Proof.
  unfold HService_eqb. intros H.
  apply andb_prop in H. destruct H as [_ H]. apply Bool.eqb_prop. exact H.
Qed.

(** A state change is handed to subscribers of the source only. *)
Lemma notifyLoop_sent (source : HService) (msgBody : string)
    (l : list ServiceEventSubscriber) :
  forall rc body,
    In (rc, body) (snd (notifyLoop source msgBody l)) ->
    isInterested rc source = true.
Proof.
  induction l as [|x rest IH]; intros rc body; cbn; [intros []|].
  destruct (notifyLoop source msgBody rest) as [kept sent]; cbn [snd] in IH.
  destruct (isInterested x source) eqn:Hx; cbn [snd].
  - intros [Heq|Hin]; [inversion Heq; subst; exact Hx | eapply IH; exact Hin].
  - destruct (expired x); cbn [snd]; intros Hin; eapply IH; exact Hin.
Qed.

Lemma serve_notified (rq : Request) (en : EventNotifier) :
  match rq with
  | StateChanged source _ => isEvented source = true
  | _ => True
  end ->
  (forall rc body, In (rc, body) (notified en) ->
                   isEvented (service rc) = true) ->
  forall rc body, In (rc, body) (notified (serve en rq)) ->
                  isEvented (service rc) = true.
Proof.
  intros Hsource Hold rc body.
  destruct rq as [newSid srv sreq|reqSid|source msgBody]; cbn [serve].
  - unfold addSubscriber.
    destruct (m_shutdown en); [apply Hold|].
    destruct (existsb _ _); cbn; apply Hold.
  - unfold removeSubscriber.
    destruct (m_shutdown en); [apply Hold|].
    destruct (removeFirst reqSid (m_remoteClients en)); cbn; apply Hold.
  - unfold stateChanged.
    destruct (m_shutdown en); [apply Hold|].
    pose proof (notifyLoop_sent source msgBody (m_remoteClients en)) as Hsent.
    destruct (notifyLoop source msgBody (m_remoteClients en)) as [kept sent].
    cbn [snd notified] in *. intros Hin. apply in_app_or in Hin.
    destruct Hin as [Hin|Hin]; [|eapply Hold; exact Hin].
    apply in_rev in Hin. apply Hsent in Hin.
    unfold isInterested in Hin. apply andb_prop in Hin. destruct Hin as [_ Hin].
    rewrite (HService_eqb_evented _ _ Hin). exact Hsource.
Qed.

Lemma serve_all_notified (rqs : list Request) :
  forall en,
    fromEventedSources rqs ->
    (forall rc body, In (rc, body) (notified en) ->
                     isEvented (service rc) = true) ->
    forall rc body, In (rc, body) (notified (fold_left serve rqs en)) ->
                    isEvented (service rc) = true.
Proof.
  induction rqs as [|rq rest IH]; intros en Hsrc Hold; [exact Hold|].
  cbn [fold_left]. inversion Hsrc; subst.
  apply IH; [assumption|]. apply serve_notified; assumption.
Qed.

(** ** The update path of a service emits for evented services only *)

Lemma storeValue_isEvented (name value : string) (s : HServicePrivate) :
  HService_isEvented (storeValue name value s) = HService_isEvented s.
Proof.
  unfold HService_isEvented, storeValue. cbn [m_stateVariables].
  induction (m_stateVariables s) as [|v rest IH]; [reflexivity|].
  cbn [map existsb]. rewrite IH. f_equal.
  destruct (String.eqb (sv_name v) name); reflexivity.
Qed.

Lemma storeValues_isEvented (variables : list (string * string)) :
  forall s,
    HService_isEvented
      (fold_left (fun s p => storeValue (fst p) (snd p) s) variables s)
    = HService_isEvented s.
Proof.
  induction variables as [|p rest IH]; intros s; [reflexivity|].
  cbn [fold_left]. rewrite IH. apply storeValue_isEvented.
Qed.

Lemma stateVariable_In (name : string) (s : HServicePrivate)
    (v : HStateVariable) :
  stateVariable name s = Some v -> In v (m_stateVariables s).
Proof.
  unfold stateVariable. intros H. apply find_some in H. tauto.
Qed.

(** Whichever reading decides, a service that emits has an evented
    variable. *)
Lemma emits_isEvented (rule : Emission) (s : HServicePrivate)
    (updated : list HStateVariable) :
  (forall v, In v updated -> In v (m_stateVariables s)) ->
  emits rule s updated = true ->
  HService_isEvented s = true.
Proof.
  intros Hin. destruct rule; cbn [emits]; [|tauto].
  intros H. apply existsb_exists in H. destruct H as (v & Hv & Hd).
  unfold HService_isEvented. apply existsb_exists. exists v. auto.
Qed.

Lemma updateVariable_sent
    (isValidValue : HStateVariable -> string -> bool) (rule : Emission)
    (name value : string) (s s' : HServicePrivate) :
  updateVariable isValidValue rule name value s = (s', true) ->
  HService_isEvented s' = true.
Proof.
  unfold updateVariable.
  destruct (stateVariable name s) as [v|] eqn:Hv; [|discriminate].
  destruct (isValidValue v value); [|discriminate].
  intros H. injection H as Hs Hsent. subst s'. rewrite storeValue_isEvented.
  apply (emits_isEvented rule s [v]); [|exact Hsent].
  intros v0 [<-|[]]. eapply stateVariable_In. exact Hv.
Qed.

Lemma updateVariables_sent
    (isValidValue : HStateVariable -> string -> bool) (rule : Emission)
    (variables : list (string * string)) (sendEvent : bool)
    (s s' : HServicePrivate) :
  updateVariables isValidValue rule variables sendEvent s = (s', true) ->
  HService_isEvented s' = true.
Proof.
  unfold updateVariables. destruct (forallb _ _); [|discriminate].
  intros H. injection H as Hs Hsent. subst s'. rewrite storeValues_isEvented.
  apply andb_prop in Hsent. destruct Hsent as [_ Hsent].
  apply (emits_isEvented rule s _) in Hsent; [exact Hsent|].
  intros v Hin. apply list_elem_of_In, list_elem_of_omap in Hin.
  destruct Hin as ([o value] & Hin & Ho). cbn [fst] in Ho. subst o.
  apply list_elem_of_In, in_map_iff in Hin.
  destruct Hin as (p & Hp & _). inversion Hp as [[Hfound Hvalue]].
  eapply stateVariable_In. exact Hfound.
Qed.

Lemma stateChangedSignal_evented
    (toByteArray : list (string * string) -> string)
    (s : HServicePrivate) (sent : bool) :
  (sent = true -> HService_isEvented s = true) ->
  fromEventedSources (stateChangedSignal toByteArray s sent).
Proof.
  intros H. unfold stateChangedSignal, fromEventedSources.
  destruct sent; constructor; [|constructor].
  cbn [q_ptr isEvented]. now apply H.
Qed.

(** Every [stateChanged] that reaches the notifier comes from an evented
    service, whatever happens at the host. *)
Lemma respond_fromEventedSources
    (toByteArray : list (string * string) -> string)
    (isValidValue : HStateVariable -> string -> bool) (rule : Emission)
    (svcs : list HServicePrivate) (ev : HostEvent) :
  fromEventedSources (snd (respond toByteArray isValidValue rule svcs ev)).
Proof.
  destruct ev as [newSid i sreq|reqSid|i name value|i variables sendEvent];
    cbn [respond].
  - destruct (svcs !! i); cbn [snd]; repeat constructor.
  - cbn [snd]. repeat constructor.
  - destruct (svcs !! i) as [s|]; [|constructor].
    destruct (updateVariable isValidValue rule name value s) as [s' sent] eqn:E.
    cbn [snd]. apply stateChangedSignal_evented. intros ->.
    eapply updateVariable_sent. exact E.
  - destruct (svcs !! i) as [s|]; [|constructor].
    destruct (updateVariables isValidValue rule variables sendEvent s)
      as [s' sent] eqn:E.
    cbn [snd]. apply stateChangedSignal_evented. intros ->.
    eapply updateVariables_sent. exact E.
Qed.

Lemma handle_all_notified
    (toByteArray : list (string * string) -> string)
    (isValidValue : HStateVariable -> string -> bool) (rule : Emission)
    (evs : list HostEvent) :
  forall h,
    (forall rc body, In (rc, body) (notified (eventNotifier h)) ->
                     isEvented (service rc) = true) ->
    forall rc body,
      In (rc, body)
         (notified (eventNotifier
                      (fold_left (handle toByteArray isValidValue rule) evs h))) ->
      isEvented (service rc) = true.
Proof.
  induction evs as [|ev rest IH]; intros h Hold; [exact Hold|].
  cbn [fold_left]. apply IH. unfold handle.
  pose proof (respond_fromEventedSources toByteArray isValidValue rule
                                         (services h) ev) as Hsrc.
  destruct (respond toByteArray isValidValue rule (services h) ev)
    as [svcs' rqs].
  cbn [snd eventNotifier] in *. now apply serve_all_notified.
Qed.

(** C9. A subscription the notifier accepts is granted the requested
    timeout when the service is evented and 24 hours (60*60*24 seconds)
    when it is not; and whatever happens at the host before and after,
    subscriptions, cancellations and updates of the state variables of
    any service, the subscriber's own service among them, no change
    notification is ever handed to a subscriber of a service that is not
    evented. The update path of [HService] is the one modelled from the
    spec, under both readings of when it emits. *)
Theorem unevented_subscription
    (toByteArray : list (string * string) -> string)
    (isValidValue : HStateVariable -> string -> bool) (rule : Emission)
    (hosted : list HServicePrivate) (before after : list HostEvent)
    (newSid : string) (srv : HService) (sreq : SubscribeRequest)
    (en' : EventNotifier) (rc : ServiceEventSubscriber) :
  let h := fold_left (handle toByteArray isValidValue rule) before
                     (mkHostSide hosted EventNotifier_ctor) in
  addSubscriber newSid srv sreq (eventNotifier h) = (en', Some rc) ->
  service rc = srv /\
  In rc (m_remoteClients en') /\
  grantedTimeout rc = (if isEvented srv then timeout sreq else 60*60*24) /\
  (isEvented srv = false ->
   forall body,
     ~ In (rc, body)
          (notified (eventNotifier
                       (fold_left (handle toByteArray isValidValue rule) after
                                  (mkHostSide (services h) en'))))).
Proof.
  intros h Hadd.
  assert (Hold : forall rc0 body, In (rc0, body) (notified (eventNotifier h)) ->
                                  isEvented (service rc0) = true).
  { subst h. apply handle_all_notified. intros rc0 body []. }
  unfold addSubscriber in Hadd.
  destruct (m_shutdown (eventNotifier h)); [discriminate|].
  destruct (existsb _ _); [discriminate|].
  inversion Hadd; subst en' rc; clear Hadd. cbn [service grantedTimeout m_remoteClients].
  split; [reflexivity|]. split; [apply in_or_app; right; left; reflexivity|].
  split; [reflexivity|].
  intros Hplain body Hin.
  apply handle_all_notified in Hin; [|exact Hold].
  cbn [service] in Hin. congruence.
Qed.

(** The subscriber of the service without evented variables gets 24
    hours, and none of the updates that follow, those of its own service
    among them, is handed to it. *)
Lemma unevented_subscription_witness :
  let rc := mkSubscriber Samples.plainService "http://10.0.0.9/cb"
                         (60*60*24) "uuid:sid-1" false in
  grantedTimeout rc = 86400 /\
  forall body,
    ~ In (rc, body)
         (notified
            (eventNotifier
               (fold_left (handle sampleToByteArray anyValue WhenVariableEvented)
                  sampleEvents
                  (mkHostSide
                     [plainHosted; eventedHosted]
                     (fst (addSubscriber "uuid:sid-1" Samples.plainService
                             Samples.sampleRequest EventNotifier_ctor)))))).
Proof.
  cbv zeta.
  destruct (unevented_subscription
              sampleToByteArray anyValue WhenVariableEvented
              [plainHosted; eventedHosted] [] sampleEvents
              "uuid:sid-1" Samples.plainService Samples.sampleRequest
              (fst (addSubscriber "uuid:sid-1" Samples.plainService
                                  Samples.sampleRequest EventNotifier_ctor))
              (mkSubscriber Samples.plainService "http://10.0.0.9/cb"
                            (60*60*24) "uuid:sid-1" false))
    as (_ & _ & Htimeout & Hnever).
  - reflexivity.
  - split; [exact Htimeout | apply Hnever; reflexivity].
Defined.

(** The evented service's subscriber does get the notification. *)
Example evented_subscriber_notified :
  map (fun p => sid (fst p))
      (notified
         (fold_left serve
            [Subscribe "uuid:sid-2" Samples.eventedService Samples.sampleRequest;
             StateChanged Samples.eventedService "<e:propertyset/>"]
            (fst (addSubscriber "uuid:sid-1" Samples.plainService
                                Samples.sampleRequest EventNotifier_ctor))))
  = ["uuid:sid-2"].
Proof. vm_compute. reflexivity. Qed.

(** The same updates reach the subscriber of the evented service: only
    the update of its evented variable is handed out, to it alone. *)
Example hosted_updates_notified :
  map (fun p => (sid (fst p), snd p))
      (notified
         (eventNotifier
            (fold_left (handle sampleToByteArray anyValue WhenVariableEvented)
               sampleEvents
               (mkHostSide
                  [plainHosted; eventedHosted]
                  (fst (addSubscriber "uuid:sid-1" Samples.plainService
                          Samples.sampleRequest EventNotifier_ctor))))))
  = [("uuid:sid-2", "Level=5;")].
Proof. vm_compute. reflexivity. Qed.

End NotifierProperties.

(* ===================================================================== *)
(** * More on sending                                                     *)
(* ===================================================================== *)

Module SendProperties.
Import Exn Http HttpProperties.

(** ** Byte strings *)

Lemma append_cons (c : ascii) (a b : string) :
  (String c a ++ b)%string = String c (a ++ b).
Proof. reflexivity. Qed.

Lemma substring_split (s : string) : forall i n m : nat,
  (substring i n s ++ substring (i + n) m s)%string = substring i (n + m) s.
Proof.
  induction s as [|c s IH]; intros i n m.
  - destruct i, n, m; reflexivity.
  - destruct i as [|i].
    + destruct n as [|n]; cbn [Nat.add].
      * reflexivity.
      * cbn [substring]. rewrite append_cons. f_equal. apply (IH 0%nat n m).
    + cbn [substring Nat.add]. apply IH.
Qed.

Lemma substring_substring (s : string) : forall i n l : nat,
  (n <= l)%nat -> substring 0 n (substring i l s) = substring i n s.
Proof.
  induction s as [|c s IH]; intros i n l Hle.
  - destruct i, l, n; reflexivity.
  - destruct i as [|i].
    + destruct l as [|l].
      * assert (n = 0%nat) by lia. subst. reflexivity.
      * destruct n as [|n]; [reflexivity|]. cbn [substring]. f_equal.
        apply (IH 0%nat n l). lia.
    + cbn [substring]. apply IH. exact Hle.
Qed.

Lemma substring_all (s : string) : substring 0 (String.length s) s = s.
Proof. induction s as [|c s IH]; [reflexivity|]. cbn. now rewrite IH. Qed.

Lemma substring_none (s : string) (i : nat) : substring i 0 s = "".
Proof. revert i. induction s as [|c s IH]; intros [|i]; cbn; auto. Qed.

Lemma append_assoc (a b c : string) : ((a ++ b) ++ c = a ++ (b ++ c))%string.
Proof. induction a as [|x a IH]; [reflexivity|]. rewrite !append_cons. now rewrite IH. Qed.

Lemma append_nil_r (a : string) : (a ++ "")%string = a.
Proof. induction a as [|x a IH]; [reflexivity|]. rewrite append_cons. now rewrite IH. Qed.

Lemma mid_none (index : Z) (data : string) : mid index 0 data = "".
Proof. unfold mid. apply substring_none. Qed.

Lemma left_all (data : string) : left (size data) data = data.
Proof. unfold left, size. rewrite Nat2Z.id. apply substring_all. Qed.

Lemma left_mid (index len n : Z) (data : string) :
  0 <= n <= len -> left n (mid index len data) = mid index n data.
Proof.
  intros H. unfold left, mid. apply substring_substring. lia.
Qed.

Lemma mid_split (index n m : Z) (data : string) :
  0 <= index -> 0 <= n -> 0 <= m ->
  (mid index n data ++ mid (index + n) m data)%string = mid index (n + m) data.
Proof.
  intros Hi Hn Hm. unfold mid.
  rewrite !Z2Nat.inj_add by lia. apply substring_split.
Qed.

(** What a [write] that does not fail adds to the bytes written. *)
Lemma write_written (data : string) (sock sock' : QTcpSocket) (n : Z) :
  write data sock = (sock', n) -> 0 <= n ->
  n <= size data /\ written sock' = (written sock ++ left n data)%string.
Proof.
  unfold write. destruct (script sock) as [|st rest].
  - intros H _. inversion H; subst. cbn [written]. rewrite left_all.
    split; [lia|reflexivity].
  - destruct (Z.ltb_spec (accepts st) 0).
    + intros H' Hn. inversion H'; subst. lia.
    + intros H' _. inversion H'; subst. cbn [written].
      split; [lia|reflexivity].
Qed.

Lemma write_failed (data : string) (sock sock' : QTcpSocket) (n : Z) :
  write data sock = (sock', n) -> n < 0 -> written sock' = written sock.
Proof.
  unfold write. destruct (script sock) as [|st rest].
  - intros H Hn. inversion H; subst. unfold size in Hn. lia.
  - destruct (Z.ltb_spec (accepts st) 0).
    + intros H' _. inversion H'; subst. reflexivity.
    + intros H' Hn. inversion H'; subst. unfold size in *. lia.
Qed.

(** The loop of [send] writes the bytes of [data] in order, each once:
    from [index] up to the position it stops at, which is the end of [data]
    when it returns normally. *)
Lemma send_loop_written (fuel : nat) :
  forall (data : string) (index errorThreshold : Z) (sock sock' : QTcpSocket)
         (r : result HException unit),
    0 <= index <= size data ->
    send_loop fuel data index errorThreshold sock = Some (sock', r) ->
    exists sent : Z,
      index <= sent <= size data /\
      written sock' = (written sock ++ mid index (sent - index) data)%string /\
      (r = Return tt -> sent = size data).
Proof.
  assert (Hstay : forall data index sock,
            0 <= index <= size data ->
            index <= index <= size data /\
            written sock
            = (written sock ++ mid index (index - index) data)%string).
  { intros data index sock Hi. split; [lia|].
    rewrite Z.sub_diag, mid_none. now rewrite append_nil_r. }
  induction fuel as [|fuel IH]; intros data index thr sock sock' r Hi H.
  - cbn in H. destruct (index <? size data) eqn:E; [discriminate|].
    injection H as <- <-. exists index. apply Z.ltb_ge in E.
    destruct (Hstay data index sock Hi) as [H1 H2].
    split; [exact H1|]. split; [exact H2|intros _; lia].
  - rewrite send_loop_S in H.
    destruct (index <? size data) eqn:E.
    2:{ injection H as <- <-. exists index. apply Z.ltb_ge in E.
        destruct (Hstay data index sock Hi) as [H1 H2].
        split; [exact H1|]. split; [exact H2|intros _; lia]. }
    apply Z.ltb_lt in E.
    destruct (connected sock) eqn:Hc; cbn [negb] in H.
    2:{ injection H as <- <-. exists index.
        destruct (Hstay data index sock Hi) as [H1 H2].
        split; [exact H1|]. split; [exact H2|discriminate]. }
    destruct (write (mid index (size data - index) data) sock)
      as [sock1 n] eqn:W.
    pose proof (size_mid index (size data - index) data ltac:(lia)) as Hmid.
    assert (Hstep : 0 <= n ->
              forall thr',
                send_loop fuel data (index + n) thr' sock1 = Some (sock', r) ->
                exists sent : Z,
                  index <= sent <= size data /\
                  written sock'
                  = (written sock ++ mid index (sent - index) data)%string /\
                  (r = Return tt -> sent = size data)).
    { intros Hn thr' H'.
      destruct (write_written _ _ _ _ W Hn) as [Hle Hw].
      apply IH in H'; [|lia].
      destruct H' as (sent & Hs & Hwr & Hret).
      exists sent. split; [lia|]. split; [|exact Hret].
      rewrite Hwr, Hw, left_mid by lia.
      rewrite append_assoc, mid_split by lia.
      do 2 f_equal. lia. }
    destruct (Z.eqb_spec n 0) as [Hz|Hnz].
    + destruct (negb (valid sock1) || (thr >? 100)).
      * injection H as <- <-. exists index. split; [lia|].
        split; [|discriminate].
        destruct (write_written _ _ _ _ W ltac:(lia)) as [_ Hw].
        rewrite Hw, Hz, Z.sub_diag, mid_none. unfold left. cbn [Z.to_nat].
        now rewrite substring_none.
      * apply (Hstep ltac:(lia) _ H).
    + destruct (Z.ltb_spec n 0) as [Hneg|Hpos].
      * injection H as <- <-. exists index. split; [lia|].
        split; [|discriminate].
        rewrite (write_failed _ _ _ _ W Hneg), Z.sub_diag, mid_none.
        now rewrite append_nil_r.
      * apply (Hstep Hpos _ H).
Qed.

(** X1. [send] writes the bytes of the message in order and each at most
    once, however the socket splits the [write] calls: whenever it comes
    to an end, what went out is a prefix of the message, and when it
    returns normally it is the whole message. *)
Theorem send_writes_message_in_order
    (mi mi' : MessagingInfo) (data : string) (r : result HException unit) :
  send mi data = Some (mi', r) ->
  exists sent : Z,
    0 <= sent <= size data /\
    written (socket mi') = (written (socket mi) ++ left sent data)%string /\
    (r = Return tt -> written (socket mi') = (written (socket mi) ++ data)%string).
Proof.
  unfold send. intros H.
  destruct (send_loop (send_fuel data) data 0 0 (socket mi))
    as [[sock r']|] eqn:E; [|discriminate].
  injection H as <- <-.
  apply send_loop_written in E; [|unfold size; lia].
  destruct E as (sent & Hs & Hw & Hret).
  exists sent. split; [exact Hs|]. rewrite Z.sub_0_r in Hw.
  split; [exact Hw|].
  intros Hr. cbn [socket setSocket]. rewrite Hw, (Hret Hr).
  unfold mid. cbn [Z.to_nat]. unfold size. rewrite Nat2Z.id.
  now rewrite substring_all.
Qed.

(** A socket that takes two bytes, then nothing, then the rest. *)
Lemma send_writes_message_in_order_witness :
  written (socket (setSocket
                     (mkSocket true true [] "abcde" "" [])
                     (Samples.connectionWith
                        [mkWriteStep 2 true true; Samples.takesNothing])))
  = "" ++ "abcde".
Proof.
  destruct (send_writes_message_in_order
              (Samples.connectionWith
                 [mkWriteStep 2 true true; Samples.takesNothing])
              (setSocket (mkSocket true true [] "abcde" "" [])
                         (Samples.connectionWith
                            [mkWriteStep 2 true true; Samples.takesNothing]))
              "abcde" (Return tt))
    as (sent & _ & _ & Hall).
  - vm_compute. reflexivity.
  - apply Hall. reflexivity.
Defined.

End SendProperties.

(* ===================================================================== *)
(** * More on receiving                                                   *)
(* ===================================================================== *)

Module ReceiveProperties.
Import Exn Http HttpBody HttpProperties SendProperties.

Lemma scanHeader_eq (buffer : string) (linesRead : Z) (headerData : string) :
  scanHeader buffer linesRead headerData
  = if linesRead <? 2 then
      match buffer with
      | EmptyString => (buffer, linesRead, headerData)
      | String readChar rest =>
          let headerData := (headerData ++ String readChar EmptyString)%string in
          if negb (Ascii.eqb readChar CR) then
            scanHeader rest (if linesRead >? 0 then 0 else linesRead) headerData
          else
            match rest with
            | EmptyString => (rest, linesRead, headerData)
            | String readChar' rest' =>
                let headerData := (headerData ++ String readChar' EmptyString)%string in
                let linesRead :=
                  if Ascii.eqb readChar' LF then linesRead + 1
                  else if linesRead >? 0 then 0 else linesRead in
                scanHeader rest' linesRead headerData
            end
      end
    else (buffer, linesRead, headerData).
Proof. destruct buffer; reflexivity. Qed.

Lemma endsHeader_cons (c : ascii) (q : string) :
  endsHeader q -> endsHeader (String c q).
Proof. intros [p ->]. exists (String c p). reflexivity. Qed.

Lemma scanHeader_moves (n : nat) :
  forall (buffer : string) (linesRead : Z) (headerData : string)
         (buffer' : string) (linesRead' : Z) (headerData' : string),
    (String.length buffer <= n)%nat ->
    scanHeader buffer linesRead headerData = (buffer', linesRead', headerData') ->
    exists q,
      headerData' = (headerData ++ q)%string /\
      buffer = (q ++ buffer')%string /\
      (2 <= linesRead -> q = "") /\
      (linesRead' = 2 -> linesRead = 0 -> endsHeader q) /\
      (linesRead' = 2 -> linesRead = 1 -> q = crlf \/ endsHeader q).
Proof.
  induction n as [|n IH]; intros b lr hd b' lr' hd' Hlen H;
    rewrite scanHeader_eq in H.
  - destruct b; [|cbn in Hlen; lia].
    assert (H' : (b', lr', hd') = ("", lr, hd))
      by (destruct (lr <? 2); congruence).
    injection H' as -> -> ->. exists "". rewrite append_nil_r.
    split; [reflexivity|]. split; [reflexivity|]. split; [reflexivity|].
    split; intros; lia.
  - destruct (Z.ltb_spec lr 2) as [Hlr|Hlr].
    2:{ injection H as <- <- <-. exists "". rewrite append_nil_r.
        split; [reflexivity|]. split; [reflexivity|]. split; [reflexivity|].
        split; intros; lia. }
    destruct b as [|c rest].
    { injection H as <- <- <-. exists "". rewrite append_nil_r.
      split; [reflexivity|]. split; [reflexivity|]. split; [reflexivity|].
      split; intros; lia. }
    cbn [String.length] in Hlen. cbv zeta in H.
    destruct (Ascii.eqb_spec c CR) as [->|Hc]; cbn [negb] in H.
    + destruct rest as [|c2 rest'].
      { injection H as <- <- <-. exists (String CR "").
        split; [reflexivity|]. split; [reflexivity|]. split; [lia|].
        split; intros; lia. }
      cbn [String.length] in Hlen.
      apply IH in H; [|lia].
      destruct H as (q & -> & -> & Hq2 & Hq0 & Hq1).
      exists (String CR (String c2 q)).
      split; [now rewrite !append_assoc|].
      split; [reflexivity|]. split; [lia|].
      destruct (Ascii.eqb_spec c2 LF) as [->|Hc2].
      * split; intros E2 E.
        -- subst lr. destruct (Hq1 E2 eq_refl) as [->|Hq].
           ++ exists "". reflexivity.
           ++ now do 2 apply endsHeader_cons.
        -- subst lr. left. rewrite Hq2 by lia. reflexivity.
      * split; intros E2 E; subst lr; cbn in Hq0;
          [|right]; do 2 apply endsHeader_cons; now apply Hq0.
    + apply IH in H; [|lia].
      destruct H as (q & -> & -> & Hq2 & Hq0 & Hq1).
      exists (String c q).
      split; [now rewrite !append_assoc|].
      split; [reflexivity|]. split; [lia|].
      split; intros E2 E; subst lr; cbn in Hq0;
        [|right]; apply endsHeader_cons; now apply Hq0.
Qed.

(** X2. When the header loop of [receive] ends normally, the header data
    it hands to the parser ends with the empty line (CRLF CRLF), and no
    byte is lost or read ahead: the header data followed by what is left
    in the socket buffer are the bytes that were buffered followed by the
    bytes that arrived in the passes the loop used. *)
Theorem readHeaderData_takes_header
    (steps steps' : list ReadStep) (timeout : Z)
    (buffer buffer' headerData : string) :
  readHeaderData steps timeout buffer "" = Some (buffer', steps', Return headerData) ->
  exists consumed,
    steps = (consumed ++ steps')%list /\
    (headerData ++ buffer')%string = (buffer ++ arrivedIn consumed)%string /\
    endsHeader headerData.
Proof.
  enough (G : forall steps buffer hd0,
             readHeaderData steps timeout buffer hd0
             = Some (buffer', steps', Return headerData) ->
             exists consumed q,
               steps = (consumed ++ steps')%list /\
               headerData = (hd0 ++ q)%string /\
               (q ++ buffer')%string = (buffer ++ arrivedIn consumed)%string /\
               endsHeader q).
  { intros H. destruct (G _ _ _ H) as (consumed & q & Hs & Hh & Hb & He).
    exists consumed. change ("" ++ q)%string with q in Hh. subst headerData.
    auto. }
  clear steps buffer. intros steps.
  induction steps as [|st steps IH]; intros buffer hd0 H; [discriminate|].
  cbn [readHeaderData] in H. cbv zeta in H.
  destruct (shuttingDown st && _); [discriminate|].
  destruct (negb (negb ((buffer ++ arrived st) =? "")%string) && _);
    [discriminate|].
  destruct ((elapsed st >=? timeout) && _); [discriminate|].
  destruct (String.eqb_spec (buffer ++ arrived st) "") as [Hempty|Hdata];
    cbn [negb] in H.
  - apply IH in H. destruct H as (consumed & q & -> & -> & Hb & He).
    exists (st :: consumed), q. split; [reflexivity|]. split; [reflexivity|].
    split; [|exact He].
    cbn [arrivedIn fold_right]. fold (arrivedIn consumed).
    rewrite Hb, Hempty, <- append_assoc, Hempty. reflexivity.
  - destruct (scanHeader (buffer ++ arrived st) 0 hd0)
      as [[b1 lr] hd1] eqn:Hscan.
    apply (scanHeader_moves _ _ _ _ _ _ _ (Nat.le_refl _)) in Hscan.
    destruct Hscan as (q1 & -> & Hb1 & _ & Hq0 & _).
    destruct (Z.eqb_spec lr 2) as [->|Hlr].
    + injection H as <- <- <-.
      exists [st], q1. split; [reflexivity|]. split; [reflexivity|].
      split; [|now apply Hq0].
      cbn [arrivedIn fold_right]. rewrite append_nil_r. now symmetry.
    + apply IH in H. destruct H as (consumed & q & -> & -> & Hb & He).
      exists (st :: consumed), (q1 ++ q)%string.
      split; [reflexivity|]. split; [now rewrite append_assoc|].
      split.
      * cbn [arrivedIn fold_right]. fold (arrivedIn consumed).
        rewrite append_assoc, Hb, <- !append_assoc, <- Hb1. reflexivity.
      * destruct He as [p ->]. exists (q1 ++ p)%string.
        now rewrite !append_assoc.
Qed.


Lemma hasKey_setValue (key' key v : string) (h : QHttpHeader) :
  hasKey key (setValue key' v h) = sameKey key' key || hasKey key h.
Proof.
  unfold hasKey, setValue; cbn [values]. rewrite lookupValue_replaceValue.
  destruct (sameKey key' key); reflexivity.
Qed.

Ltac header_keys :=
  repeat (first [rewrite value_setValue | rewrite hasKey_setValue];
          match goal with
          | |- context [sameKey ?a ?b] =>
              let r := eval vm_compute in (sameKey a b) in
              change (sameKey a b) with r
          end; cbv iota; cbn [orb]).

(** X3. A header that carries neither a Content-Length entry nor
    [Transfer-Encoding: chunked] when it is handed to [send] goes out with
    exactly one of the two framings: it is chunked exactly when it has no
    Content-Length. *)
Theorem sendMessage_single_framing
    (currentDate : string) (mi : MessagingInfo) (reqHdr : QHttpHeader)
    (data : string) :
  hasContentLength reqHdr = false ->
  value "TRANSFER-ENCODING" reqHdr <> "chunked" ->
  let hdr := fst (sendMessage currentDate mi reqHdr data) in
  String.eqb (value "TRANSFER-ENCODING" hdr) "chunked"
  = negb (hasContentLength hdr).
Proof.
  intros Hcl Hte. unfold sendMessage, prepareHeader, setContentLength,
    hasContentLength in *.
  apply String.eqb_neq in Hte.
  destruct (negb (keepAlive mi) && _);
    destruct ((m_maxChunkSize mi >? 0) && _); cbn [fst];
    header_keys; rewrite ?Hcl, ?Hte; reflexivity.
Qed.

(** ** Reading a body of a known length *)

Lemma substring_length (s : string) : forall i n : nat,
  String.length (substring i n s) = Nat.min n (String.length s - i).
Proof.
  induction s as [|c s IH]; intros [|i] [|n]; cbn [substring String.length];
    try reflexivity.
  - rewrite (IH 0%nat n). rewrite Nat.sub_0_r. cbn. reflexivity.
  - apply IH.
  - rewrite IH. reflexivity.
Qed.

Lemma size_left (n : Z) (s : string) : 0 <= n <= size s -> size (left n s) = n.
Proof.
  unfold size, left. intros H. rewrite substring_length. lia.
Qed.

Lemma left_mid_rest (n : Z) (s : string) :
  0 <= n <= size s -> (left n s ++ mid n (size s - n) s)%string = s.
Proof.
  intros H. change (left n s) with (mid 0 n s).
  rewrite <- (Z.add_0_l n) at 2. rewrite mid_split by lia.
  replace (n + (size s - n)) with (size s) by lia. apply left_all.
Qed.

Lemma size_nonempty (s : string) : s <> "" -> 0 < size s.
Proof. destruct s; [congruence|]. unfold size. cbn. lia. Qed.

Lemma readSome_S (fuel : nat) (st : BodyStep) (contentLength : Z)
    (buffer : string) (bytesRead : Z) (requestData : string) :
  readSome (S fuel) st contentLength buffer bytesRead requestData
  = let maxSize := Z.min 4096 (contentLength - bytesRead) in
    let retVal :=
      if String.eqb buffer "" then (if readFails st then -1 else 0)
      else Z.min maxSize (size buffer) in
    if retVal <? 0 then
      Some (buffer, Throw (HSocketException "Could not read HTTP message body: ."))
    else if retVal >? 0 then
      let bytesRead := bytesRead + retVal in
      let requestData := (requestData ++ left retVal buffer)%string in
      let buffer := mid retVal (size buffer - retVal) buffer in
      if (bytesRead <? contentLength) && negb (shuttingDown (pass st))
      then readSome fuel st contentLength buffer bytesRead requestData
      else Some (buffer, Return (bytesRead, requestData))
    else Some (buffer, Return (bytesRead, requestData)).
Proof. reflexivity. Qed.

(** The [do ... while] loop of [readRequestData] ends: every round but
    the last takes at least one byte from the buffer. *)
Lemma readSome_total (fuel : nat) :
  forall st contentLength buffer bytesRead requestData,
    bytesRead < contentLength ->
    (String.length buffer < fuel)%nat ->
    exists r, readSome fuel st contentLength buffer bytesRead requestData = Some r.
Proof.
  induction fuel as [|fuel IH]; intros st cl b br rd Hbr Hf; [lia|].
  rewrite readSome_S. cbv zeta.
  destruct (String.eqb_spec b "") as [->|Hb].
  - destruct (readFails st); cbn; eexists; reflexivity.
  - pose proof (size_nonempty _ Hb) as Hpos.
    set (n := Z.min (Z.min 4096 (cl - br)) (size b)).
    assert (Hn : 0 < n <= size b) by (unfold n; lia).
    destruct (Z.ltb_spec n 0); [lia|].
    destruct (Z.gtb_spec n 0); [|lia].
    destruct ((br + n <? cl) && _) eqn:E; [|eexists; reflexivity].
    apply andb_true_iff in E. destruct E as [E _]. apply Z.ltb_lt in E.
    apply IH; [exact E|].
    unfold mid, size in *. rewrite substring_length. lia.
Qed.

Lemma readSome_reads (fuel : nat) :
  forall st contentLength buffer bytesRead requestData buffer' bytesRead'
         requestData',
    bytesRead < contentLength ->
    readSome fuel st contentLength buffer bytesRead requestData
    = Some (buffer', Return (bytesRead', requestData')) ->
    exists q,
      requestData' = (requestData ++ q)%string /\
      buffer = (q ++ buffer')%string /\
      bytesRead' = bytesRead + size q /\
      bytesRead' <= contentLength.
Proof.
  induction fuel as [|fuel IH]; intros st cl b br rd b' br' rd' Hbr H;
    [discriminate|].
  rewrite readSome_S in H. cbv zeta in H.
  assert (Hnone : exists q, rd = (rd ++ q)%string /\ b = (q ++ b)%string /\
                            br = br + size q /\ br <= cl).
  { exists "". rewrite append_nil_r. change (size "") with 0.
    split; [reflexivity|]. split; [reflexivity|]. lia. }
  destruct (String.eqb_spec b "") as [->|Hb].
  - destruct (readFails st); cbn in H; [discriminate|].
    injection H as <- <- <-. exact Hnone.
  - pose proof (size_nonempty _ Hb) as Hpos.
    set (n := Z.min (Z.min 4096 (cl - br)) (size b)) in *.
    assert (Hn : 0 < n <= size b) by (unfold n; lia).
    assert (Hcl : br + n <= cl) by (unfold n; lia).
    destruct (Z.ltb_spec n 0); [lia|].
    destruct (Z.gtb_spec n 0); [|lia].
    destruct ((br + n <? cl) && _) eqn:E.
    + apply andb_true_iff in E. destruct E as [E _]. apply Z.ltb_lt in E.
      apply IH in H; [|exact E].
      destruct H as (q & -> & Hb' & -> & Hle).
      exists (left n b ++ q)%string.
      split; [now rewrite append_assoc|].
      split; [rewrite append_assoc, <- Hb'; symmetry; apply left_mid_rest; lia|].
      split; [rewrite size_append, size_left by lia; lia|exact Hle].
    + injection H as <- <- <-. exists (left n b).
      split; [reflexivity|].
      split; [symmetry; apply left_mid_rest; lia|].
      split; [rewrite size_left by lia; lia|lia].
Qed.

(** X4. When [readRequestData] returns normally, the body has exactly
    [contentLength] bytes, and no byte is lost or read ahead: the body
    followed by what is left in the socket buffer are the bytes that were
    buffered followed by the bytes that arrived in the passes the loop
    used. *)
Theorem readRequestData_exact
    (steps steps' : list BodyStep) (timeout contentLength : Z)
    (buffer buffer' body : string) :
  0 <= contentLength ->
  readRequestData steps timeout buffer contentLength
  = Some (buffer', steps', Return body) ->
  size body = contentLength /\
  exists consumed,
    steps = (consumed ++ steps')%list /\
    (body ++ buffer')%string
    = (buffer ++ arrivedIn (map pass consumed))%string.
Proof.
  intros Hcl. unfold readRequestData.
  enough (G : forall steps buffer bytesRead requestData,
             bytesRead <= contentLength ->
             readRequestData_loop steps timeout contentLength buffer bytesRead
                                  requestData
             = Some (buffer', steps', Return body) ->
             exists consumed q,
               steps = (consumed ++ steps')%list /\
               body = (requestData ++ q)%string /\
               bytesRead + size q = contentLength /\
               (q ++ buffer')%string
               = (buffer ++ arrivedIn (map pass consumed))%string).
  { intros H. destruct (G _ _ _ _ Hcl H) as (consumed & q & Hs & Hb & Hn & Hq).
    change ("" ++ q)%string with q in Hb. subst body. split; [lia|].
    exists consumed. auto. }
  clear steps buffer. intros steps.
  assert (Hdone : forall steps buffer bytesRead requestData,
            bytesRead <= contentLength ->
            (bytesRead <? contentLength) = false ->
            Some (buffer, steps, Return requestData)
            = Some (buffer', steps', @Return HException _ body) ->
            exists consumed q,
              steps = (consumed ++ steps')%list /\
              body = (requestData ++ q)%string /\
              bytesRead + size q = contentLength /\
              (q ++ buffer')%string
              = (buffer ++ arrivedIn (map pass consumed))%string).
  { intros steps0 b br rd Hle E H. injection H as <- <- <-.
    apply Z.ltb_ge in E. exists [], "". rewrite !append_nil_r.
    change (size "") with 0.
    split; [reflexivity|]. split; [reflexivity|]. split; [lia|reflexivity]. }
  induction steps as [|st steps IH]; intros buffer br rd Hle H.
  - cbn [readRequestData_loop] in H.
    destruct (br <? contentLength) eqn:E; [discriminate|].
    now apply (Hdone [] buffer br rd).
  - cbn [readRequestData_loop] in H.
    destruct (br <? contentLength) eqn:E;
      [|now apply (Hdone (st :: steps) buffer br rd)].
    apply Z.ltb_lt in E. cbv zeta in H.
    destruct (shuttingDown (pass st) && _); [discriminate|].
    destruct (negb (negb ((buffer ++ arrived (pass st)) =? "")%string) && _);
      [discriminate|].
    destruct ((elapsed (pass st) >=? timeout) && _); [discriminate|].
    destruct (String.eqb_spec (buffer ++ arrived (pass st)) "")
      as [Hempty|Hdata]; cbn [negb] in H.
    + apply IH in H; [|exact Hle].
      destruct H as (consumed & q & -> & -> & Hn & Hq).
      exists (st :: consumed), q. split; [reflexivity|]. split; [reflexivity|].
      split; [exact Hn|].
      cbn [map arrivedIn fold_right]. fold (arrivedIn (map pass consumed)).
      rewrite Hq, Hempty, <- append_assoc, Hempty. reflexivity.
    + destruct (readSome _ st contentLength (buffer ++ arrived (pass st)) br rd)
        as [[b1 [[br1 rd1]|ex]]|] eqn:Hread; [|discriminate|discriminate].
      apply readSome_reads in Hread; [|exact E].
      destruct Hread as (q1 & -> & Hb1 & -> & Hle1).
      apply IH in H; [|exact Hle1].
      destruct H as (consumed & q & -> & -> & Hn & Hq).
      exists (st :: consumed), (q1 ++ q)%string.
      split; [reflexivity|]. split; [now rewrite append_assoc|].
      split; [rewrite size_append; lia|].
      cbn [map arrivedIn fold_right]. fold (arrivedIn (map pass consumed)).
      rewrite append_assoc, Hq, <- !append_assoc, <- Hb1. reflexivity.
Qed.

Lemma readHeaderData_takes_header_witness :
  endsHeader ("GET / HTTP/1.1" ++ crlf ++ crlf).
Proof.
  destruct (readHeaderData_takes_header
              [mkReadStep "GET / HT" 10 false true;
               mkReadStep ("TP/1.1" ++ crlf ++ crlf ++ "body") 20 false true]
              [] 5000 "" "body" ("GET / HTTP/1.1" ++ crlf ++ crlf))
    as (consumed & _ & _ & Hends).
  - vm_compute. reflexivity.
  - exact Hends.
Defined.

Lemma sendMessage_single_framing_witness :
  String.eqb
    (value "TRANSFER-ENCODING"
       (fst (sendMessage "Mon, 02 Nov 2026 10:00:00 GMT"
               (Samples.connectionWith [])
               (QHttpResponseHeader 200 "OK") "ABCDEFGHIJ")))
    "chunked"
  = negb (hasContentLength
            (fst (sendMessage "Mon, 02 Nov 2026 10:00:00 GMT"
                    (Samples.connectionWith [])
                    (QHttpResponseHeader 200 "OK") "ABCDEFGHIJ"))).
Proof.
  apply (sendMessage_single_framing
           "Mon, 02 Nov 2026 10:00:00 GMT" (Samples.connectionWith [])
           (QHttpResponseHeader 200 "OK") "ABCDEFGHIJ").
  - reflexivity.
  - vm_compute. discriminate.
Defined.

(** Ten bytes asked for; seven arrive first, then six. *)
Lemma readRequestData_exact_witness :
  size "0123456789" = 10.
Proof.
  apply (readRequestData_exact
           [mkBodyStep (mkReadStep "0123456" 10 false true) false;
            mkBodyStep (mkReadStep "789abc" 10 false true) false]
           [] 5000 10 "" "abc" "0123456789").
  - lia.
  - vm_compute. reflexivity.
Defined.

End ReceiveProperties.

(* ===================================================================== *)
(** * Cloning a host configuration                                        *)
(* ===================================================================== *)

Module ConfigurationCloneProperties.
Import DeviceConfiguration.

Lemma add_collection (arg : HDeviceConfiguration) (hc : HDeviceHostConfiguration) :
  m_collection (fst (add arg hc))
  = (m_collection hc ++ List.filter isValid [arg])%list /\
  m_individualAdvertisementCount (fst (add arg hc))
  = m_individualAdvertisementCount hc /\
  snd (add arg hc) = isValid arg.
Proof.
  unfold add, clone. cbn [List.filter].
  destruct (isValid arg); cbn [fst snd m_collection m_individualAdvertisementCount].
  - repeat split; reflexivity.
  - rewrite app_nil_r. repeat split; reflexivity.
Qed.

Lemma fold_add_collection (l : list HDeviceConfiguration) :
  forall acc,
    m_collection (fold_left (fun acc arg => fst (add arg acc)) l acc)
    = (m_collection acc ++ List.filter isValid l)%list.
Proof.
  induction l as [|c rest IH]; intros acc.
  - cbn. now rewrite app_nil_r.
  - cbn [fold_left]. rewrite IH.
    destruct (add_collection c acc) as [-> _].
    cbn [List.filter]. destruct (isValid c); cbn [app].
    + now rewrite <- List.app_assoc.
    + now rewrite app_nil_r.
Qed.

(** X5. [HDeviceHostConfiguration::clone] keeps the valid device
    configurations, in their order, and the advertisement count, and
    drops the invalid ones, because it re-adds every element through
    [add]; cloning commutes with [add]; and a configuration that holds
    only valid device configurations is equal to its clone. *)
Theorem cloneHost_keeps_valid (hc : HDeviceHostConfiguration) :
  deviceConfigurations (cloneHost hc)
  = List.filter isValid (deviceConfigurations hc) /\
  individualAdvertisementCount (cloneHost hc) = individualAdvertisementCount hc /\
  (forall arg,
     deviceConfigurations (cloneHost (fst (add arg hc)))
     = (deviceConfigurations (cloneHost hc) ++ List.filter isValid [arg])%list) /\
  (forallb isValid (deviceConfigurations hc) = true -> cloneHost hc = hc).
Proof.
  assert (Hclone : forall x, deviceConfigurations (cloneHost x)
                             = List.filter isValid (deviceConfigurations x)).
  { intros x. unfold deviceConfigurations, cloneHost. cbn [m_collection].
    now rewrite fold_add_collection. }
  split; [apply Hclone|]. split; [reflexivity|]. split.
  - intros arg. rewrite !Hclone. unfold deviceConfigurations.
    destruct (add_collection arg hc) as [-> _].
    rewrite List.filter_app. f_equal. cbn [List.filter].
    destruct (isValid arg) eqn:E; cbn [List.filter]; now rewrite ?E.
  - intros Hall. specialize (Hclone hc). unfold deviceConfigurations in *.
    destruct hc as [coll count]. unfold cloneHost in *. cbn [m_collection
      m_individualAdvertisementCount] in *. f_equal. rewrite Hclone.
    clear Hclone. induction coll as [|c rest IH]; [reflexivity|].
    cbn [forallb List.filter] in *. apply andb_true_iff in Hall.
    destruct Hall as [-> Hrest]. now rewrite IH.
Qed.

Lemma cloneHost_keeps_valid_witness :
  cloneHost Samples.twoDevices = Samples.twoDevices.
Proof.
  apply (proj2 (proj2 (proj2 (cloneHost_keeps_valid Samples.twoDevices)))).
  vm_compute. reflexivity.
Defined.

End ConfigurationCloneProperties.

(* ===================================================================== *)
(** * The life cycle of the device host                                   *)
(* ===================================================================== *)

Module HostLifecycleProperties.
Import Exn DeviceConfiguration DeviceHost HostQueries DeviceHostProperties.

(** ** Initialisation *)

Lemma emit_nil (h : HDeviceHostPrivate) : emit [] h = h.
Proof. destruct h; reflexivity. Qed.

Lemma emit_emit (a b : list NetEvent) (h : HDeviceHostPrivate) :
  emit a (emit b h) = emit (a ++ b) h.
Proof. destruct h; host_simpl. now rewrite app_app_assoc. Qed.

Lemma sendAnnouncements_repeat (anns : list NetEvent) (n : nat) (h : HDeviceHostPrivate) :
  Nat.iter n (sendAnnouncements anns) h = emit (concat (repeat anns n)) h.
Proof.
  induction n as [|k IH]; [symmetry; apply emit_nil|].
  cbn [Nat.iter nat_rect repeat concat].
  change (nat_rect _ h (fun _ => sendAnnouncements anns) k)
    with (Nat.iter k (sendAnnouncements anns) h).
  rewrite IH. unfold sendAnnouncements. apply emit_emit.
Qed.

(** Whatever [createRootDevices] ends with, it only adds root devices to
    the device storage. *)
Lemma createRootDevices_frame (env : Environment) (l : list HDeviceConfiguration) :
  forall h, exists created,
    fst (createRootDevices env l h)
    = set_deviceStorage (m_deviceStorage h ++ created) h.
Proof.
  induction l as [|c rest IH]; intros h.
  - exists []. destruct h; host_simpl. cbn. now rewrite app_nil_r.
  - unfold createRootDevices in *. cbn [forM_]. unfold bind at 1.
    unfold createRootDevice at 1.
    destruct (env_createRootDevice env c) as [udn|ex].
    + match goal with
      | |- context [forM_ _ rest ?x] => destruct (IH x) as [created Hc]
      end.
      eexists (_ :: created). rewrite Hc. destruct h; host_simpl.
      rewrite snoc_app. reflexivity.
    + exists []. destruct h; host_simpl. cbn. now rewrite app_nil_r.
Qed.

Lemma createRootDevices_udns (env : Environment) (l : list HDeviceConfiguration) :
  forall h h',
    createRootDevices env l h = (h', Return tt) ->
    exists created,
      h' = set_deviceStorage (m_deviceStorage h ++ created) h /\
      Forall2 (fun c dc => env_createRootDevice env c = Return (dc_udn dc) /\
                           m_deviceTimeoutInSecs dc = cacheControlMaxAge c / 2 /\
                           m_statusNotifier dc = None) l created.
Proof.
  induction l as [|c rest IH]; intros h h' Hrun.
  - inversion Hrun; subst. exists []. split; [|constructor].
    destruct h'; cbn. now rewrite app_nil_r.
  - unfold createRootDevices in *. cbn [forM_] in Hrun. unfold bind at 1 in Hrun.
    unfold createRootDevice at 1 in Hrun.
    destruct (env_createRootDevice env c) as [udn|ex] eqn:Hc; [|discriminate].
    apply IH in Hrun. destruct Hrun as (created & Heq & Hall).
    exists ({| dc_udn := udn;
               m_deviceTimeoutInSecs := cacheControlMaxAge c / 2;
               m_statusNotifier := None |} :: created). split.
    + rewrite Heq. destruct h; host_simpl. rewrite snoc_app. reflexivity.
    + constructor; [split; [exact Hc | split; reflexivity] | exact Hall].
Qed.

Lemma InitState_eqb_eq (a b : InitState) : InitState_eqb a b = true <-> a = b.
Proof. destruct a, b; cbn; split; congruence. Qed.

(** The host a successful [init] leaves. *)
Lemma init_success_state
    (env : Environment) (initParams : HDeviceHostConfiguration)
    (errorString errorString' : option string) (h h' : HDeviceHostPrivate) :
  m_state h <> Initialized ->
  init env initParams errorString h = (h', (Success, errorString')) ->
  exists created,
    Forall2 (fun c dc => env_createRootDevice env c = Return (dc_udn dc) /\
                         m_deviceTimeoutInSecs dc = cacheControlMaxAge c / 2 /\
                         m_statusNotifier dc = None)
            (deviceConfigurations (cloneHost initParams)) created /\
    h' = {| m_state := Initialized;
            m_initParams := Some (cloneHost initParams);
            m_ssdp := Some {| ssdp_bound := true |};
            m_httpServer := Some {| srv_listening := true; activeClientCount := O |};
            m_http := Some {| m_shuttingDown := false |};
            m_activeRequestCount := m_activeRequestCount h;
            m_eventNotifier := Some {| en_shutdown := false |};
            m_presenceAnnouncer :=
              Some {| m_advertisementCount :=
                        individualAdvertisementCount (cloneHost initParams) |};
            m_deviceStorage :=
              map (startStatusNotifier (now h)) (m_deviceStorage h ++ created);
            m_threadPool_active := m_threadPool_active h;
            now := now h;
            network :=
              startupAnnouncements (now h)
                (length (m_deviceStorage h ++ created))
                (individualAdvertisementCount (cloneHost initParams))
              ++ [SsdpBind; HttpListen] ++ network h |}.
Proof.
  intros Hstate Hinit. unfold init in Hinit.
  destruct (InitState_eqb (m_state h) Initialized) eqn:E;
    [apply InitState_eqb_eq in E; congruence|].
  destruct (isEmpty initParams); [discriminate|].
  unfold init_try, bind, modify, ret, throw in Hinit.
  destruct h as [st ip ss srv ht arc en pa ds tp t nw]. host_simpl.
  destruct (env_listen env); cbn [negb] in Hinit; [|discriminate].
  host_simpl.
  match type of Hinit with
  | context [createRootDevices env ?l ?x] =>
      destruct (createRootDevices env l x) as [h2 [[]|ex]] eqn:Hc
  end.
  2: { destruct ex; discriminate. }
  apply createRootDevices_udns in Hc. destruct Hc as (created & -> & Hcreated).
  host_simpl. cbn [app] in Hinit.
  destruct (env_bind env); cbn [negb] in Hinit; [|discriminate].
  host_simpl.
  destruct (env_doInit env); cbn [ReturnCode_eqb negb] in Hinit; try discriminate.
  unfold announceAvailable in Hinit. host_simpl.
  rewrite sendAnnouncements_repeat in Hinit.
  unfold startNotifiers in Hinit. host_simpl.
  inversion Hinit; subst h' errorString'; clear Hinit.
  exists created. split; [exact Hcreated|].
  reflexivity.
Qed.


(** X6. [init] on a host that is not yet initialised returns [Success]
    exactly when the configuration is not empty, the HTTP server can
    listen, every configured root device can be built, SSDP can bind and
    the [doInit] hook returns [Success]. *)
Theorem init_succeeds_exactly
    (env : Environment) (initParams : HDeviceHostConfiguration)
    (errorString : option string) (h : HDeviceHostPrivate) :
  m_state h <> Initialized ->
  fst (snd (init env initParams errorString h)) = Success
  <-> isEmpty initParams = false /\
      env_listen env = true /\
      firstThrow env (deviceConfigurations (cloneHost initParams)) = None /\
      env_bind env = true /\
      env_doInit env = Success.
Proof.
  intros Hstate. unfold init.
  destruct (InitState_eqb (m_state h) Initialized) eqn:E;
    [apply InitState_eqb_eq in E; congruence|].
  destruct (isEmpty initParams).
  { cbn. split; [discriminate|]. intros [H _]. discriminate. }
  pose proof (init_try_result env initParams errorString h) as Htry.
  destruct (init_try env initParams errorString h) as [h1 r].
  cbn [snd] in Htry. subst r.
  destruct (env_listen env); cbn [negb].
  2:{ cbn. split; [discriminate|]. intros (_ & H & _). discriminate. }
  destruct (firstThrow env (deviceConfigurations (cloneHost initParams)))
    as [ex|].
  { destruct ex; cbn; (split; [discriminate|]);
      intros (_ & _ & H & _); discriminate. }
  destruct (env_bind env); cbn [negb].
  2:{ cbn. split; [discriminate|]. intros (_ & _ & _ & H & _). discriminate. }
  destruct (env_doInit env); cbn; split; try discriminate; try tauto;
    intros (_ & _ & _ & _ & H); discriminate.
Qed.

Lemma init_succeeds_exactly_witness :
  fst (snd (init Samples.allWell Samples.twoDevices None
                 (HDeviceHostPrivate_ctor 0))) = Success.
Proof.
  apply (proj2 (init_succeeds_exactly Samples.allWell Samples.twoDevices None
                  (HDeviceHostPrivate_ctor 0) ltac:(discriminate))).
  vm_compute. repeat split; reflexivity.
Defined.

Lemma Forall2_map_r {A B C} (P : A -> C -> Prop) (f : B -> C)
    (l : list A) (k : list B) :
  Forall2 (fun a b => P a (f b)) l k -> Forall2 P l (map f k).
Proof. induction 1; cbn; constructor; auto. Qed.

Lemma init_success_basics
    (env : Environment) (initParams : HDeviceHostConfiguration)
    (errorString errorString' : option string) (h h' : HDeviceHostPrivate) :
  released h ->
  init env initParams errorString h = (h', (Success, errorString')) ->
  m_state h' = Initialized /\
  length (m_deviceStorage h')
  = length (deviceConfigurations (cloneHost initParams)) /\
  now h' = now h.
Proof.
  intros Hrel Hinit.
  destruct Hrel as (Hst & _ & _ & _ & _ & _ & _ & _ & Hds & _).
  apply init_success_state in Hinit; [|congruence].
  destruct Hinit as (created & Hcreated & ->). rewrite Hds. cbn [app].
  split; [reflexivity|]. split; [|reflexivity].
  cbn [m_deviceStorage]. rewrite length_map. symmetry.
  eapply Forall2_length. exact Hcreated.
Qed.

(** X7. After a successful [init] of a released host, the host is started,
    [configuration()] is the clone of the configuration passed in,
    [rootDevices()] holds one root device per configuration of the clone,
    in their order and with the UDNs the descriptions gave, the network
    has seen the HTTP server listen, SSDP bind and then the start-up
    [ssdp:alive] messages of every root device, as many times as the
    advertisement count says, the caller's error string is untouched, and
    a further [init] returns [AlreadyInitialized] and changes nothing. *)
Theorem init_success_started
    (env : Environment) (initParams : HDeviceHostConfiguration)
    (errorString errorString' : option string) (h h' : HDeviceHostPrivate) :
  released h ->
  init env initParams errorString h = (h', (Success, errorString')) ->
  isStarted h' = true /\
  configuration h' = Some (cloneHost initParams) /\
  Forall2 (fun c udn => env_createRootDevice env c = Return udn)
          (deviceConfigurations (cloneHost initParams)) (rootDevices h') /\
  now h' = now h /\
  network h'
  = (startupAnnouncements (now h)
       (length (deviceConfigurations (cloneHost initParams)))
       (individualAdvertisementCount (cloneHost initParams))
     ++ [SsdpBind; HttpListen] ++ network h)%list /\
  errorString' = errorString /\
  forall env2 initParams2 errorString2,
    init env2 initParams2 errorString2 h'
    = (h', (AlreadyInitialized, errorString2)).
Proof.
  intros Hrel Hinit.
  assert (Hes : errorString' = errorString).
  { unfold init in Hinit.
    destruct (InitState_eqb (m_state h) Initialized); [discriminate|].
    destruct (isEmpty initParams); [discriminate|].
    pose proof (init_try_result env initParams errorString h) as Htry.
    destruct (init_try env initParams errorString h) as [h1 r].
    cbn [snd] in Htry. subst r.
    destruct (env_listen env); cbn [negb] in Hinit; [|discriminate].
    destruct (firstThrow env _) as [[]|]; try discriminate.
    destruct (env_bind env); cbn [negb] in Hinit; [|discriminate].
    destruct (env_doInit env); cbn in Hinit; try discriminate. congruence. }
  destruct Hrel as (Hst & _ & _ & _ & _ & _ & _ & _ & Hds & _).
  apply init_success_state in Hinit; [|congruence].
  destruct Hinit as (created & Hcreated & ->). rewrite Hds in *.
  cbn [app] in *.
  assert (Hlen : length created
                 = length (deviceConfigurations (cloneHost initParams)))
    by (symmetry; eapply Forall2_length; exact Hcreated).
  split; [reflexivity|]. split; [reflexivity|].
  split.
  { unfold rootDevices, isStarted. cbn. rewrite map_map. cbn.
    apply Forall2_map_r. eapply Forall2_impl; [exact Hcreated|].
    cbn. intros c dc (H & _). exact H. }
  split; [reflexivity|].
  split; [cbn [network]; now rewrite Hlen|].
  split; [exact Hes|].
  intros env2 p2 es2. reflexivity.
Qed.

Lemma released_ctor (t : Z) : released (HDeviceHostPrivate_ctor t).
Proof. repeat split; reflexivity. Qed.

Lemma init_success_started_witness :
  isStarted (fst (init Samples.allWell Samples.twoDevices None
                       (HDeviceHostPrivate_ctor 0))) = true.
Proof.
  apply (init_success_started
           Samples.allWell Samples.twoDevices None None
           (HDeviceHostPrivate_ctor 0)
           (fst (init Samples.allWell Samples.twoDevices None
                      (HDeviceHostPrivate_ctor 0)))).
  - vm_compute. repeat split; reflexivity.
  - vm_compute. reflexivity.
Defined.


(** What the [try] block of [init] sends when it does not get as far as
    the announcements. *)
Lemma init_try_quiet
    (env : Environment) (initParams : HDeviceHostConfiguration)
    (errorString : option string) (h : HDeviceHostPrivate) :
  (forall es, snd (init_try env initParams errorString h) <> Return (Success, es)) ->
  now (fst (init_try env initParams errorString h)) = now h /\
  exists evs,
    network (fst (init_try env initParams errorString h)) = (evs ++ network h)%list /\
    Forall (fun ev => ev = HttpListen \/ ev = SsdpBind) evs.
Proof.
  intros Hfail. unfold init_try, bind, modify, ret, throw in *.
  destruct h as [st ip ss srv ht arc en pa ds tp t nw]. host_simpl.
  destruct (env_listen env); cbn [negb] in *.
  2:{ cbn [fst]. split; [reflexivity|]. exists []. split; [reflexivity|constructor]. }
  host_simpl.
  match goal with
  | |- context [createRootDevices env ?l ?x] =>
      destruct (createRootDevices_frame env l x) as [created Hf];
      destruct (createRootDevices env l x) as [h2 [[]|ex]]
  end; cbn [fst] in Hf; subst h2; host_simpl.
  2:{ cbn [fst]. split; [reflexivity|]. exists [HttpListen].
      split; [reflexivity|]. repeat constructor. }
  destruct (env_bind env); cbn [negb] in *.
  2:{ cbn [fst]. split; [reflexivity|]. exists [HttpListen].
      split; [reflexivity|]. repeat constructor. }
  host_simpl.
  destruct (ReturnCode_eqb (env_doInit env) Success) eqn:E.
  { exfalso. destruct (env_doInit env); try discriminate E.
    cbn [snd] in Hfail. now apply (Hfail errorString). }
  cbn [fst]. split; [reflexivity|]. exists [SsdpBind; HttpListen].
  split; [reflexivity|].
  constructor; [now right|]. constructor; [now left|constructor].
Qed.

(** X8. An [init] that does not return [Success] never announces a
    device: all it may have put on the network is the HTTP server
    listening, SSDP binding and the HTTP server closing again; it leaves
    the clock alone. *)
Theorem failed_init_stays_silent
    (env : Environment) (initParams : HDeviceHostConfiguration)
    (errorString errorString' : option string) (h h' : HDeviceHostPrivate)
    (rc : ReturnCode) :
  m_state h <> Initialized ->
  init env initParams errorString h = (h', (rc, errorString')) ->
  rc <> Success ->
  now h' = now h /\
  exists evs,
    network h' = (evs ++ network h)%list /\
    Forall (fun ev => ev = HttpClose \/ ev = HttpListen \/ ev = SsdpBind) evs.
Proof.
  intros Hstate Hinit Hrc. unfold init in Hinit.
  destruct (InitState_eqb (m_state h) Initialized) eqn:E;
    [apply InitState_eqb_eq in E; congruence|].
  destruct (isEmpty initParams).
  { injection Hinit as <- <- <-. split; [reflexivity|].
    exists []. split; [reflexivity|constructor]. }
  pose proof (init_try_quiet env initParams errorString h) as Hquiet.
  destruct (init_try env initParams errorString h) as [h1 r].
  cbn [fst snd] in Hquiet.
  assert (Hr : forall es, r <> Return (Success, es)).
  { intros es ->. cbn in Hinit. congruence. }
  destruct (Hquiet Hr) as (Hnow & evs & Hnet & Hevs).
  assert (Hcleared : h' = clear (setState Exiting h1)).
  { destruct r as [[rc1 es1]|ex].
    - destruct rc1; cbn in Hinit; congruence.
    - destruct ex; cbn in Hinit; congruence. }
  subst h'.
  destruct (clear_world (setState Exiting h1)) as [Cn Cw].
  rewrite Cn, Cw.
  replace (now (setState Exiting h1)) with (now h1) by (destruct h1; reflexivity).
  replace (network (setState Exiting h1)) with (network h1)
    by (destruct h1; reflexivity).
  split; [exact Hnow|].
  exists (HttpClose :: evs). rewrite Hnet. split; [reflexivity|].
  constructor; [now left|].
  eapply Forall_impl; [exact Hevs|]. cbn. tauto.
Qed.


Lemma failed_init_stays_silent_witness :
  now (fst (init Samples.noSsdp Samples.twoDevices None
                 (HDeviceHostPrivate_ctor 0)))
  = now (HDeviceHostPrivate_ctor 0).
Proof.
  apply (failed_init_stays_silent
           Samples.noSsdp Samples.twoDevices None None
           (HDeviceHostPrivate_ctor 0)
           (fst (init Samples.noSsdp Samples.twoDevices None
                      (HDeviceHostPrivate_ctor 0)))
           CommunicationsError).
  - discriminate.
  - vm_compute. reflexivity.
  - discriminate.
Defined.

(** ** The event loop, one root device at a time *)

Lemma dispatchTimer_frame (k : nat) (h : HDeviceHostPrivate) :
  m_state (dispatchTimer k h) = m_state h /\
  m_initParams (dispatchTimer k h) = m_initParams h /\
  m_presenceAnnouncer (dispatchTimer k h) = m_presenceAnnouncer h /\
  now (dispatchTimer k h) = now h /\
  length (m_deviceStorage (dispatchTimer k h)) = length (m_deviceStorage h).
Proof.
  destruct h as [st ip ss srv ht arc en pa ds tp t nw].
  unfold dispatchTimer. host_simpl.
  destruct (ds !! k) as [dck|]; [|repeat split; reflexivity].
  destruct (due t dck); [|repeat split; reflexivity].
  unfold timeout_, announcementTimedout, sendAnnouncements. host_simpl.
  destruct pa; host_simpl; repeat split; try reflexivity;
    now rewrite !length_alter.
Qed.

Lemma dispatchTimer_other (k i : nat) (h : HDeviceHostPrivate) :
  i <> k ->
  m_deviceStorage (dispatchTimer k h) !! i = m_deviceStorage h !! i /\
  aliveTimes i (network (dispatchTimer k h)) = aliveTimes i (network h).
Proof.
  intros Hne.
  destruct h as [st ip ss srv ht arc en pa ds tp t nw].
  unfold dispatchTimer. host_simpl.
  destruct (ds !! k) as [dck|]; [|split; reflexivity].
  destruct (due t dck); [|split; reflexivity].
  unfold timeout_, announcementTimedout, sendAnnouncements,
    createAnnouncementMessagesForRootDevice. host_simpl.
  destruct pa; host_simpl.
  - rewrite !list_lookup_alter_ne by congruence. split; [reflexivity|].
    cbn [app aliveTimes].
    replace (k =? i)%nat with false
      by (symmetry; apply Nat.eqb_neq; congruence).
    reflexivity.
  - rewrite !list_lookup_alter_ne by congruence. split; reflexivity.
Qed.

Lemma dispatchTimer_at (k : nat) (h : HDeviceHostPrivate) (dc : HDeviceController) :
  m_presenceAnnouncer h <> None ->
  m_deviceStorage h !! k = Some dc ->
  m_deviceStorage (dispatchTimer k h) !! k
  = Some (if due (now h) dc
          then startStatusNotifier (now h) (stopStatusNotifier dc) else dc) /\
  aliveTimes k (network (dispatchTimer k h))
  = if due (now h) dc then now h :: aliveTimes k (network h)
    else aliveTimes k (network h).
Proof.
  destruct h as [st ip ss srv ht arc en pa ds tp t nw].
  unfold dispatchTimer. host_simpl. intros Hpa Hk. rewrite Hk.
  destruct (due t dc); [|split; [exact Hk|reflexivity]].
  unfold timeout_, announcementTimedout, sendAnnouncements,
    createAnnouncementMessagesForRootDevice. host_simpl.
  destruct pa; [|congruence]. host_simpl.
  rewrite !list_lookup_alter_eq, Hk. split; [reflexivity|].
  cbn [app aliveTimes]. now rewrite Nat.eqb_refl.
Qed.

Lemma dispatchTimers_frame (n : nat) (h : HDeviceHostPrivate) :
  m_state (dispatchTimers n h) = m_state h /\
  m_initParams (dispatchTimers n h) = m_initParams h /\
  m_presenceAnnouncer (dispatchTimers n h) = m_presenceAnnouncer h /\
  now (dispatchTimers n h) = now h /\
  length (m_deviceStorage (dispatchTimers n h)) = length (m_deviceStorage h).
Proof.
  induction n as [|k (I1 & I2 & I3 & I4 & I5)]; [repeat split; reflexivity|].
  cbn [dispatchTimers].
  destruct (dispatchTimer_frame k (dispatchTimers k h)) as (F1 & F2 & F3 & F4 & F5).
  repeat split; congruence.
Qed.

Lemma dispatchTimers_at (n i : nat) (h : HDeviceHostPrivate) (dc : HDeviceController) :
  m_presenceAnnouncer h <> None ->
  m_deviceStorage h !! i = Some dc ->
  m_deviceStorage (dispatchTimers n h) !! i
  = Some (if (i <? n)%nat && due (now h) dc
          then startStatusNotifier (now h) (stopStatusNotifier dc) else dc) /\
  aliveTimes i (network (dispatchTimers n h))
  = if (i <? n)%nat && due (now h) dc then now h :: aliveTimes i (network h)
    else aliveTimes i (network h).
Proof.
  intros Hpa Hi. induction n as [|k [IH1 IH2]].
  - cbn [dispatchTimers]. split; [exact Hi|reflexivity].
  - cbn [dispatchTimers].
    destruct (dispatchTimers_frame k h) as (_ & _ & Fpa & Fnow & _).
    destruct (decide (i = k)) as [->|Hne].
    + replace (k <? k)%nat with false in IH1, IH2
        by (symmetry; apply Nat.ltb_ge; lia).
      replace (k <? S k)%nat with true by (symmetry; apply Nat.ltb_lt; lia).
      cbn [andb] in *.
      destruct (dispatchTimer_at k (dispatchTimers k h) dc) as [A1 A2];
        [congruence | exact IH1 |].
      rewrite Fnow in A1, A2. rewrite A1, A2, IH2. split; reflexivity.
    + destruct (dispatchTimer_other k i (dispatchTimers k h) Hne) as [O1 O2].
      rewrite O1, O2, IH1, IH2.
      replace (i <? S k)%nat with (i <? k)%nat; [split; reflexivity|].
      destruct (Nat.ltb_spec i k), (Nat.ltb_spec i (S k)); try reflexivity; lia.
Qed.

(** A second of the event loop, seen from one root device: the clock
    advances, and the status notifier of the device fires when it is due,
    which sends one [ssdp:alive] and arms the notifier again. *)
Lemma tick_at (i : nat) (h : HDeviceHostPrivate) (dc : HDeviceController) :
  m_presenceAnnouncer h <> None ->
  m_deviceStorage h !! i = Some dc ->
  m_presenceAnnouncer (tick h) <> None /\
  now (tick h) = now h + 1 /\
  m_deviceStorage (tick h) !! i
  = Some (if due (now h + 1) dc
          then startStatusNotifier (now h + 1) (stopStatusNotifier dc) else dc) /\
  aliveTimes i (network (tick h))
  = if due (now h + 1) dc then (now h + 1) :: aliveTimes i (network h)
    else aliveTimes i (network h).
Proof.
  intros Hpa Hi. unfold tick.
  set (h1 := set_now (now h + 1) h).
  assert (E : m_presenceAnnouncer h1 = m_presenceAnnouncer h /\
              m_deviceStorage h1 = m_deviceStorage h /\
              network h1 = network h /\ now h1 = now h + 1)
    by (subst h1; destruct h; repeat split; reflexivity).
  destruct E as (E1 & E2 & E3 & E4).
  destruct (dispatchTimers_frame (length (m_deviceStorage h1)) h1)
    as (_ & _ & Fpa & Fnow & _).
  destruct (dispatchTimers_at (length (m_deviceStorage h1)) i h1 dc) as [A1 A2];
    [congruence | congruence |].
  replace (i <? length (m_deviceStorage h1))%nat with true in A1, A2
    by (symmetry; apply Nat.ltb_lt; rewrite E2; eapply lookup_lt_Some; exact Hi).
  cbn [andb] in A1, A2. rewrite E4, E3 in *.
  split; [congruence|]. split; [congruence|]. split; assumption.
Qed.

Lemma tick_frame (h : HDeviceHostPrivate) :
  m_state (tick h) = m_state h /\
  m_initParams (tick h) = m_initParams h /\
  now (tick h) = now h + 1 /\
  length (m_deviceStorage (tick h)) = length (m_deviceStorage h).
Proof.
  unfold tick. set (h1 := set_now (now h + 1) h).
  assert (E : m_state h1 = m_state h /\ m_initParams h1 = m_initParams h /\
              m_deviceStorage h1 = m_deviceStorage h /\ now h1 = now h + 1)
    by (subst h1; destruct h; repeat split; reflexivity).
  destruct E as (E1 & E2 & E3 & E4).
  destruct (dispatchTimers_frame (length (m_deviceStorage h1)) h1)
    as (F1 & F2 & _ & F4 & F5).
  repeat split; congruence.
Qed.

Lemma run_frame (n : nat) (h : HDeviceHostPrivate) :
  m_state (Nat.iter n tick h) = m_state h /\
  m_initParams (Nat.iter n tick h) = m_initParams h /\
  now (Nat.iter n tick h) = now h + Z.of_nat n /\
  length (m_deviceStorage (Nat.iter n tick h)) = length (m_deviceStorage h).
Proof.
  induction n as [|k (I1 & I2 & I3 & I4)].
  - cbn. repeat split; try reflexivity. lia.
  - cbn [Nat.iter nat_rect].
    change (nat_rect _ h (fun _ => tick) k) with (Nat.iter k tick h).
    destruct (tick_frame (Nat.iter k tick h)) as (F1 & F2 & F3 & F4).
    repeat split; try congruence. lia.
Qed.

(** With no root device left the event loop does nothing but advance the
    clock. *)
Lemma tick_idle (h : HDeviceHostPrivate) :
  m_deviceStorage h = [] -> tick h = set_now (now h + 1) h.
Proof.
  intros H. unfold tick.
  replace (m_deviceStorage (set_now (now h + 1) h)) with (m_deviceStorage h)
    by (destruct h; reflexivity).
  rewrite H. reflexivity.
Qed.

Lemma run_idle (n : nat) (h : HDeviceHostPrivate) :
  m_deviceStorage h = [] ->
  Nat.iter n tick h = set_now (now h + Z.of_nat n) h.
Proof.
  intros H. induction n as [|k IH].
  - cbn. destruct h; host_simpl. f_equal. lia.
  - cbn [Nat.iter nat_rect].
    change (nat_rect _ h (fun _ => tick) k) with (Nat.iter k tick h).
    rewrite IH, tick_idle by (destruct h; exact H).
    destruct h; host_simpl. f_equal. lia.
Qed.

(** ** Shutting down a started host *)

(** X9. A host that was started and has run for any number of seconds is
    still started; [quit] then releases every component, leaves no root
    device, and puts on the network one [ssdp:byebye] per root device
    followed by the closing of the HTTP server; after that no status
    notifier fires any more: the network stays silent however long the
    event loop runs. *)
Theorem quit_says_goodbye
    (env : Environment) (initParams : HDeviceHostConfiguration)
    (errorString errorString' : option string) (h0 h : HDeviceHostPrivate)
    (n : nat) :
  released h0 ->
  init env initParams errorString h0 = (h, (Success, errorString')) ->
  let hn := Nat.iter n tick h in
  let hq := fst (quit hn) in
  isStarted hn = true /\
  released hq /\
  rootDevices hq = [] /\
  network hq
  = HttpClose
    :: (map (fun d => SsdpByeBye d (now h0 + Z.of_nat n))
            (seq 0 (length (deviceConfigurations (cloneHost initParams))))
        ++ network hn)%list /\
  forall m, network (Nat.iter m tick hq) = network hq.
Proof.
  intros Hrel Hinit hn hq.
  destruct (init_success_basics _ _ _ _ _ _ Hrel Hinit)
    as (Hstarted & Hroots & Hnow).
  destruct (run_frame n h) as (Fst & _ & Fnow & Flen). fold hn in Fst, Fnow, Flen.
  assert (Hstate : m_state hn = Initialized) by (now rewrite Fst).
  assert (Hlen : length (m_deviceStorage hn)
                 = length (deviceConfigurations (cloneHost initParams)))
    by (now rewrite Flen).
  assert (Hq : hq = clear (announceUnavailable (stopNotifiers (setState Exiting hn)))).
  { subst hq. unfold quit. rewrite Hstate. reflexivity. }
  assert (Hrq : released hq) by (rewrite Hq; apply clear_released).
  split; [unfold isStarted; now rewrite Hstate|].
  split; [exact Hrq|].
  split; [unfold rootDevices, isStarted;
          destruct Hrq as (-> & _); reflexivity|].
  split.
  - rewrite Hq.
    destruct (clear_world (announceUnavailable (stopNotifiers (setState Exiting hn))))
      as [_ ->].
    f_equal. rewrite <- Hlen, <- Hnow, <- Fnow.
    destruct hn; unfold announceUnavailable, sendAnnouncements, stopNotifiers.
    host_simpl. now rewrite length_map.
  - intros m. rewrite run_idle by (apply Hrq). destruct hq; reflexivity.
Qed.


Lemma quit_says_goodbye_witness :
  network (fst (quit (Nat.iter 3 tick
                        (fst (init Samples.allWell Samples.twoDevices None
                                   (HDeviceHostPrivate_ctor 0))))))
  = HttpClose
    :: (map (fun d => SsdpByeBye d (0 + Z.of_nat 3)) (seq 0 2)
        ++ network (Nat.iter 3 tick
                      (fst (init Samples.allWell Samples.twoDevices None
                                 (HDeviceHostPrivate_ctor 0)))))%list.
Proof.
  destruct (quit_says_goodbye
              Samples.allWell Samples.twoDevices None None
              (HDeviceHostPrivate_ctor 0)
              (fst (init Samples.allWell Samples.twoDevices None
                         (HDeviceHostPrivate_ctor 0)))
              3)
    as (_ & _ & _ & Hnet & _).
  - vm_compute. repeat split; reflexivity.
  - vm_compute. reflexivity.
  - exact Hnet.
Defined.

(** ** The announcement schedule *)

Lemma aliveTimes_round (t : Z) (i len : nat) : forall s : nat,
  aliveTimes i (flat_map (createAnnouncementMessagesForRootDevice t) (seq s len))
  = if ((s <=? i) && (i <? s + len))%nat then [t] else [].
Proof.
  induction len as [|len IH]; intros s.
  - cbn [seq flat_map aliveTimes].
    destruct (Nat.leb_spec s i); [|reflexivity].
    destruct (Nat.ltb_spec i (s + 0)); [lia|reflexivity].
  - cbn [seq flat_map createAnnouncementMessagesForRootDevice app aliveTimes].
    rewrite IH.
    destruct (Nat.eqb_spec s i) as [->|Hne].
    + replace (S i <=? i)%nat with false by (symmetry; apply Nat.leb_gt; lia).
      replace (i <=? i)%nat with true by (symmetry; apply Nat.leb_le; lia).
      replace (i <? i + S len)%nat with true by (symmetry; apply Nat.ltb_lt; lia).
      reflexivity.
    + destruct (Nat.leb_spec (S s) i), (Nat.leb_spec s i); try lia;
        cbn [andb]; [|reflexivity].
      replace (i <? s + S len)%nat with (i <? S s + len)%nat; [reflexivity|].
      f_equal. lia.
Qed.

Lemma aliveTimes_startup (t : Z) (i len : nat) (count : Z) :
  (i < len)%nat ->
  aliveTimes i (startupAnnouncements t len count) = repeat t (Z.to_nat count).
Proof.
  intros Hi. unfold startupAnnouncements.
  induction (Z.to_nat count) as [|k IH]; [reflexivity|].
  cbn [repeat concat]. rewrite aliveTimes_app, IH, aliveTimes_round.
  replace (i <? 0 + len)%nat with true by (symmetry; apply Nat.ltb_lt; lia).
  reflexivity.
Qed.

Lemma next_period (half n : Z) :
  1 <= half -> 0 <= n ->
  n < (n / half + 1) * half /\
  ((n / half + 1) * half <= n + 1 ->
   (n + 1) / half = n / half + 1 /\ (n / half + 1) * half = n + 1) /\
  (n + 1 < (n / half + 1) * half -> (n + 1) / half = n / half).
Proof.
  intros Hh Hn.
  pose proof (Z.div_mod n half ltac:(lia)) as Hdm.
  pose proof (Z.mod_pos_bound n half ltac:(lia)) as Hr.
  set (q := n / half) in *. set (r := n mod half) in *.
  split; [nia|]. split.
  - intros Hle. assert (Heq : (q + 1) * half = n + 1) by nia.
    split; [|exact Heq].
    symmetry. apply (Z.div_unique (n + 1) half (q + 1) 0); lia.
  - intros Hlt. symmetry.
    apply (Z.div_unique (n + 1) half q (r + 1)); nia.
Qed.

Lemma announcementTimes_next (t0 half : Z) (n : nat) :
  1 <= half ->
  announcementTimes t0 half (S n)
  = if (Z.of_nat n / half + 1) * half <=? Z.of_nat n + 1
    then (t0 + (Z.of_nat n / half + 1) * half) :: announcementTimes t0 half n
    else announcementTimes t0 half n.
Proof.
  intros Hh. unfold announcementTimes.
  destruct (next_period half (Z.of_nat n) Hh ltac:(lia)) as (_ & Hfire & Hkeep).
  replace (Z.of_nat (S n)) with (Z.of_nat n + 1) by lia.
  assert (Hq : 0 <= Z.of_nat n / half) by (apply Z.div_pos; lia).
  destruct (Z.leb_spec ((Z.of_nat n / half + 1) * half) (Z.of_nat n + 1)) as [H|H].
  - destruct (Hfire H) as [-> _].
    rewrite Z2Nat.inj_add by lia. change (Z.to_nat 1) with 1%nat.
    rewrite Nat.add_1_r, seq_S, map_app. cbn [map]. rewrite rev_unit.
    do 2 f_equal. lia.
  - now rewrite (Hkeep H).
Qed.

(** X10. After a successful [init] the [ssdp:alive] messages of a root
    device whose maximum age is at least two seconds go out at start-up
    (as many times as the advertisement count says) and from then on
    exactly every [cacheControlMaxAge / 2] seconds: after [n] seconds of
    the event loop the emission times of the device are [t0 + half],
    [t0 + 2 * half], ... up to the last multiple within [n], and the
    start-up ones. The status notifier and the presence announcer are the
    ones modelled from the spec. *)
Theorem announcements_every_half_age
    (env : Environment) (initParams : HDeviceHostConfiguration)
    (errorString errorString' : option string)
    (h0 h : HDeviceHostPrivate) (i : nat) (c : HDeviceConfiguration) :
  released h0 ->
  init env initParams errorString h0 = (h, (Success, errorString')) ->
  deviceConfigurations (cloneHost initParams) !! i = Some c ->
  2 <= cacheControlMaxAge c ->
  forall n,
    aliveTimes i (network (Nat.iter n tick h))
    = (announcementTimes (now h0) (cacheControlMaxAge c / 2) n
       ++ repeat (now h0)
                 (Z.to_nat (individualAdvertisementCount (cloneHost initParams)))
       ++ aliveTimes i (network h0))%list.
Proof.
  intros Hrel Hinit Hc Hage.
  set (half := cacheControlMaxAge c / 2).
  set (t0 := now h0).
  set (first := (repeat t0 (Z.to_nat (individualAdvertisementCount
                                         (cloneHost initParams)))
                 ++ aliveTimes i (network h0))%list).
  assert (Hhalf : 1 <= half) by (apply Z.div_le_lower_bound; lia).
  enough (G : forall n,
             let hn := Nat.iter n tick h in
             m_presenceAnnouncer hn <> None /\
             now hn = t0 + Z.of_nat n /\
             (exists dc,
                m_deviceStorage hn !! i = Some dc /\
                m_deviceTimeoutInSecs dc = half /\
                m_statusNotifier dc
                = Some (t0 + (Z.of_nat n / half + 1) * half)) /\
             aliveTimes i (network hn)
             = (announcementTimes t0 half n ++ first)%list).
  { intros n. apply (G n). }
  induction n as [|n (Ipa & Inow & (dc & Idc & IT & Id) & Ialive)]; intros hn.
  - subst hn. cbn [Nat.iter nat_rect].
    destruct Hrel as (Hst & _ & _ & _ & _ & _ & _ & _ & Hds & _).
    apply init_success_state in Hinit; [|congruence].
    destruct Hinit as (created & Hcreated & ->). rewrite Hds.
    cbn [app m_presenceAnnouncer now m_deviceStorage network].
    destruct (Forall2_lookup_l _ _ _ _ _ Hcreated Hc) as (dc0 & Hdc0 & _ & HT & _).
    split; [discriminate|]. split; [fold t0; lia|]. split.
    + exists (startStatusNotifier t0 dc0). rewrite lookup_map, Hdc0.
      split; [reflexivity|]. split; [exact HT|].
      unfold startStatusNotifier; cbn [m_statusNotifier]. rewrite HT.
      fold half. rewrite Z.div_0_l by lia. do 2 f_equal. lia.
    + fold t0. rewrite !aliveTimes_app.
      rewrite aliveTimes_startup by (eapply lookup_lt_Some; exact Hdc0).
      reflexivity.
  - subst hn. cbn [Nat.iter nat_rect].
    change (nat_rect _ h (fun _ => tick) n) with (Nat.iter n tick h) in *.
    destruct (tick_at i _ dc Ipa Idc) as (Tpa & Tnow & Tdc & Talive).
    rewrite Inow in Tnow, Tdc, Talive.
    split; [exact Tpa|]. split; [rewrite Tnow; lia|].
    rewrite announcementTimes_next by exact Hhalf.
    destruct (next_period half (Z.of_nat n) Hhalf ltac:(lia)) as (Hlt & Hfire & Hkeep).
    unfold due in Tdc, Talive. rewrite Id in Tdc, Talive.
    replace (Z.of_nat (S n)) with (Z.of_nat n + 1) by lia.
    destruct (Z.leb_spec ((Z.of_nat n / half + 1) * half) (Z.of_nat n + 1)) as [H|H].
    + destruct (Hfire H) as [Hq Heq].
      replace (t0 + (Z.of_nat n / half + 1) * half <=? t0 + Z.of_nat n + 1)
        with true in Tdc, Talive by (symmetry; apply Z.leb_le; lia).
      split.
      * eexists. split; [exact Tdc|]. split; [exact IT|].
        unfold startStatusNotifier, stopStatusNotifier;
          cbn [m_statusNotifier m_deviceTimeoutInSecs].
        rewrite IT, Hq. f_equal. lia.
      * rewrite Talive, Ialive. cbn [app]. f_equal. lia.
    + replace (t0 + (Z.of_nat n / half + 1) * half <=? t0 + Z.of_nat n + 1)
        with false in Tdc, Talive by (symmetry; apply Z.leb_gt; lia).
      split.
      * exists dc. split; [exact Tdc|]. split; [exact IT|].
        rewrite Id, (Hkeep H). reflexivity.
      * rewrite Talive. exact Ialive.
Qed.

Lemma announcements_every_half_age_witness :
  aliveTimes 0
    (network
       (Nat.iter 12 tick
          (fst (init Samples.allWell Samples.twoDevices None
                     (HDeviceHostPrivate_ctor 0)))))
  = [10; 5; 0; 0].
Proof.
  apply (announcements_every_half_age
           Samples.allWell Samples.twoDevices None None
           (HDeviceHostPrivate_ctor 0)
           (fst (init Samples.allWell Samples.twoDevices None
                      (HDeviceHostPrivate_ctor 0)))
           0 (mkDeviceConfiguration "/a/d.xml" 10 true)).
  - vm_compute. repeat split; reflexivity.
  - vm_compute. reflexivity.
  - reflexivity.
  - vm_compute. discriminate.
Defined.

End HostLifecycleProperties.

(* ===================================================================== *)
(** * More on the server-side event notifier                              *)
(* ===================================================================== *)

Module NotifierStoreProperties.
Import Notifier NotifierLookup.

(** X11. Once the notifier is shut down it holds no subscriber and takes
    no request any more: [addSubscriber] returns null, [removeSubscriber]
    returns false, [remoteClient] finds nobody, and no sequence of
    requests changes the notifier or sends a notification. *)
Theorem shutdown_refuses_everything (en : EventNotifier) :
  (forall newSid srv sreq,
     addSubscriber newSid srv sreq (shutdown en) = (shutdown en, None)) /\
  (forall reqSid, removeSubscriber reqSid (shutdown en) = (shutdown en, false)) /\
  (forall reqSid, remoteClient reqSid (shutdown en) = None) /\
  (forall rqs, fold_left serve rqs (shutdown en) = shutdown en).
Proof.
  split; [reflexivity|]. split; [reflexivity|]. split; [reflexivity|].
  intros rqs. induction rqs as [|rq rest IH]; [reflexivity|].
  cbn [fold_left]. destruct rq; exact IH.
Qed.

Lemma isSameService_key (rc : ServiceEventSubscriber) (srv : HService) (loc : string) :
  subscriberKey rc = (udn srv, scpdUrl srv, loc) ->
  isSameService (service rc) srv = true /\ location rc = loc.
Proof.
  unfold subscriberKey, isSameService. intros H. inversion H; subst.
  rewrite !String.eqb_refl. split; reflexivity.
Qed.

Lemma removeFirst_sublist (reqSid : string) (l : list ServiceEventSubscriber) :
  sublist (fst (removeFirst reqSid l)) l.
Proof.
  induction l as [|rc rest IH]; cbn [removeFirst]; [constructor|].
  destruct (String.eqb (sid rc) reqSid); cbn [fst].
  - now apply sublist_cons.
  - destruct (removeFirst reqSid rest) as [rest' found]. cbn [fst] in *.
    now apply sublist_skip.
Qed.

Lemma notifyLoop_sublist (source : HService) (msgBody : string)
    (l : list ServiceEventSubscriber) :
  sublist (fst (notifyLoop source msgBody l)) l.
Proof.
  induction l as [|rc rest IH]; cbn [notifyLoop]; [constructor|].
  destruct (notifyLoop source msgBody rest) as [kept sent]. cbn [fst] in IH.
  destruct (isInterested rc source); cbn [fst]; [now apply sublist_skip|].
  destruct (expired rc); cbn [fst]; [now apply sublist_cons | now apply sublist_skip].
Qed.

Lemma contains_In (l : list string) (x : string) :
  contains l x = true <-> In x l.
Proof.
  induction l as [|y rest IH]; cbn; [split; [discriminate|tauto]|].
  rewrite orb_true_iff, String.eqb_eq, IH. tauto.
Qed.

(** X12. The notifier never holds two subscribers of the same service
    (as [isSameService] compares services) with the same callback
    location: a list of subscribers that are distinct in this sense stays
    so under any sequence of subscribe, unsubscribe and state-change
    requests. *)
Theorem subscribers_stay_distinct (rqs : list Request) (en : EventNotifier) :
  NoDup (map subscriberKey (m_remoteClients en)) ->
  NoDup (map subscriberKey (m_remoteClients (fold_left serve rqs en))).
Proof.
  revert en. induction rqs as [|rq rest IH]; intros en Hen; [exact Hen|].
  cbn [fold_left]. apply IH. clear IH.
  assert (Hsub : forall l, sublist l (m_remoteClients en) ->
                           NoDup (map subscriberKey l)).
  { intros l Hl. eapply sublist_NoDup; [exact Hen|].
    apply (fmap_sublist subscriberKey _ _ Hl). }
  destruct rq as [newSid srv sreq|reqSid|source msgBody]; cbn [serve].
  - unfold addSubscriber. destruct (m_shutdown en); [exact Hen|].
    destruct (existsb _ (m_remoteClients en)) eqn:Hex; [exact Hen|].
    cbn [fst m_remoteClients]. rewrite map_app. cbn [map].
    apply NoDup_app. split; [exact Hen|]. split; [|apply NoDup_singleton].
    intros k Hk Hk'. apply list_elem_of_singleton in Hk'. subst k.
    apply list_elem_of_fmap in Hk. destruct Hk as (rc & Hkey & Hrc).
    symmetry in Hkey.
    apply (isSameService_key rc srv (callback0 sreq)) in Hkey.
    destruct Hkey as [Hs Hl].
    assert (Hfalse : existsb
              (fun rc => isSameService (service rc) srv
                         && contains (callbacks sreq) (location rc))
              (m_remoteClients en) = true).
    { apply existsb_exists. exists rc. split.
      - now apply list_elem_of_In.
      - rewrite Hs. cbn [andb]. apply contains_In. rewrite Hl.
        unfold callbacks. now left. }
    congruence.
  - unfold removeSubscriber. destruct (m_shutdown en); [exact Hen|].
    pose proof (removeFirst_sublist reqSid (m_remoteClients en)) as Hs.
    destruct (removeFirst reqSid (m_remoteClients en)) as [clients found].
    cbn [fst m_remoteClients] in *. now apply Hsub.
  - unfold stateChanged. destruct (m_shutdown en); [exact Hen|].
    pose proof (notifyLoop_sublist source msgBody (m_remoteClients en)) as Hs.
    destruct (notifyLoop source msgBody (m_remoteClients en)) as [kept sent].
    cbn [fst m_remoteClients] in *. now apply Hsub.
Qed.


Lemma find_snoc {A} (f : A -> bool) (l : list A) (x : A) :
  List.find f (l ++ [x])
  = match List.find f l with
    | Some y => Some y
    | None => if f x then Some x else None
    end.
Proof.
  induction l as [|y rest IH]; cbn [app List.find]; [reflexivity|].
  destruct (f y); [reflexivity | exact IH].
Qed.

(** X13. A subscriber that [addSubscriber] accepts under a SID that is
    not in use is the one [remoteClient] finds under that SID afterwards;
    it belongs to the service asked for, sends to the first callback of
    the request and has not expired; and what [remoteClient] finds under
    any other SID is as before. *)
Theorem addSubscriber_then_remoteClient
    (newSid : string) (srv : HService) (sreq : SubscribeRequest)
    (en en' : EventNotifier) (rc : ServiceEventSubscriber) :
  remoteClient newSid en = None ->
  addSubscriber newSid srv sreq en = (en', Some rc) ->
  remoteClient newSid en' = Some rc /\
  sid rc = newSid /\ service rc = srv /\ location rc = callback0 sreq /\
  expired rc = false /\
  forall reqSid, reqSid <> newSid ->
    remoteClient reqSid en' = remoteClient reqSid en.
Proof.
  unfold addSubscriber, remoteClient. intros Hfresh Hadd.
  destruct (m_shutdown en); [discriminate|].
  destruct (existsb _ (m_remoteClients en)); [discriminate|].
  injection Hadd as <- <-. cbn [m_remoteClients sid service location expired].
  rewrite find_snoc, Hfresh. cbn [sid]. rewrite String.eqb_refl.
  repeat split; try reflexivity.
  intros reqSid Hne. rewrite find_snoc. cbn [sid].
  destruct (List.find (fun rc => String.eqb (sid rc) reqSid) (m_remoteClients en));
    [reflexivity|].
  destruct (String.eqb_spec newSid reqSid); [congruence|reflexivity].
Qed.

Lemma removeFirst_find (reqSid : string) (l : list ServiceEventSubscriber) :
  snd (removeFirst reqSid l)
  = match List.find (fun rc => String.eqb (sid rc) reqSid) l with
    | Some _ => true
    | None => false
    end.
Proof.
  induction l as [|rc rest IH]; cbn [removeFirst List.find]; [reflexivity|].
  destruct (String.eqb (sid rc) reqSid); [reflexivity|].
  destruct (removeFirst reqSid rest). exact IH.
Qed.

Lemma removeFirst_other (reqSid other : string) (l : list ServiceEventSubscriber) :
  other <> reqSid ->
  List.find (fun rc => String.eqb (sid rc) other) (fst (removeFirst reqSid l))
  = List.find (fun rc => String.eqb (sid rc) other) l.
Proof.
  intros Hne. induction l as [|rc rest IH]; cbn [removeFirst]; [reflexivity|].
  destruct (String.eqb_spec (sid rc) reqSid) as [Heq|Hneq]; cbn [fst List.find].
  - destruct (String.eqb_spec (sid rc) other); [congruence|reflexivity].
  - destruct (removeFirst reqSid rest) as [rest' found]. cbn [fst List.find] in *.
    now rewrite IH.
Qed.

Lemma removeFirst_gone (reqSid : string) (l : list ServiceEventSubscriber) :
  NoDup (map sid l) ->
  List.find (fun rc => String.eqb (sid rc) reqSid) (fst (removeFirst reqSid l))
  = None.
Proof.
  induction l as [|rc rest IH]; intros Hnd; cbn [removeFirst]; [reflexivity|].
  cbn [map] in Hnd. apply NoDup_cons in Hnd. destruct Hnd as [Hnotin Hnd].
  destruct (String.eqb_spec (sid rc) reqSid) as [Heq|Hneq]; cbn [fst].
  - destruct (List.find _ rest) as [rc'|] eqn:Hf; [|reflexivity].
    exfalso. apply find_some in Hf. destruct Hf as [Hin Hsid].
    apply String.eqb_eq in Hsid. apply Hnotin.
    apply list_elem_of_fmap. exists rc'. split; [congruence|].
    now apply list_elem_of_In.
  - destruct (removeFirst reqSid rest) as [rest' found]. cbn [fst List.find] in *.
    destruct (String.eqb_spec (sid rc) reqSid); [congruence|]. now apply IH.
Qed.

Lemma removeFirst_none (reqSid : string) (l : list ServiceEventSubscriber) :
  snd (removeFirst reqSid l) = false -> fst (removeFirst reqSid l) = l.
Proof.
  induction l as [|rc rest IH]; cbn [removeFirst]; [reflexivity|].
  destruct (String.eqb (sid rc) reqSid); [discriminate|].
  destruct (removeFirst reqSid rest) as [rest' found]. cbn [fst snd] in *.
  intros H. now rewrite IH.
Qed.

(** X14. [removeSubscriber] returns true exactly when the notifier is not
    shut down and [remoteClient] finds a subscriber with the SID; when it
    returns false the notifier is unchanged; what [remoteClient] finds
    under any other SID is as before; and when the SIDs of the
    subscribers are distinct, the SID removed is not found any more. *)
Theorem removeSubscriber_then_remoteClient
    (reqSid : string) (en : EventNotifier) :
  let en' := fst (removeSubscriber reqSid en) in
  let found := snd (removeSubscriber reqSid en) in
  (found = true <-> m_shutdown en = false /\ remoteClient reqSid en <> None) /\
  (found = false -> en' = en) /\
  (forall other, other <> reqSid ->
     remoteClient other en' = remoteClient other en) /\
  (NoDup (map sid (m_remoteClients en)) -> found = true ->
   remoteClient reqSid en' = None).
Proof.
  unfold removeSubscriber, remoteClient.
  destruct (m_shutdown en) eqn:Hs; cbn [fst snd].
  { split; [split; [discriminate|intros [? _]; discriminate]|].
    split; [reflexivity|]. split; [reflexivity|]. discriminate. }
  pose proof (removeFirst_find reqSid (m_remoteClients en)) as Hfind.
  pose proof (removeFirst_none reqSid (m_remoteClients en)) as Hnone.
  pose proof (fun other => removeFirst_other reqSid other (m_remoteClients en))
    as Hother.
  pose proof (removeFirst_gone reqSid (m_remoteClients en)) as Hgone.
  destruct (removeFirst reqSid (m_remoteClients en)) as [clients found].
  cbn [fst snd m_remoteClients] in *.
  split; [|split; [|split]].
  - rewrite Hfind. destruct (List.find _ (m_remoteClients en)).
    + split; [intros _; split; [reflexivity|discriminate]|reflexivity].
    + split; [discriminate|]. intros [_ H]. congruence.
  - intros Hf. rewrite (Hnone Hf). destruct en; cbn in *. now subst.
  - exact Hother.
  - intros Hnd _. now apply Hgone.
Qed.

(** X15. [stateChanged] on a notifier that is not shut down removes
    exactly the subscribers that have expired, keeps the others in their
    order, and hands the message once to each subscriber that is
    interested in the source, in their order; [isInterested] is the one
    modelled from the spec. *)
Theorem stateChanged_sweeps_expired
    (source : HService) (msgBody : string) (en : EventNotifier) :
  m_shutdown en = false ->
  m_remoteClients (stateChanged source msgBody en)
  = List.filter (fun rc => negb (expired rc)) (m_remoteClients en) /\
  notified (stateChanged source msgBody en)
  = (rev (map (fun rc => (rc, msgBody))
              (List.filter (fun rc => isInterested rc source)
                           (m_remoteClients en)))
     ++ notified en)%list.
Proof.
  intros Hs. unfold stateChanged. rewrite Hs.
  assert (H : notifyLoop source msgBody (m_remoteClients en)
              = (List.filter (fun rc => negb (expired rc)) (m_remoteClients en),
                 map (fun rc => (rc, msgBody))
                     (List.filter (fun rc => isInterested rc source)
                                  (m_remoteClients en)))).
  { induction (m_remoteClients en) as [|rc rest IH]; [reflexivity|].
    cbn [notifyLoop List.filter]. rewrite IH. unfold isInterested.
    destruct (expired rc); cbn [negb andb]; [reflexivity|].
    destruct (HService_eqb (service rc) source); reflexivity. }
  rewrite H. split; reflexivity.
Qed.


Lemma renewFirst_find (renew : ServiceEventSubscriber -> ServiceEventSubscriber)
    (reqSid : string) (l : list ServiceEventSubscriber) :
  snd (renewFirst renew reqSid l)
  = renew <$> List.find (fun rc => String.eqb (sid rc) reqSid) l /\
  length (fst (renewFirst renew reqSid l)) = length l.
Proof.
  induction l as [|rc rest [IH1 IH2]]; cbn [renewFirst List.find];
    [split; reflexivity|].
  destruct (String.eqb (sid rc) reqSid); [split; reflexivity|].
  destruct (renewFirst renew reqSid rest). cbn [fst snd length] in *.
  split; [exact IH1 | now rewrite IH2].
Qed.

Lemma renewFirst_other (renew : ServiceEventSubscriber -> ServiceEventSubscriber)
    (reqSid other : string) (l : list ServiceEventSubscriber) :
  (forall rc, sid (renew rc) = sid rc) ->
  other <> reqSid ->
  List.find (fun rc => String.eqb (sid rc) other) (fst (renewFirst renew reqSid l))
  = List.find (fun rc => String.eqb (sid rc) other) l.
Proof.
  intros Hsid Hne. induction l as [|rc rest IH]; cbn [renewFirst]; [reflexivity|].
  destruct (String.eqb_spec (sid rc) reqSid) as [Heq|Hneq]; cbn [fst List.find].
  - rewrite Hsid.
    destruct (String.eqb_spec (sid rc) other); [congruence|reflexivity].
  - destruct (renewFirst renew reqSid rest) as [rest' found].
    cbn [fst List.find] in *. now rewrite IH.
Qed.

Lemma renewFirst_same (renew : ServiceEventSubscriber -> ServiceEventSubscriber)
    (reqSid : string) (l : list ServiceEventSubscriber) :
  (forall rc, sid (renew rc) = sid rc) ->
  List.find (fun rc => String.eqb (sid rc) reqSid) (fst (renewFirst renew reqSid l))
  = snd (renewFirst renew reqSid l).
Proof.
  intros Hsid. induction l as [|rc rest IH]; cbn [renewFirst]; [reflexivity|].
  destruct (String.eqb (sid rc) reqSid) eqn:E; cbn [fst snd List.find].
  - now rewrite Hsid, E.
  - destruct (renewFirst renew reqSid rest) as [rest' found].
    cbn [fst snd List.find] in *. now rewrite E.
Qed.

(** X16. With a [renew] that leaves the SID of a subscriber as it is,
    [renewSubscription] renews and returns exactly the subscriber that
    [remoteClient] finds under the SID (null when there is none or the
    notifier is shut down); the number of subscribers stays the same, the
    renewed subscriber is the one found under the SID afterwards, and what
    [remoteClient] finds under any other SID is as before. *)
Theorem renewSubscription_renews_remoteClient
    (renew : ServiceEventSubscriber -> ServiceEventSubscriber)
    (reqSid : string) (en : EventNotifier) :
  (forall rc, sid (renew rc) = sid rc) ->
  let en' := fst (renewSubscription renew reqSid en) in
  let renewed := snd (renewSubscription renew reqSid en) in
  renewed = (if m_shutdown en then None else renew <$> remoteClient reqSid en) /\
  length (m_remoteClients en') = length (m_remoteClients en) /\
  remoteClient reqSid en'
  = (if m_shutdown en then remoteClient reqSid en else renewed) /\
  (forall other, other <> reqSid ->
     remoteClient other en' = remoteClient other en).
Proof.
  intros Hsid. unfold renewSubscription, remoteClient.
  destruct (m_shutdown en); cbn [fst snd]; [repeat split; reflexivity|].
  destruct (renewFirst_find renew reqSid (m_remoteClients en)) as [Hfind Hlen].
  pose proof (renewFirst_same renew reqSid (m_remoteClients en) Hsid) as Hsame.
  pose proof (fun other => renewFirst_other renew reqSid other
                             (m_remoteClients en) Hsid) as Hother.
  destruct (renewFirst renew reqSid (m_remoteClients en)) as [clients found].
  cbn [fst snd m_remoteClients] in *.
  split; [exact Hfind|]. split; [exact Hlen|]. split; [exact Hsame|exact Hother].
Qed.

(** ** Sample runs *)

Lemma subscribers_stay_distinct_witness :
  NoDup (map subscriberKey
           (m_remoteClients
              (fold_left serve
                 [Subscribe "uuid:sid-1" Samples.eventedService Samples.sampleRequest;
                  Subscribe "uuid:sid-2" Samples.eventedService Samples.sampleRequest;
                  StateChanged Samples.eventedService "<e:propertyset/>"]
                 EventNotifier_ctor))).
Proof.
  apply (subscribers_stay_distinct
           [Subscribe "uuid:sid-1" Samples.eventedService Samples.sampleRequest;
            Subscribe "uuid:sid-2" Samples.eventedService Samples.sampleRequest;
            StateChanged Samples.eventedService "<e:propertyset/>"]
           EventNotifier_ctor).
  simpl. constructor.
Defined.

Lemma addSubscriber_then_remoteClient_witness :
  remoteClient "uuid:sid-1"
    (fst (addSubscriber "uuid:sid-1" Samples.eventedService
                        Samples.sampleRequest EventNotifier_ctor))
  = Some (mkSubscriber Samples.eventedService "http://10.0.0.9/cb" 1800
                       "uuid:sid-1" false).
Proof.
  apply (addSubscriber_then_remoteClient
           "uuid:sid-1" Samples.eventedService Samples.sampleRequest
           EventNotifier_ctor
           (fst (addSubscriber "uuid:sid-1" Samples.eventedService
                               Samples.sampleRequest EventNotifier_ctor))
           (mkSubscriber Samples.eventedService "http://10.0.0.9/cb" 1800
                         "uuid:sid-1" false)).
  - reflexivity.
  - vm_compute. reflexivity.
Defined.

Lemma removeSubscriber_then_remoteClient_witness :
  remoteClient "uuid:sid-1"
    (fst (removeSubscriber "uuid:sid-1"
            (fst (addSubscriber "uuid:sid-1" Samples.eventedService
                                Samples.sampleRequest EventNotifier_ctor))))
  = None.
Proof.
  apply (proj2 (proj2 (proj2
           (removeSubscriber_then_remoteClient
              "uuid:sid-1"
              (fst (addSubscriber "uuid:sid-1" Samples.eventedService
                                  Samples.sampleRequest EventNotifier_ctor)))))).
  - vm_compute. repeat constructor. intros H. inversion H.
  - vm_compute. reflexivity.
Defined.

Lemma renewSubscription_renews_remoteClient_witness :
  snd (renewSubscription (fun rc => rc) "uuid:sid-1"
         (fst (addSubscriber "uuid:sid-1" Samples.eventedService
                             Samples.sampleRequest EventNotifier_ctor)))
  = Some (mkSubscriber Samples.eventedService "http://10.0.0.9/cb" 1800
                       "uuid:sid-1" false).
Proof.
  apply (renewSubscription_renews_remoteClient
           (fun rc => rc) "uuid:sid-1"
           (fst (addSubscriber "uuid:sid-1" Samples.eventedService
                               Samples.sampleRequest EventNotifier_ctor))).
  intros rc. reflexivity.
Defined.

Lemma stateChanged_sweeps_expired_witness :
  m_remoteClients
    (stateChanged Samples.eventedService "<e:propertyset/>"
       (mkNotifier
          [mkSubscriber Samples.eventedService "http://10.0.0.9/cb" 1800
                        "uuid:sid-1" true;
           mkSubscriber Samples.plainService "http://10.0.0.9/cb" 86400
                        "uuid:sid-2" false]
          false []))
  = [mkSubscriber Samples.plainService "http://10.0.0.9/cb" 86400
                  "uuid:sid-2" false].
Proof.
  apply (stateChanged_sweeps_expired
           Samples.eventedService "<e:propertyset/>"
           (mkNotifier
              [mkSubscriber Samples.eventedService "http://10.0.0.9/cb" 1800
                            "uuid:sid-1" true;
               mkSubscriber Samples.plainService "http://10.0.0.9/cb" 86400
                            "uuid:sid-2" false]
              false [])).
  reflexivity.
Defined.

End NotifierStoreProperties.

(* ===================================================================== *)
(** * The subscription manager keeps its maps together                    *)
(* ===================================================================== *)

Module SubscriptionStoreProperties.
Import SubscriptionManager SubscriptionRemoval SubscriptionProperties.

Section Store.

Variable getSuitableHttpServerRootUrl : list string -> string.
Variable HEventSubscription_subscribe : HEventSubscription -> HEventSubscription.

Let subscribe :=
  subscribe getSuitableHttpServerRootUrl HEventSubscription_subscribe.

Hypothesis subscribe_keeps_service :
  forall sub, service (HEventSubscription_subscribe sub) = service sub.

Lemma findSubscription_alter
    (objs : gmap nat HEventSubscription) (srv : HServiceProxy)
    (subs : list nat) (a : nat) (sub : HEventSubscription) :
  findSubscription objs srv subs = Some (a, sub) ->
  findSubscription (alter HEventSubscription_subscribe a objs) srv subs
  = Some (a, HEventSubscription_subscribe sub).
Proof.
  induction subs as [|b rest IH]; cbn [findSubscription]; [discriminate|].
  destruct (decide (b = a)) as [->|Hne].
  - rewrite lookup_alter_eq. destruct (objs !! a) as [sa|] eqn:Ha; cbn.
    + rewrite subscribe_keeps_service.
      destruct (Nat.eqb (service sa) (srv_address srv)).
      * intros H. now inversion H.
      * exact IH.
    + exact IH.
  - rewrite lookup_alter_ne by congruence.
    destruct (objs !! b) as [sb|]; [|exact IH].
    destruct (Nat.eqb (service sb) (srv_address srv)); [|exact IH].
    intros H. inversion H. congruence.
Qed.

Lemma findSubscription_new
    (objs : gmap nat HEventSubscription) (srv : HServiceProxy)
    (subs : list nat) (a : nat) (sub : HEventSubscription) :
  objs !! a = None ->
  service sub = srv_address srv ->
  findSubscription objs srv subs = None ->
  findSubscription (<[a := sub]> objs) srv (subs ++ [a]) = Some (a, sub).
Proof.
  intros Hfresh Hsrv.
  induction subs as [|b rest IH]; cbn [findSubscription app].
  - intros _. rewrite lookup_insert_eq, Hsrv, Nat.eqb_refl. reflexivity.
  - destruct (decide (b = a)) as [->|Hne].
    + rewrite lookup_insert_eq, Hsrv, Nat.eqb_refl. reflexivity.
    + rewrite lookup_insert_ne by congruence.
      destruct (objs !! b) as [sb|]; [|exact IH].
      destruct (Nat.eqb (service sb) (srv_address srv)); [discriminate|exact IH].
Qed.

(** X17. What [subscriptionStatus] reports for a service right after
    [subscribe]: when [subscribe] succeeds, the status of the one
    subscription of that service on which [subscribe()] was just called,
    which is the newest entry of [issued]; when the service was already
    subscribed, [Status_Subscribed]; when the service is not evented, what
    it reported before. [subscribe()] on a subscription is taken to leave
    its service as it is. *)
Theorem subscribe_then_status
    (newId : string) (srv : HServiceProxy) (timeout : Z)
    (m : HEventSubscriptionManager) :
  let m' := fst (subscribe newId srv timeout m) in
  match snd (subscribe newId srv timeout m) with
  | Sub_Failed_NotEvented =>
      subscriptionStatus srv m' = subscriptionStatus srv m
  | Sub_AlreadySubscribed =>
      subscriptionStatus srv m' = Status_Subscribed
  | Sub_Success =>
      exists a sub,
        head (issued m') = Some a /\
        objects m' !! a = Some (HEventSubscription_subscribe sub) /\
        service sub = srv_address srv /\
        subscriptionStatus srv m'
        = subscriptionStatus_ (HEventSubscription_subscribe sub)
  end.
Proof.
  unfold subscribe, SubscriptionManager.subscribe, subscriptionStatus.
  destruct (isEvented srv); cbn [negb fst snd]; [|reflexivity].
  destruct (m_subscriptionsByUdn m !! parentUdn srv) as [subs|] eqn:Hsubs.
  - destruct (findSubscription (objects m) srv subs) as [[a sub]|] eqn:Hfind.
    + destruct (subscriptionStatus_ sub) eqn:Hst; cbn [isSubscribed fst snd];
        try (exists a, sub; cbn [callSubscribe objects issued m_subscriptionsByUdn head];
             rewrite Hsubs, (findSubscription_alter _ _ _ _ _ Hfind);
             destruct (findSubscription_Some _ _ _ _ _ Hfind) as (_ & Ha & Hsrv);
             rewrite lookup_alter_eq, Ha; repeat split; try reflexivity; exact Hsrv).
      rewrite Hsubs, Hfind. exact Hst.
    + cbn [fst snd]. unfold subscribeNew, callSubscribe.
      cbn [objects issued m_subscriptionsByUdn head].
      set (a := fresh (dom (objects m))).
      set (sub := createSubscription getSuitableHttpServerRootUrl newId srv timeout).
      exists a, sub. rewrite lookup_insert_eq.
      pose proof (fresh_address_unused (objects m)) as Hfresh. fold a in Hfresh.
      pose proof (findSubscription_new _ srv subs a sub Hfresh eq_refl Hfind) as Hnew.
      rewrite (findSubscription_alter _ _ _ _ _ Hnew).
      rewrite lookup_alter_eq, lookup_insert_eq. repeat split; reflexivity.
  - cbn [fst snd]. unfold subscribeNew, callSubscribe.
    cbn [objects issued m_subscriptionsByUdn head].
    set (a := fresh (dom (objects m))).
    set (sub := createSubscription getSuitableHttpServerRootUrl newId srv timeout).
    exists a, sub. rewrite lookup_insert_eq.
    pose proof (fresh_address_unused (objects m)) as Hfresh. fold a in Hfresh.
    pose proof (findSubscription_new _ srv [] a sub Hfresh eq_refl eq_refl) as Hnew.
    rewrite (findSubscription_alter _ _ _ _ _ Hnew).
    rewrite lookup_alter_eq, lookup_insert_eq. repeat split; reflexivity.
Qed.


Hypothesis subscribe_keeps_id :
  forall sub, id (HEventSubscription_subscribe sub) = id sub.

(** ** The maps stay consistent *)

Lemma servicesOf_ext (objs objs' : gmap nat HEventSubscription) (subs : list nat) :
  (forall a, a ∈ subs -> service <$> objs' !! a = service <$> objs !! a) ->
  servicesOf objs' subs = servicesOf objs subs.
Proof.
  unfold servicesOf. induction subs as [|a rest IH]; intros H; [reflexivity|].
  cbn [omap list_omap]. rewrite H by (left).
  rewrite IH; [reflexivity|]. intros b Hb. apply H. now right.
Qed.

Lemma servicesOf_app (objs : gmap nat HEventSubscription) (l k : list nat) :
  servicesOf objs (l ++ k) = (servicesOf objs l ++ servicesOf objs k)%list.
Proof. unfold servicesOf. apply omap_app. Qed.

Lemma elem_of_servicesOf (objs : gmap nat HEventSubscription) (subs : list nat)
    (s : nat) :
  s ∈ servicesOf objs subs <->
  exists a sub, a ∈ subs /\ objs !! a = Some sub /\ service sub = s.
Proof.
  unfold servicesOf. rewrite list_elem_of_omap. split.
  - intros (a & Ha & Hs). destruct (objs !! a) as [sub|] eqn:E; [|discriminate].
    cbn in Hs. inversion Hs. eauto.
  - intros (a & sub & Ha & Hsub & Hs). exists a. rewrite Hsub. cbn.
    split; [exact Ha | now rewrite Hs].
Qed.

(** Changing subscription objects in place, without touching their ids
    and services, keeps the maps consistent. *)
Lemma consistent_update (m : HEventSubscriptionManager)
    (objs' : gmap nat HEventSubscription) (l : list nat) :
  consistent m ->
  (forall a, match objs' !! a, objects m !! a with
             | Some s', Some s => id s' = id s /\ service s' = service s
             | None, None => True
             | _, _ => False
             end) ->
  consistent {| objects := objs';
                m_subscribtionsByUuid := m_subscribtionsByUuid m;
                m_subscriptionsByUdn := m_subscriptionsByUdn m;
                issued := l |}.
Proof.
  intros [C1 C2 C3 C4 C5] Hsame.
  assert (Hsvc : forall a, service <$> objs' !! a = service <$> objects m !! a).
  { intros a. specialize (Hsame a).
    destruct (objs' !! a), (objects m !! a); cbn; try tauto.
    destruct Hsame as [_ ->]. reflexivity. }
  split; cbn [objects m_subscribtionsByUuid m_subscriptionsByUdn].
  - intros udn subs a Hu Ha. destruct (C1 udn subs a Hu Ha) as [s Hs].
    specialize (Hsame a). rewrite Hs in Hsame.
    destruct (objs' !! a); [eauto|tauto].
  - intros udn subs Hu. rewrite (servicesOf_ext (objects m)); [eauto|].
    intros a _. apply Hsvc.
  - intros i a Hi. destruct (C3 i a Hi) as (s & Hs & Hid).
    specialize (Hsame a). rewrite Hs in Hsame.
    destruct (objs' !! a) as [s'|]; [|tauto]. exists s'.
    split; [reflexivity|]. destruct Hsame. congruence.
  - intros a s' Hs'. specialize (Hsame a). rewrite Hs' in Hsame.
    destruct (objects m !! a) as [s|] eqn:Hs; [|tauto].
    destruct Hsame as [-> _]. now apply C4.
  - exact C5.
Qed.

Lemma consistent_alter (m : HEventSubscriptionManager)
    (f : HEventSubscription -> HEventSubscription) (a : nat) (l : list nat) :
  (forall s, id (f s) = id s /\ service (f s) = service s) ->
  consistent m ->
  consistent {| objects := alter f a (objects m);
                m_subscribtionsByUuid := m_subscribtionsByUuid m;
                m_subscriptionsByUdn := m_subscriptionsByUdn m;
                issued := l |}.
Proof.
  intros Hf Hm. apply consistent_update; [exact Hm|].
  intros b. destruct (decide (b = a)) as [->|Hne].
  - rewrite lookup_alter_eq. destruct (objects m !! a); cbn; [apply Hf|exact I].
  - rewrite lookup_alter_ne by congruence.
    destruct (objects m !! b); [split; reflexivity|exact I].
Qed.

Lemma consistent_ctor : consistent HEventSubscriptionManager_ctor.
Proof.
  split; cbn; intros; try (rewrite lookup_empty in *; discriminate).
Qed.

Lemma findSubscription_None_services
    (objs : gmap nat HEventSubscription) (srv : HServiceProxy) (subs : list nat) :
  findSubscription objs srv subs = None ->
  srv_address srv ∉ servicesOf objs subs.
Proof.
  intros Hnone Hin. apply elem_of_servicesOf in Hin.
  destruct Hin as (a & sub & Ha & Hsub & Hs).
  apply list_elem_of_In in Ha.
  now apply (findSubscription_None _ _ _ Hnone a sub Ha Hsub).
Qed.

Lemma subscribeNew_consistent
    (newId : string) (srv : HServiceProxy) (timeout : Z)
    (subs : list nat) (m : HEventSubscriptionManager) :
  consistent m ->
  m_subscribtionsByUuid m !! newId = None ->
  (m_subscriptionsByUdn m !! parentUdn srv = Some subs \/
   m_subscriptionsByUdn m !! parentUdn srv = None /\ subs = []) ->
  findSubscription (objects m) srv subs = None ->
  consistent (subscribeNew getSuitableHttpServerRootUrl
                HEventSubscription_subscribe newId srv timeout subs m).
Proof.
  intros Hm Hid Hsubs Hnone. unfold subscribeNew, callSubscribe.
  cbn [objects m_subscribtionsByUuid m_subscriptionsByUdn issued].
  set (a := fresh (dom (objects m))).
  set (sub := createSubscription getSuitableHttpServerRootUrl newId srv timeout).
  pose proof (fresh_address_unused (objects m)) as Hfresh. fold a in Hfresh.
  match goal with
  | |- consistent {| objects := alter ?f a ?o; m_subscribtionsByUuid := ?u;
                     m_subscriptionsByUdn := ?d; issued := ?l |} =>
      apply (consistent_alter
               {| objects := o; m_subscribtionsByUuid := u;
                  m_subscriptionsByUdn := d; issued := issued m |} f a l)
  end.
  { intros s0. split; [apply subscribe_keeps_id | apply subscribe_keeps_service]. }
  destruct Hm as [C1 C2 C3 C4 C5].
  assert (Hold : forall udn l b, m_subscriptionsByUdn m !! udn = Some l ->
                                 b ∈ l -> b <> a).
  { intros udn l b Hu Hb ->. destruct (C1 udn l a Hu Hb) as [s Hs]. congruence. }
  assert (Hsubs_old : forall b, b ∈ subs -> b <> a).
  { intros b Hb. destruct Hsubs as [Hs|[_ ->]]; [eapply Hold; eauto|].
    now apply elem_of_nil in Hb. }
  change (id sub) with newId.
  split; cbn [objects m_subscribtionsByUuid m_subscriptionsByUdn].
  - intros udn l b Hu Hb.
    destruct (decide (udn = parentUdn srv)) as [->|Hne].
    + rewrite lookup_insert_eq in Hu. inversion Hu; subst l; clear Hu.
      apply elem_of_app in Hb. destruct Hb as [Hb|Hb].
      * rewrite lookup_insert_ne by (apply not_eq_sym; now apply Hsubs_old).
        destruct Hsubs as [Hs|[_ ->]]; [eapply C1; eauto|].
        now apply elem_of_nil in Hb.
      * apply list_elem_of_singleton in Hb. subst b.
        rewrite lookup_insert_eq. eauto.
    + rewrite lookup_insert_ne in Hu by congruence.
      rewrite lookup_insert_ne by (apply not_eq_sym; eapply Hold; eauto).
      eapply C1; eauto.
  - intros udn l Hu.
    destruct (decide (udn = parentUdn srv)) as [->|Hne].
    + rewrite lookup_insert_eq in Hu. inversion Hu; subst l; clear Hu.
      rewrite servicesOf_app.
      rewrite (servicesOf_ext (objects m) _ subs).
      2:{ intros b Hb. rewrite lookup_insert_ne; [reflexivity|].
          apply not_eq_sym. now apply Hsubs_old. }
      unfold servicesOf at 2. cbn [omap list_omap]. rewrite lookup_insert_eq.
      cbn. apply NoDup_app. split; [|split; [|apply NoDup_singleton]].
      * destruct Hsubs as [Hs|[_ ->]]; [eapply C2; eauto|constructor].
      * intros s Hs Hs'. apply list_elem_of_singleton in Hs'. subst s.
        now apply (findSubscription_None_services _ _ _ Hnone).
    + rewrite lookup_insert_ne in Hu by congruence.
      rewrite (servicesOf_ext (objects m)); [eapply C2; eauto|].
      intros b Hb. rewrite lookup_insert_ne; [reflexivity|].
      apply not_eq_sym. eapply Hold; eauto.
  - intros i b Hi. destruct (decide (i = newId)) as [->|Hne].
    + rewrite lookup_insert_eq in Hi. inversion Hi; subst b.
      rewrite lookup_insert_eq. exists sub. split; reflexivity.
    + rewrite lookup_insert_ne in Hi by congruence.
      destruct (C3 i b Hi) as (s & Hs & Hsid).
      rewrite lookup_insert_ne by congruence. eauto.
  - intros b s Hb. destruct (decide (b = a)) as [->|Hne].
    + rewrite lookup_insert_eq in Hb. inversion Hb; subst s.
      change (id sub) with newId. apply lookup_insert_eq.
    + rewrite lookup_insert_ne in Hb by congruence.
      pose proof (C4 b s Hb) as Hidx.
      rewrite lookup_insert_ne by congruence. exact Hidx.
  - intros udn1 udn2 l1 l2 b H1 H2 Hb1 Hb2.
    destruct (decide (udn1 = parentUdn srv)) as [->|Hne1];
      destruct (decide (udn2 = parentUdn srv)) as [->|Hne2]; [reflexivity| | |].
    + rewrite lookup_insert_eq in H1. rewrite lookup_insert_ne in H2 by congruence.
      inversion H1; subst l1; clear H1.
      apply elem_of_app in Hb1. destruct Hb1 as [Hb1|Hb1].
      * destruct Hsubs as [Hs|[_ ->]]; [eapply C5; eauto|].
        now apply elem_of_nil in Hb1.
      * apply list_elem_of_singleton in Hb1. subst b.
        exfalso. eapply Hold; eauto.
    + rewrite lookup_insert_eq in H2. rewrite lookup_insert_ne in H1 by congruence.
      inversion H2; subst l2; clear H2.
      apply elem_of_app in Hb2. destruct Hb2 as [Hb2|Hb2].
      * destruct Hsubs as [Hs|[_ ->]]; [eapply C5; eauto|].
        now apply elem_of_nil in Hb2.
      * apply list_elem_of_singleton in Hb2. subst b.
        exfalso. eapply Hold; eauto.
    + rewrite lookup_insert_ne in H1, H2 by congruence. eapply C5; eauto.
Qed.

Lemma subscribe_consistent
    (newId : string) (srv : HServiceProxy) (timeout : Z)
    (m : HEventSubscriptionManager) :
  consistent m ->
  m_subscribtionsByUuid m !! newId = None ->
  consistent (fst (subscribe newId srv timeout m)).
Proof.
  intros Hm Hid. unfold subscribe, SubscriptionManager.subscribe.
  destruct (isEvented srv); cbn [negb fst]; [|exact Hm].
  destruct (m_subscriptionsByUdn m !! parentUdn srv) as [subs|] eqn:Hsubs.
  - destruct (findSubscription (objects m) srv subs) as [[a sub]|] eqn:Hfind.
    + destruct (isSubscribed (subscriptionStatus_ sub)); cbn [fst]; [exact Hm|].
      unfold callSubscribe. apply consistent_alter; [|exact Hm].
      intros s0. split; [apply subscribe_keeps_id | apply subscribe_keeps_service].
    + cbn [fst]. apply subscribeNew_consistent; auto.
  - cbn [fst]. apply subscribeNew_consistent; auto.
Qed.


(** *** Removing the subscription of a service *)

Lemma eraseSubscription_Some
    (objs : gmap nat HEventSubscription) (srv : HServiceProxy)
    (subs subs' : list nat) (a : nat) (sub : HEventSubscription) :
  eraseSubscription objs srv subs = Some (a, sub, subs') ->
  exists l1 l2,
    subs = (l1 ++ a :: l2)%list /\ subs' = (l1 ++ l2)%list /\
    objs !! a = Some sub /\ service sub = srv_address srv /\
    findSubscription objs srv subs = Some (a, sub).
Proof.
  revert subs'. induction subs as [|b rest IH]; intros subs';
    cbn [eraseSubscription findSubscription]; [discriminate|].
  assert (Hfurther :
            match eraseSubscription objs srv rest with
            | Some (b0, sub0, rest') => Some (b0, sub0, b :: rest')
            | None => None
            end = Some (a, sub, subs') ->
            exists l1 l2,
              (b :: rest = l1 ++ a :: l2)%list /\ subs' = (l1 ++ l2)%list /\
              objs !! a = Some sub /\ service sub = srv_address srv /\
              findSubscription objs srv rest = Some (a, sub)).
  { destruct (eraseSubscription objs srv rest) as [[[b0 sub0] rest']|];
      [|discriminate].
    intros H. inversion H; subst b0 sub0 subs'; clear H.
    destruct (IH rest' eq_refl) as (l1 & l2 & -> & -> & Ha & Hs & Hf).
    exists (b :: l1), l2. repeat split; assumption. }
  destruct (objs !! b) as [sb|] eqn:Hb.
  - destruct (Nat.eqb_spec (service sb) (srv_address srv)) as [Heq|Hne].
    + intros H. inversion H; subst. exists [], subs'. repeat split; assumption.
    + exact Hfurther.
  - exact Hfurther.
Qed.

Lemma eraseSubscription_None
    (objs : gmap nat HEventSubscription) (srv : HServiceProxy) (subs : list nat) :
  eraseSubscription objs srv subs = None ->
  findSubscription objs srv subs = None.
Proof.
  induction subs as [|b rest IH]; cbn [eraseSubscription findSubscription];
    [reflexivity|].
  destruct (eraseSubscription objs srv rest) as [[[b0 sub0] rest']|].
  - destruct (objs !! b) as [sb|]; [|discriminate].
    destruct (Nat.eqb (service sb) (srv_address srv)); discriminate.
  - destruct (objs !! b) as [sb|]; [|intros _; now apply IH].
    destruct (Nat.eqb (service sb) (srv_address srv)); [discriminate|].
    intros _. now apply IH.
Qed.

(** Deleting an object that does not belong to a service, and taking its
    address off a list, does not change what the search for that service
    finds. *)
Lemma findSubscription_delete
    (objs : gmap nat HEventSubscription) (srv : HServiceProxy)
    (l1 l2 : list nat) (a : nat) (sub : HEventSubscription) :
  objs !! a = Some sub ->
  service sub <> srv_address srv ->
  findSubscription (delete a objs) srv (l1 ++ l2)
  = findSubscription objs srv (l1 ++ a :: l2).
Proof.
  intros Ha Hs.
  assert (Hsame : forall l, findSubscription (delete a objs) srv l
                            = findSubscription objs srv l).
  { induction l as [|b rest IH]; cbn [findSubscription]; [reflexivity|].
    destruct (decide (b = a)) as [->|Hne].
    - rewrite lookup_delete_eq, Ha.
      destruct (Nat.eqb_spec (service sub) (srv_address srv)); [tauto|exact IH].
    - rewrite lookup_delete_ne by congruence. now rewrite IH. }
  rewrite Hsame.
  induction l1 as [|b rest IH]; cbn [app findSubscription].
  - rewrite Ha.
    destruct (Nat.eqb_spec (service sub) (srv_address srv)); [tauto|reflexivity].
  - destruct (objs !! b) as [sb|]; [|exact IH].
    destruct (Nat.eqb (service sb) (srv_address srv)); [reflexivity|exact IH].
Qed.

(** The by-UDN map after [remove(service)]: the list of the device
    without the subscription, or no list when that was the last one. *)
Lemma lookup_after_erase (byUdn : gmap string (list nat)) (udn udn2 : string)
    (subs' l : list nat) :
  match subs' with
  | [] => delete udn byUdn
  | _ => <[udn := subs']> byUdn
  end !! udn2 = Some l ->
  udn2 = udn /\ l = subs' \/ udn2 <> udn /\ byUdn !! udn2 = Some l.
Proof.
  destruct (decide (udn2 = udn)) as [->|Hne].
  - destruct subs'; [rewrite lookup_delete_eq; discriminate|].
    rewrite lookup_insert_eq. intros H. inversion H. now left.
  - destruct subs'; [rewrite lookup_delete_ne by congruence
                    |rewrite lookup_insert_ne by congruence]; intros H; now right.
Qed.

Lemma remove_service_consistent (srv : HServiceProxy) (m : HEventSubscriptionManager) :
  consistent m -> consistent (fst (remove_service srv m)).
Proof.
  intros Hm. unfold remove_service.
  destruct (m_subscriptionsByUdn m !! parentUdn srv) as [subs|] eqn:Hsubs;
    [|exact Hm].
  destruct (eraseSubscription (objects m) srv subs) as [[[a sub] subs']|] eqn:He;
    [|exact Hm].
  cbn [fst].
  apply eraseSubscription_Some in He.
  destruct He as (l1 & l2 & -> & -> & Ha & Hsrv & _).
  destruct Hm as [C1 C2 C3 C4 C5].
  pose proof (C2 _ _ Hsubs) as Hnd.
  rewrite servicesOf_app in Hnd. unfold servicesOf at 2 in Hnd.
  cbn [omap list_omap] in Hnd. rewrite Ha in Hnd. cbn in Hnd.
  fold (servicesOf (objects m) l2) in Hnd.
  apply NoDup_app in Hnd. destruct Hnd as (Hnd1 & Hcross & Hnd2).
  apply NoDup_cons in Hnd2. destruct Hnd2 as [Hnot2 Hnd2].
  assert (Hnot1 : service sub ∉ servicesOf (objects m) l1).
  { intros Hin. apply (Hcross _ Hin). now left. }
  assert (Hrest : forall b, b ∈ (l1 ++ l2)%list -> b <> a).
  { intros b Hb ->. apply elem_of_app in Hb. destruct Hb as [Hb|Hb].
    - apply Hnot1. apply elem_of_servicesOf. eauto.
    - apply Hnot2. apply elem_of_servicesOf. eauto. }
  assert (Hin : forall b, b ∈ (l1 ++ l2)%list -> b ∈ (l1 ++ a :: l2)%list).
  { intros b Hb. apply elem_of_app in Hb. apply elem_of_app.
    destruct Hb; [now left | right; now right]. }
  assert (Hother : forall udn2 l b, udn2 <> parentUdn srv ->
            m_subscriptionsByUdn m !! udn2 = Some l -> b ∈ l -> b <> a).
  { intros udn2 l b Hne Hl Hb ->. apply Hne.
    apply (C5 _ _ _ _ a Hl Hsubs Hb). apply elem_of_app. right. now left. }
  split; cbn [objects m_subscribtionsByUuid m_subscriptionsByUdn].
  - intros udn2 l b Hl Hb. apply lookup_after_erase in Hl.
    destruct Hl as [[-> ->]|[Hne Hl]].
    + rewrite lookup_delete_ne by (apply not_eq_sym; now apply Hrest).
      eapply C1; eauto.
    + rewrite lookup_delete_ne by (apply not_eq_sym; eapply Hother; eauto).
      eapply C1; eauto.
  - intros udn2 l Hl. apply lookup_after_erase in Hl.
    destruct Hl as [[-> ->]|[Hne Hl]].
    + rewrite (servicesOf_ext (objects m)).
      2:{ intros b Hb. rewrite lookup_delete_ne; [reflexivity|].
          apply not_eq_sym. now apply Hrest. }
      rewrite servicesOf_app. apply NoDup_app. split; [exact Hnd1|].
      split; [|exact Hnd2].
      intros s Hs1 Hs2. apply (Hcross _ Hs1). now right.
    + rewrite (servicesOf_ext (objects m)); [eapply C2; eauto|].
      intros b Hb. rewrite lookup_delete_ne; [reflexivity|].
      apply not_eq_sym. eapply Hother; eauto.
  - intros i b Hi. destruct (decide (i = id sub)) as [->|Hne].
    + rewrite lookup_delete_eq in Hi. discriminate.
    + rewrite lookup_delete_ne in Hi by congruence.
      destruct (C3 i b Hi) as (s & Hs & Hsid).
      assert (b <> a) by (intros ->; congruence).
      rewrite lookup_delete_ne by congruence. eauto.
  - intros b s Hb. destruct (decide (b = a)) as [->|Hne].
    + rewrite lookup_delete_eq in Hb. discriminate.
    + rewrite lookup_delete_ne in Hb by congruence.
      pose proof (C4 b s Hb) as Hidx. pose proof (C4 a sub Ha) as Hidx'.
      assert (id sub <> id s) by (intros E; rewrite E in Hidx'; congruence).
      rewrite lookup_delete_ne by congruence. exact Hidx.
  - intros udn1 udn2 k1 k2 b H1 H2 Hb1 Hb2.
    apply lookup_after_erase in H1. apply lookup_after_erase in H2.
    destruct H1 as [[-> ->]|[Hne1 H1]]; destruct H2 as [[-> ->]|[Hne2 H2]];
      [reflexivity| | |]; eapply C5; eauto.
Qed.

(** X18. In a manager whose maps are consistent, after [remove(service)]
    the service is reported as unsubscribed, every other service is
    reported as before, and the maps are consistent again; when [remove]
    returns true, the subscription object of the service is deleted and
    its id is no key of the by-id map any more; when it returns false,
    nothing has changed. *)
Theorem remove_service_unsubscribes
    (srv : HServiceProxy) (m : HEventSubscriptionManager) :
  consistent m ->
  let m' := fst (remove_service srv m) in
  subscriptionStatus srv m' = Status_Unsubscribed /\
  (forall other,
     srv_address other <> srv_address srv ->
     subscriptionStatus other m' = subscriptionStatus other m) /\
  (if snd (remove_service srv m)
   then exists subs a sub,
          m_subscriptionsByUdn m !! parentUdn srv = Some subs /\
          findSubscription (objects m) srv subs = Some (a, sub) /\
          objects m' = delete a (objects m) /\
          m_subscribtionsByUuid m' !! id sub = None
   else m' = m) /\
  consistent m'.
Proof.
  intros Hm m'.
  pose proof (remove_service_consistent srv m Hm) as Hm'. fold m' in Hm'.
  split; [|split; [|split; [|exact Hm']]]; subst m'; clear Hm';
    unfold remove_service, subscriptionStatus.
  - destruct (m_subscriptionsByUdn m !! parentUdn srv) as [subs|] eqn:Hsubs;
      [|cbn [fst]; now rewrite Hsubs].
    destruct (eraseSubscription (objects m) srv subs) as [[[a sub] subs']|] eqn:He.
    + cbn [fst objects m_subscriptionsByUdn].
      apply eraseSubscription_Some in He.
      destruct He as (l1 & l2 & -> & -> & Ha & Hsrv & _).
      destruct (l1 ++ l2)%list as [|b k] eqn:Hl;
        [now rewrite lookup_delete_eq|].
      rewrite lookup_insert_eq, <- Hl.
      destruct (findSubscription (delete a (objects m)) srv (l1 ++ l2))
        as [[b' sb']|] eqn:Hf; [|reflexivity].
      exfalso. apply findSubscription_Some in Hf.
      destruct Hf as (Hin & Hb' & Hs').
      apply list_elem_of_In in Hin.
      destruct (decide (b' = a)) as [->|Hne];
        [rewrite lookup_delete_eq in Hb'; discriminate|].
      rewrite lookup_delete_ne in Hb' by congruence.
      pose proof (one_per_service m Hm _ _ Hsubs) as Hnd.
      rewrite servicesOf_app in Hnd. unfold servicesOf at 2 in Hnd.
      cbn [omap list_omap] in Hnd. rewrite Ha in Hnd. cbn in Hnd.
      fold (servicesOf (objects m) l2) in Hnd.
      apply NoDup_app in Hnd. destruct Hnd as (_ & Hcross & Hnd2).
      apply NoDup_cons in Hnd2. destruct Hnd2 as [Hnot2 _].
      apply elem_of_app in Hin. destruct Hin as [Hin|Hin].
      * apply (Hcross (service sub)); [|now left].
        apply elem_of_servicesOf. exists b', sb'. repeat split; congruence.
      * apply Hnot2. apply elem_of_servicesOf. exists b', sb'.
        repeat split; congruence.
    + cbn [fst]. rewrite Hsubs. now rewrite (eraseSubscription_None _ _ _ He).
  - intros other Hother.
    destruct (m_subscriptionsByUdn m !! parentUdn srv) as [subs|] eqn:Hsubs;
      [|reflexivity].
    destruct (eraseSubscription (objects m) srv subs) as [[[a sub] subs']|] eqn:He;
      [|reflexivity].
    cbn [fst objects m_subscriptionsByUdn].
    apply eraseSubscription_Some in He.
    destruct He as (l1 & l2 & -> & -> & Ha & Hsrv & _).
    assert (Hsvc : service sub <> srv_address other) by congruence.
    destruct (decide (parentUdn other = parentUdn srv)) as [E|Hne].
    + rewrite E, Hsubs.
      rewrite <- (findSubscription_delete _ other l1 l2 a sub Ha Hsvc).
      destruct (l1 ++ l2)%list as [|b k] eqn:Hl.
      * now rewrite lookup_delete_eq.
      * now rewrite lookup_insert_eq.
    + replace (match (l1 ++ l2)%list with
               | [] => delete (parentUdn srv) (m_subscriptionsByUdn m)
               | _ :: _ => <[parentUdn srv := (l1 ++ l2)%list]> (m_subscriptionsByUdn m)
               end !! parentUdn other)
        with (m_subscriptionsByUdn m !! parentUdn other).
      2:{ destruct (l1 ++ l2)%list;
            [now rewrite lookup_delete_ne by congruence
            |now rewrite lookup_insert_ne by congruence]. }
      destruct (m_subscriptionsByUdn m !! parentUdn other) as [k|]; [|reflexivity].
      pose proof (findSubscription_delete (objects m) other [] k a sub Ha Hsvc) as Hd.
      cbn [app findSubscription] in Hd. rewrite Ha in Hd.
      destruct (Nat.eqb_spec (service sub) (srv_address other)); [tauto|].
      now rewrite Hd.
  - destruct (m_subscriptionsByUdn m !! parentUdn srv) as [subs|] eqn:Hsubs;
      [|reflexivity].
    destruct (eraseSubscription (objects m) srv subs) as [[[a sub] subs']|] eqn:He;
      [|reflexivity].
    cbn [fst snd objects m_subscribtionsByUuid].
    apply eraseSubscription_Some in He.
    destruct He as (l1 & l2 & -> & -> & Ha & Hsrv & Hf).
    exists (l1 ++ a :: l2)%list, a, sub.
    split; [reflexivity|]. split; [exact Hf|]. split; [reflexivity|].
    apply lookup_delete_eq.
Qed.


(** *** Removing the subscriptions of a device *)

Lemma deleteSubscription_fold (subs : list nat) :
  forall m,
    (forall i a, m_subscribtionsByUuid m !! i = Some a ->
                 exists sub, objects m !! a = Some sub /\ id sub = i) ->
    (forall a sub, objects m !! a = Some sub ->
                   m_subscribtionsByUuid m !! id sub = Some a) ->
    let m1 := fold_left deleteSubscription subs m in
    m_subscriptionsByUdn m1 = m_subscriptionsByUdn m /\
    issued m1 = issued m /\
    (forall b, objects m1 !! b
               = if decide (b ∈ subs) then None else objects m !! b) /\
    (forall i a, m_subscribtionsByUuid m1 !! i = Some a ->
                 m_subscribtionsByUuid m !! i = Some a /\
                 exists sub, objects m1 !! a = Some sub /\ id sub = i) /\
    (forall a sub, objects m1 !! a = Some sub ->
                   m_subscribtionsByUuid m1 !! id sub = Some a).
Proof.
  induction subs as [|a rest IH]; intros m C3 C4.
  - cbn [fold_left]. split; [reflexivity|]. split; [reflexivity|].
    split; [intros b; destruct (decide (b ∈ [])) as [H|_];
            [now apply elem_of_nil in H|reflexivity]|].
    split; [|exact C4]. intros i a Hi. split; [exact Hi|]. now apply C3.
  - cbn [fold_left].
    assert (Hstep :
              m_subscriptionsByUdn (deleteSubscription m a) = m_subscriptionsByUdn m /\
              issued (deleteSubscription m a) = issued m /\
              (forall b, objects (deleteSubscription m a) !! b
                         = if decide (b = a) then None else objects m !! b) /\
              (forall i b, m_subscribtionsByUuid (deleteSubscription m a) !! i = Some b ->
                           m_subscribtionsByUuid m !! i = Some b /\
                           exists sub, objects (deleteSubscription m a) !! b = Some sub
                                       /\ id sub = i) /\
              (forall b sub, objects (deleteSubscription m a) !! b = Some sub ->
                             m_subscribtionsByUuid (deleteSubscription m a) !! id sub
                             = Some b)).
    { unfold deleteSubscription. destruct (objects m !! a) as [sa|] eqn:Ha;
        cbn [objects m_subscribtionsByUuid m_subscriptionsByUdn issued].
      - split; [reflexivity|]. split; [reflexivity|]. split; [|split].
        + intros b. destruct (decide (b = a)) as [->|Hne];
            [apply lookup_delete_eq | now apply lookup_delete_ne].
        + intros i b Hi. destruct (decide (i = id sa)) as [->|Hne];
            [rewrite lookup_delete_eq in Hi; discriminate|].
          rewrite lookup_delete_ne in Hi by congruence.
          split; [exact Hi|]. destruct (C3 i b Hi) as (sb & Hb & Hidb).
          assert (b <> a) by (intros ->; congruence).
          rewrite lookup_delete_ne by congruence. eauto.
        + intros b sb Hb. destruct (decide (b = a)) as [->|Hne];
            [rewrite lookup_delete_eq in Hb; discriminate|].
          rewrite lookup_delete_ne in Hb by congruence.
          pose proof (C4 b sb Hb) as Hidx. pose proof (C4 a sa Ha) as Hidx'.
          assert (id sa <> id sb) by (intros E; rewrite E in Hidx'; congruence).
          rewrite lookup_delete_ne by congruence. exact Hidx.
      - split; [reflexivity|]. split; [reflexivity|]. split; [|split].
        + intros b. destruct (decide (b = a)) as [->|Hne]; [exact Ha|reflexivity].
        + intros i b Hi. split; [exact Hi|]. now apply C3.
        + exact C4. }
    destruct Hstep as (S1 & S2 & S3 & S4 & S5).
    destruct (IH (deleteSubscription m a)) as (I1 & I2 & I3 & I4 & I5).
    { intros i b Hi. now apply S4. }
    { exact S5. }
    split; [congruence|]. split; [congruence|]. split; [|split; [|exact I5]].
    + intros b. rewrite I3, S3.
      destruct (decide (b ∈ rest)) as [Hr|Hr];
        destruct (decide (b = a)) as [->|Hne];
        destruct (decide (_ ∈ a :: rest)) as [Hc|Hc]; try reflexivity;
        exfalso; apply Hc || (apply elem_of_cons in Hc; tauto);
        apply elem_of_cons; tauto.
    + intros i b Hi. destruct (I4 i b Hi) as [Hi' Hb].
      split; [now apply S4|exact Hb].
Qed.

Lemma remove_list_consistent (udn : string) (subs : list nat)
    (m : HEventSubscriptionManager) :
  consistent m ->
  m_subscriptionsByUdn m !! udn = Some subs ->
  let m1 := fold_left deleteSubscription subs m in
  consistent {| objects := objects m1;
                m_subscribtionsByUuid := m_subscribtionsByUuid m1;
                m_subscriptionsByUdn := delete udn (m_subscriptionsByUdn m1);
                issued := issued m1 |}.
Proof.
  intros [C1 C2 C3 C4 C5] Hsubs m1.
  destruct (deleteSubscription_fold subs m C3 C4) as (F1 & F2 & F3 & F4 & F5).
  fold m1 in F1, F2, F3, F4, F5. rewrite F1.
  assert (Hother : forall udn2 l b, udn2 <> udn ->
            m_subscriptionsByUdn m !! udn2 = Some l -> b ∈ l -> b ∉ subs).
  { intros udn2 l b Hne Hl Hb Hb'. apply Hne. eapply C5; eauto. }
  split; cbn [objects m_subscribtionsByUuid m_subscriptionsByUdn].
  - intros udn2 l b Hl Hb.
    destruct (decide (udn2 = udn)) as [->|Hne];
      [rewrite lookup_delete_eq in Hl; discriminate|].
    rewrite lookup_delete_ne in Hl by congruence.
    rewrite F3. destruct (decide (b ∈ subs)) as [Hin|_].
    + exfalso. eapply Hother; eauto.
    + eapply C1; eauto.
  - intros udn2 l Hl.
    destruct (decide (udn2 = udn)) as [->|Hne];
      [rewrite lookup_delete_eq in Hl; discriminate|].
    rewrite lookup_delete_ne in Hl by congruence.
    rewrite (servicesOf_ext (objects m)); [eapply C2; eauto|].
    intros b Hb. rewrite F3. destruct (decide (b ∈ subs)) as [Hin|_]; [|reflexivity].
    exfalso. eapply Hother; eauto.
  - intros i a Hi. now apply F4.
  - exact F5.
  - intros udn1 udn2 l1 l2 b H1 H2.
    destruct (decide (udn1 = udn)) as [->|Hne1];
      [rewrite lookup_delete_eq in H1; discriminate|].
    destruct (decide (udn2 = udn)) as [->|Hne2];
      [rewrite lookup_delete_eq in H2; discriminate|].
    rewrite lookup_delete_ne in H1, H2 by congruence. eapply C5; eauto.
Qed.

Lemma device_induction (P : HDeviceProxy -> Prop) :
  (forall udn devices, Forall P devices -> P (mkDeviceProxy udn devices)) ->
  forall device, P device.
Proof.
  intros Hstep. fix IH 1. intros [udn devices]. apply Hstep.
  induction devices as [|d rest IHrest]; constructor; [apply IH | exact IHrest].
Qed.

Lemma fold_left_preserves {A B} (P : A -> Prop) (f : A -> B -> A) (l : list B) :
  Forall (fun b => forall a, P a -> P (f a b)) l ->
  forall a, P a -> P (fold_left f l a).
Proof.
  induction 1 as [|b rest Hb _ IH]; intros a Ha; [exact Ha|].
  cbn [fold_left]. apply IH. now apply Hb.
Qed.

Lemma remove_device_consistent (recursive : bool) (device : HDeviceProxy) :
  forall m, consistent m -> consistent (fst (remove_device recursive device m)).
Proof.
  induction device as [udn devices IH] using device_induction. intros m Hm.
  cbn [remove_device].
  destruct (m_subscriptionsByUdn m !! udn) as [subs|] eqn:Hsubs; [|exact Hm].
  cbn [fst]. pose proof (remove_list_consistent udn subs m Hm Hsubs) as Hm2.
  cbv zeta in Hm2.
  destruct recursive; [|exact Hm2].
  apply (fold_left_preserves consistent); [|exact Hm2].
  eapply Forall_impl; [exact IH|]. cbn. auto.
Qed.


(** *** Cancelling, notifying, removing everything *)

Variable HEventSubscription_unsubscribe : HEventSubscription -> HEventSubscription.
Variable resetSubscription : HEventSubscription -> HEventSubscription.
Variable HEventSubscription_onNotify :
  HEventSubscription -> HEventSubscription * bool.

Hypothesis unsubscribe_keeps : keepsIdentity HEventSubscription_unsubscribe.
Hypothesis reset_keeps : keepsIdentity resetSubscription.
Hypothesis onNotify_keeps :
  keepsIdentity (fun sub => fst (HEventSubscription_onNotify sub)).

Let cancel_service :=
  cancel_service HEventSubscription_unsubscribe resetSubscription.
Let cancel_device :=
  cancel_device HEventSubscription_unsubscribe resetSubscription.
Let cancelSubscription :=
  cancelSubscription HEventSubscription_unsubscribe resetSubscription.

Lemma cancelSubscription_consistent (unsubscribe : bool)
    (m : HEventSubscriptionManager) (a : nat) :
  consistent m -> consistent (cancelSubscription unsubscribe m a).
Proof.
  intros Hm. unfold cancelSubscription, SubscriptionRemoval.cancelSubscription.
  apply consistent_alter; [|exact Hm].
  destruct unsubscribe; [exact unsubscribe_keeps | exact reset_keeps].
Qed.

Lemma cancel_service_consistent (srv : HServiceProxy) (unsubscribe : bool)
    (m : HEventSubscriptionManager) :
  consistent m -> consistent (fst (cancel_service srv unsubscribe m)).
Proof.
  intros Hm. unfold cancel_service, SubscriptionRemoval.cancel_service.
  destruct (m_subscriptionsByUdn m !! parentUdn srv) as [subs|]; [|exact Hm].
  destruct (findSubscription (objects m) srv subs) as [[a sub]|]; [|exact Hm].
  cbn [fst]. now apply cancelSubscription_consistent.
Qed.

Lemma cancel_device_consistent (unsubscribe : bool) (device : HDeviceProxy) :
  forall visitType m,
    consistent m ->
    consistent (fst (cancel_device visitType unsubscribe device m)).
Proof.
  induction device as [udn devices IH] using device_induction.
  intros visitType m Hm.
  unfold cancel_device. cbn [SubscriptionRemoval.cancel_device].
  destruct (m_subscriptionsByUdn m !! udn) as [subs|]; [|exact Hm].
  cbn [fst].
  assert (Hm1 : consistent
                  (fold_left (SubscriptionRemoval.cancelSubscription
                                HEventSubscription_unsubscribe resetSubscription
                                unsubscribe) subs m)).
  { apply (fold_left_preserves consistent); [|exact Hm].
    apply Forall_forall. intros a _ m0 Hm0.
    now apply cancelSubscription_consistent. }
  destruct visitType; [exact Hm1| |];
    (apply (fold_left_preserves consistent); [|exact Hm1]);
    (eapply Forall_impl; [exact IH|]); cbn; intros d Hd m0 Hm0; now apply Hd.
Qed.

Lemma removeAll_objects (objs : gmap nat HEventSubscription)
    (byUuid : gmap string nat) :
  forall b, (exists i, byUuid !! i = Some b) ->
            map_fold (fun _ a o => delete a o) objs byUuid !! b = None.
Proof.
  apply (map_fold_weak_ind
           (fun r (M : gmap string nat) =>
              forall b, (exists i, M !! i = Some b) -> r !! b = None)).
  - intros b [i Hi]. rewrite lookup_empty in Hi. discriminate.
  - intros i x M r Hnone IH b [j Hj].
    destruct (decide (b = x)) as [->|Hne]; [apply lookup_delete_eq|].
    rewrite lookup_delete_ne by congruence. apply IH.
    destruct (decide (j = i)) as [->|Hji].
    + rewrite lookup_insert_eq in Hj. congruence.
    + rewrite lookup_insert_ne in Hj by congruence. eauto.
Qed.

Lemma removeAll_consistent (m : HEventSubscriptionManager) :
  consistent m -> consistent (removeAll m) /\ objects (removeAll m) = ∅.
Proof.
  intros [C1 C2 C3 C4 C5].
  assert (Hempty : objects (removeAll m) = ∅).
  { unfold removeAll; cbn [objects]. apply map_eq. intros b.
    rewrite lookup_empty.
    destruct (map_fold _ (objects m) (m_subscribtionsByUuid m) !! b) as [sb|] eqn:Hb;
      [|reflexivity].
    exfalso.
    assert (Hsub : objects m !! b = Some sb).
    { revert Hb. apply (map_fold_weak_ind
               (fun r (M : gmap string nat) => r !! b = Some sb ->
                                               objects m !! b = Some sb)).
      - auto.
      - intros i x M r _ IH Hx. apply IH.
        destruct (decide (b = x)) as [->|Hne];
          [rewrite lookup_delete_eq in Hx; discriminate|].
        now rewrite lookup_delete_ne in Hx by congruence. }
    pose proof (removeAll_objects (objects m) (m_subscribtionsByUuid m) b) as Hgone.
    rewrite Hgone in Hb; [discriminate|]. eauto. }
  split; [|exact Hempty].
  split; rewrite ?Hempty; cbn [m_subscribtionsByUuid m_subscriptionsByUdn removeAll];
    intros; rewrite lookup_empty in *; discriminate.
Qed.

Lemma onNotify_consistent (callbackId : string) (m : HEventSubscriptionManager) :
  consistent m ->
  consistent (fst (onNotify HEventSubscription_onNotify callbackId m)).
Proof.
  intros Hm. unfold onNotify.
  destruct (m_subscribtionsByUuid m !! callbackId) as [a|]; [|exact Hm].
  destruct (objects m !! a) as [sub|] eqn:Ha; [|exact Hm].
  pose proof (onNotify_keeps sub) as Hk. cbn beta in Hk.
  destruct (HEventSubscription_onNotify sub) as [sub' ok]. cbn [fst] in *.
  apply consistent_update; [exact Hm|].
  intros b. destruct (decide (b = a)) as [->|Hne].
  - rewrite lookup_insert_eq, Ha. exact Hk.
  - rewrite lookup_insert_ne by congruence.
    destruct (objects m !! b); [split; reflexivity|exact I].
Qed.

(** X19. The maps of the manager stay consistent under every sequence of
    [subscribe], [cancel] and [remove] of a service or of a device,
    [removeAll] and [onNotify], as long as every new subscription draws an
    id that is not in use and the methods of [HEventSubscription] leave
    the id and the service of a subscription as they are: every address in
    a device's list is the address of an object, no list holds two
    subscriptions of one service, the by-id map and the objects agree, and
    no subscription is listed under two devices. *)
Theorem operations_keep_consistent
    (ops : list Operation) (m : HEventSubscriptionManager) :
  consistent m ->
  freshIds getSuitableHttpServerRootUrl HEventSubscription_subscribe
           HEventSubscription_unsubscribe resetSubscription
           HEventSubscription_onNotify m ops ->
  consistent (fold_left
                (perform getSuitableHttpServerRootUrl HEventSubscription_subscribe
                         HEventSubscription_unsubscribe resetSubscription
                         HEventSubscription_onNotify) ops m).
Proof.
  revert m. induction ops as [|op rest IH]; intros m Hm Hfresh; [exact Hm|].
  cbn [fold_left]. destruct Hfresh as [Hop Hrest]. apply IH; [|exact Hrest].
  destruct op; cbn [perform freshId] in *.
  - now apply subscribe_consistent.
  - now apply cancel_service_consistent.
  - now apply cancel_device_consistent.
  - now apply remove_service_consistent.
  - now apply remove_device_consistent.
  - now apply removeAll_consistent.
  - now apply onNotify_consistent.
Qed.

(** *** What [remove(device, recursive)] reaches *)

Lemma deleteSubscription_byUdn (subs : list nat) :
  forall m, m_subscriptionsByUdn (fold_left deleteSubscription subs m)
            = m_subscriptionsByUdn m.
Proof.
  induction subs as [|a rest IH]; intros m; [reflexivity|].
  cbn [fold_left]. rewrite IH. unfold deleteSubscription.
  destruct (objects m !! a); reflexivity.
Qed.

Lemma remove_device_untouched (recursive : bool) (device : HDeviceProxy) :
  forall m udn,
    udn ∉ (if recursive then udnsOf device else [dev_udn device]) ->
    m_subscriptionsByUdn (fst (remove_device recursive device m)) !! udn
    = m_subscriptionsByUdn m !! udn.
Proof.
  induction device as [u devices IH] using device_induction. intros m udn Hnot.
  cbn [remove_device].
  destruct (m_subscriptionsByUdn m !! u) as [subs|] eqn:Hsubs; [|reflexivity].
  cbn [fst].
  assert (Hne : udn <> u).
  { intros ->. apply Hnot. destruct recursive; cbn [udnsOf dev_udn]; now left. }
  destruct recursive.
  - cbn [udnsOf] in Hnot.
    assert (Hch : udn ∉ flat_map udnsOf devices)
      by (intros H; apply Hnot; now right).
    clear Hnot.
    match goal with
    | |- m_subscriptionsByUdn (fold_left _ _ ?m2) !! _ = _ =>
        assert (Hm2 : m_subscriptionsByUdn m2 !! udn = m_subscriptionsByUdn m !! udn)
          by (cbn [m_subscriptionsByUdn];
              rewrite lookup_delete_ne by congruence;
              now rewrite deleteSubscription_byUdn);
        rewrite <- Hm2; generalize m2
    end.
    clear Hm2 Hsubs. induction IH as [|d rest Hd _ IHrest]; intros m2;
      [reflexivity|].
    cbn [fold_left flat_map] in *.
    rewrite IHrest.
    + apply Hd. cbn [udnsOf]. intros H. apply Hch. apply elem_of_app. now left.
    + intros H. apply Hch. apply elem_of_app. now right.
  - cbn [m_subscriptionsByUdn]. rewrite lookup_delete_ne by congruence.
    now rewrite deleteSubscription_byUdn.
Qed.

Lemma remove_device_monotone (recursive : bool) (device : HDeviceProxy) :
  forall m udn,
    m_subscriptionsByUdn m !! udn = None ->
    m_subscriptionsByUdn (fst (remove_device recursive device m)) !! udn = None.
Proof.
  induction device as [u devices IH] using device_induction. intros m udn Hnone.
  cbn [remove_device].
  destruct (m_subscriptionsByUdn m !! u) as [subs|] eqn:Hsubs; [|exact Hnone].
  cbn [fst].
  match goal with
  | |- m_subscriptionsByUdn (if recursive then fold_left _ _ ?m2 else _) !! _ = _ =>
      assert (Hm2 : m_subscriptionsByUdn m2 !! udn = None)
        by (cbn [m_subscriptionsByUdn];
            destruct (decide (udn = u)) as [->|Hne];
            [apply lookup_delete_eq
            |rewrite lookup_delete_ne by congruence;
             now rewrite deleteSubscription_byUdn]);
      destruct recursive; [|exact Hm2]; revert Hm2; generalize m2
  end.
  clear Hsubs Hnone. induction IH as [|d rest Hd _ IHrest]; intros m2 Hm2;
    [exact Hm2|].
  cbn [fold_left]. apply IHrest. now apply Hd.
Qed.

(** X20. [remove(device, recursive)] returns true exactly when the device
    has a list of subscriptions; when it has none, nothing changes, not
    even for the embedded devices of a recursive call. Afterwards the
    device has no list and each of its services is reported as
    unsubscribed; the lists of all devices other than the device (and,
    when recursive, the devices below it) are as before; and consistent
    maps stay consistent. *)
Theorem remove_device_scope
    (recursive : bool) (device : HDeviceProxy) (m : HEventSubscriptionManager) :
  let m' := fst (remove_device recursive device m) in
  m_subscriptionsByUdn m' !! dev_udn device = None /\
  (forall srv, parentUdn srv = dev_udn device ->
               subscriptionStatus srv m' = Status_Unsubscribed) /\
  snd (remove_device recursive device m)
  = match m_subscriptionsByUdn m !! dev_udn device with
    | Some _ => true
    | None => false
    end /\
  (m_subscriptionsByUdn m !! dev_udn device = None -> m' = m) /\
  (forall udn,
     udn ∉ (if recursive then udnsOf device else [dev_udn device]) ->
     m_subscriptionsByUdn m' !! udn = m_subscriptionsByUdn m !! udn) /\
  (consistent m -> consistent m').
Proof.
  intros m'.
  assert (Hgone : m_subscriptionsByUdn m' !! dev_udn device = None).
  { subst m'. destruct device as [u devices]. cbn [remove_device dev_udn].
    destruct (m_subscriptionsByUdn m !! u) as [subs|] eqn:Hsubs;
      [|exact Hsubs].
    cbn [fst].
    match goal with
    | |- m_subscriptionsByUdn (if recursive then fold_left _ _ ?m2 else _) !! _ = _ =>
        assert (Hm2 : m_subscriptionsByUdn m2 !! u = None)
          by (cbn [m_subscriptionsByUdn]; apply lookup_delete_eq);
        destruct recursive; [|exact Hm2]; revert Hm2; generalize m2
    end.
    clear. induction devices as [|d rest IH]; intros m2 Hm2; [exact Hm2|].
    cbn [fold_left]. apply IH. now apply remove_device_monotone. }
  split; [exact Hgone|]. split; [|split; [|split; [|split]]].
  - intros srv Hsrv. unfold subscriptionStatus. now rewrite Hsrv, Hgone.
  - destruct device as [u devices]. cbn [remove_device dev_udn].
    destruct (m_subscriptionsByUdn m !! u); reflexivity.
  - subst m'. destruct device as [u devices]. cbn [remove_device dev_udn].
    intros ->. reflexivity.
  - intros udn Hudn. now apply remove_device_untouched.
  - apply remove_device_consistent.
Qed.

End Store.

(** ** Sample runs *)

Lemma subscribe_then_status_witness :
  subscriptionStatus Samples.eventedProxy
    (fst (subscribe sampleRootUrl (setStatus Status_Subscribing)
                    "{id-1}" Samples.eventedProxy 1800
                    HEventSubscriptionManager_ctor))
  = Status_Subscribing.
Proof.
  destruct (subscribe_then_status
              sampleRootUrl (setStatus Status_Subscribing)
              (fun sub => eq_refl)
              "{id-1}" Samples.eventedProxy 1800
              HEventSubscriptionManager_ctor)
    as (a & sub & _ & _ & _ & Hstatus).
  exact Hstatus.
Defined.

Lemma remove_service_unsubscribes_witness :
  subscriptionStatus Samples.eventedProxy
    (fst (remove_service Samples.eventedProxy
            (fst (subscribe sampleRootUrl (setStatus Status_Subscribing)
                            "{id-1}" Samples.eventedProxy 1800
                            HEventSubscriptionManager_ctor))))
  = Status_Unsubscribed.
Proof.
  apply (remove_service_unsubscribes
           Samples.eventedProxy
           (fst (subscribe sampleRootUrl (setStatus Status_Subscribing)
                           "{id-1}" Samples.eventedProxy 1800
                           HEventSubscriptionManager_ctor))).
  apply subscribe_consistent.
  - intros sub. reflexivity.
  - intros sub. reflexivity.
  - apply consistent_ctor.
  - vm_compute. reflexivity.
Defined.

Lemma operations_keep_consistent_witness :
  consistent
    (fold_left
       (perform sampleRootUrl (setStatus Status_Subscribing)
                (setStatus Status_Unsubscribing) (setStatus Status_Unsubscribed)
                acceptNotify)
       sampleOperations HEventSubscriptionManager_ctor).
Proof.
  apply (operations_keep_consistent
           sampleRootUrl (setStatus Status_Subscribing)
           (fun sub => eq_refl) (fun sub => eq_refl)
           (setStatus Status_Unsubscribing) (setStatus Status_Unsubscribed)
           acceptNotify
           (fun sub => conj eq_refl eq_refl)
           (fun sub => conj eq_refl eq_refl)
           (fun sub => conj eq_refl eq_refl)
           sampleOperations HEventSubscriptionManager_ctor).
  - apply consistent_ctor.
  - vm_compute. repeat split.
Defined.

End SubscriptionStoreProperties.

(* ===================================================================== *)
(** * What the product token parser accepts                               *)
(* ===================================================================== *)

Module ProductTokensProperties.
Import ProductTokens.

Lemma isValid_ctor (token productVersion : string) :
  isValid (HProductToken_ctor token productVersion)
  = negb (String.eqb (simplified token) "")
    && negb (String.eqb (simplified productVersion) "").
Proof.
  unfold HProductToken_ctor.
  destruct (String.eqb (simplified token) "") eqn:E1;
    destruct (String.eqb (simplified productVersion) "") eqn:E2;
    cbn [orb negb andb]; unfold isValid; cbn [m_token m_productVersion];
    rewrite ?E1, ?E2; reflexivity.
Qed.

Lemma parseLoop_valid (rest : string) :
  forall token buf j lastDelim acc ts,
    Forall (fun t => isValid t = true) acc ->
    parseLoop rest token buf j lastDelim acc = Some ts ->
    Forall (fun t => isValid t = true) ts /\ (length acc < length ts)%nat.
Proof.
  induction rest as [|c rest IH]; intros token buf j ld acc ts Hacc H;
    cbn [parseLoop] in H.
  - destruct (isValid (HProductToken_ctor token buf)) eqn:E; [|discriminate].
    inversion H; subst. split.
    + apply Forall_app. split; [exact Hacc|]. constructor; [exact E|constructor].
    + rewrite List.length_app. cbn. lia.
  - destruct (Ascii.eqb c "/").
    + destruct (ld <=? 0); [discriminate|].
      destruct (isValid (HProductToken_ctor token (left ld buf))) eqn:E;
        [|discriminate].
      apply IH in H.
      * destruct H as [H1 H2]. split; [exact H1|].
        rewrite List.length_app in H2. cbn in H2. lia.
      * apply Forall_app. split; [exact Hacc|].
        constructor; [exact E|constructor].
    + apply IH in H; assumption.
Qed.

Lemma parse_ok (s : string) (ts : list HProductToken) :
  parse s = Some ts ->
  (3 <= length ts)%nat /\
  Forall (fun t => isValid t = true) ts /\
  isValidUpnpToken (nth 1 ts HProductToken_default) = true.
Proof.
  unfold parse. destruct (indexOf "/" 0 s <? 0); [discriminate|].
  destruct (parseLoop _ _ _ _ _ _) as [l|] eqn:Hloop; [|discriminate].
  destruct (Nat.ltb_spec (length l) 3) as [Hlt|Hge]; [discriminate|].
  cbn [orb].
  destruct (isValidUpnpToken (nth 1 l HProductToken_default)) eqn:Hu;
    [|discriminate].
  cbn [negb]. intros H. inversion H; subst.
  split; [exact Hge|]. split; [|exact Hu].
  apply parseLoop_valid in Hloop; [tauto|constructor].
Qed.

Lemma isValidUpnpToken_valid (t : HProductToken) :
  isValidUpnpToken t = true -> isValid t = true.
Proof. unfold isValidUpnpToken. destruct (isValid t); [reflexivity|discriminate]. Qed.

(** What makes a token a UPnP token. *)
Lemma isValidUpnpToken_version (t : HProductToken) :
  isValidUpnpToken t = true ->
  Http.toLower (m_token t) = "upnp" /\
  (m_productVersion t = "1.0" \/ m_productVersion t = "1.1").
Proof.
  unfold isValidUpnpToken. destruct (isValid t); [|discriminate]. cbn [negb].
  destruct (String.eqb_spec (Http.toLower (m_token t)) (Http.toLower "UPnP"))
    as [Hn|]; [|discriminate].
  cbn [negb]. intros H. split; [exact Hn|].
  destruct (m_productVersion t) as [|c0 [|c1 [|c2 [|c3 r]]]];
    try (cbn in H; discriminate).
  - unfold size in H. cbn [String.length String.get Nat.eqb] in H.
    change (Z.of_nat 3 =? 3) with true in H. cbn [andb] in H.
    destruct (Ascii.eqb_spec c0 "1"); [|discriminate].
    destruct (Ascii.eqb_spec c1 "."); [|discriminate]. cbn [andb] in H.
    destruct (Ascii.eqb_spec c2 "0"); [left; congruence|].
    destruct (Ascii.eqb_spec c2 "1"); [right; congruence|discriminate].
  - exfalso. unfold size in H. cbn [String.length] in H.
    destruct (Z.eqb_spec (Z.of_nat (S (S (S (S (String.length r)))))) 3);
      [lia|discriminate].
Qed.

(** X21. Whatever string [HProductTokens] is built from, it keeps the
    simplified string, and it holds no token, or one token, or at least
    three, never two; every token it holds is valid; when it holds any,
    the UPnP token is named UPnP (in any case of the letters) and has the
    version 1.0 or 1.1; and the OS token and the product token are valid
    exactly when it holds at least three tokens. This holds for every
    result of the regular expression search of the fall-back. *)
Theorem product_tokens_invariant (indexOfUpnp : string -> Z * Z) (s : string) :
  let o := HProductTokens_ctor indexOfUpnp s in
  tokens_toString o = simplified s /\
  Forall (fun t => isValid t = true) (tokens o) /\
  (length (tokens o) = 0%nat \/ length (tokens o) = 1%nat
   \/ (3 <= length (tokens o))%nat) /\
  (tokens_isValid o = true ->
   Http.toLower (m_token (upnpToken o)) = "upnp" /\
   (m_productVersion (upnpToken o) = "1.0"
    \/ m_productVersion (upnpToken o) = "1.1")) /\
  isValid (osToken o) = (3 <=? length (tokens o))%nat /\
  isValid (productToken o) = (3 <=? length (tokens o))%nat.
Proof.
  intros o.
  assert (Hshape :
            m_originalTokenString o = simplified s /\
            ((exists ts, m_productTokens o = ts /\
                         (3 <= length ts)%nat /\
                         Forall (fun t => isValid t = true) ts /\
                         isValidUpnpToken (nth 1 ts HProductToken_default) = true)
             \/ (exists t, m_productTokens o = [t] /\ isValidUpnpToken t = true)
             \/ m_productTokens o = [])).
  { subst o. unfold HProductTokens_ctor.
    destruct (parse (simplified s)) as [ts|] eqn:Hp.
    { split; [reflexivity|]. left. exists ts. split; [reflexivity|].
      exact (parse_ok _ _ Hp). }
    destruct (if contains "," (simplified s)
              then parse (remove "," (simplified s)) else None)
      as [ts|] eqn:Hr.
    { split; [reflexivity|]. left. exists ts. split; [reflexivity|].
      destruct (contains "," (simplified s)); [|discriminate].
      now apply parse_ok in Hr. }
    destruct (indexOfUpnp (simplified s)) as [index matchedLength].
    destruct (index >=? 0); [|split; [reflexivity|now right; right]].
    match goal with
    | |- context [isValidUpnpToken ?t] => destruct (isValidUpnpToken t) eqn:Hu
    end.
    - split; [reflexivity|]. right; left. eexists. split; [reflexivity|exact Hu].
    - split; [reflexivity|now right; right]. }
  destruct Hshape as [Horig Hshape].
  unfold tokens_toString, tokens, tokens_isValid, upnpToken, osToken, productToken.
  split; [exact Horig|].
  destruct Hshape as [(ts & -> & Hlen & Hall & Hu)|[(t & -> & Hu)| ->]].
  - split; [exact Hall|]. split; [now right; right|].
    destruct ts as [|t0 [|t1 [|t2 rest]]]; cbn [length] in Hlen; try lia.
    cbn [nth] in Hu. split; [intros _; now apply isValidUpnpToken_version|].
    inversion Hall as [|? ? H0 Hall1]; subst.
    inversion Hall1 as [|? ? H1 Hall2]; subst.
    inversion Hall2 as [|? ? H2 _]; subst.
    cbn [length Nat.ltb Nat.leb nth]. split; assumption.
  - split; [constructor; [now apply isValidUpnpToken_valid|constructor]|].
    split; [now right; left|].
    split; [intros _; now apply isValidUpnpToken_version|].
    split; reflexivity.
  - split; [constructor|]. split; [now left|].
    split; [discriminate|]. split; reflexivity.
Qed.


(** ** Token strings in the form of the UDA *)

Import SendProperties.

Lemma size_app (a b : string) : size (a ++ b) = size a + size b.
Proof. exact (HttpProperties.size_append a b). Qed.

Lemma substring_app_l (a b : string) :
  substring 0 (String.length a) (a ++ b) = a.
Proof.
  induction a as [|c a IH]; [destruct b; reflexivity|].
  rewrite append_cons. cbn [String.length substring]. now rewrite IH.
Qed.

Lemma substring_app_r (a b : string) (n : nat) :
  substring (String.length a) n (a ++ b) = substring 0 n b.
Proof.
  induction a as [|c a IH]; [reflexivity|].
  rewrite append_cons. cbn [String.length substring]. exact IH.
Qed.

Lemma left_app (a b : string) : left (size a) (a ++ b) = a.
Proof.
  unfold left. rewrite size_app.
  destruct (Z.ltb_spec (size a) 0); [unfold size in *; lia|]. cbn [orb].
  destruct (Z.geb_spec (size a) (size a + size b)) as [Hge|Hlt].
  - assert (Hb : b = "").
    { destruct b; [reflexivity|]. unfold size in Hge.
      cbn [String.length] in Hge. lia. }
    subst b. apply append_nil_r.
  - unfold size. rewrite Nat2Z.id. apply substring_app_l.
Qed.

Lemma mid_app (a b : string) (c : ascii) :
  mid (size a + 1) (-1) (a ++ String c b) = b.
Proof.
  unfold mid. rewrite size_app.
  assert (Hs : size (String c b) = 1 + size b)
    by (unfold size; cbn [String.length]; lia).
  rewrite Hs.
  destruct (Z.geb_spec (size a + 1) (size a + (1 + size b))) as [Hge|Hlt].
  - assert (Hb : b = "").
    { destruct b; [reflexivity|]. unfold size in Hge.
      cbn [String.length] in Hge. lia. }
    now subst b.
  - change (-1 <? 0) with true. cbv iota.
    destruct (Z.ltb_spec (size a + 1) 0); [unfold size in *; lia|].
    cbv iota beta.
    destruct (Z.gtb_spec (size a + (1 + size b) - (size a + 1) + (size a + 1))
                         (size a + (1 + size b))); [lia|].
    replace (Z.to_nat (size a + 1)) with (String.length (a ++ String c ""))
      by (pose proof (size_app a (String c "")) as E; unfold size in *;
          cbn [String.length] in *; lia).
    replace (a ++ String c b) with ((a ++ String c "") ++ b)
      by (rewrite append_assoc; reflexivity).
    rewrite substring_app_r.
    replace (Z.to_nat (size a + (1 + size b) - (size a + 1)))
      with (String.length b) by (unfold size; lia).
    apply substring_all.
Qed.


Lemma isWord_cases (w : string) :
  isWord w = true ->
  w <> "" /\ forallb plainChar (list_ascii_of_string w) = true.
Proof.
  unfold isWord. intros H. apply andb_true_iff in H. destruct H as [H1 H2].
  split; [|exact H2]. intros ->. discriminate.
Qed.

Lemma plainChar_cases (c : ascii) :
  plainChar c = true ->
  Ascii.eqb c "/" = false /\ Ascii.eqb c " " = false /\ isSpace c = false.
Proof.
  unfold plainChar. intros H. apply andb_true_iff in H. destruct H as [H1 H2].
  apply andb_true_iff in H1. destruct H1 as [_ H1].
  apply negb_true_iff in H1, H2. split; [exact H1|]. split; [|exact H2].
  destruct (Ascii.eqb_spec c " ") as [->|]; [|reflexivity].
  discriminate H2.
Qed.

(** The loop of [parse] over characters that are neither a slash nor a
    space: they go to [buf]. *)
Lemma parseLoop_word (w : string) :
  forall rest token buf j lastDelim acc,
    forallb plainChar (list_ascii_of_string w) = true ->
    parseLoop (w ++ rest) token buf j lastDelim acc
    = parseLoop rest token (buf ++ w) (j + size w) lastDelim acc.
Proof.
  induction w as [|c w IH]; intros rest token buf j ld acc Hw.
  - change ("" ++ rest) with rest. rewrite append_nil_r.
    change (size "") with 0. now rewrite Z.add_0_r.
  - cbn [list_ascii_of_string forallb] in Hw. apply andb_true_iff in Hw.
    destruct Hw as [Hc Hw]. apply plainChar_cases in Hc.
    destruct Hc as (Hslash & Hspace & _).
    rewrite append_cons. cbn [parseLoop]. rewrite Hslash, Hspace.
    rewrite IH by exact Hw. rewrite append_assoc.
    change (String c "" ++ w) with (String c w).
    f_equal. unfold size. cbn [String.length]. lia.
Qed.

(** [simplified] leaves a run of characters that are no white space as it
    is. *)
Lemma simplifiedFrom_word (w : string) :
  forall g rest,
    w <> "" ->
    forallb (fun c => negb (isSpace c)) (list_ascii_of_string w) = true ->
    simplifiedFrom g (w ++ rest)
    = (match g with AfterSpace => " " | _ => "" end
       ++ w ++ simplifiedFrom InWord rest).
Proof.
  induction w as [|c w IH]; intros g rest Hne Hw; [congruence|].
  cbn [list_ascii_of_string forallb] in Hw. apply andb_true_iff in Hw.
  destruct Hw as [Hc Hw]. apply negb_true_iff in Hc.
  rewrite append_cons. cbn [simplifiedFrom]. rewrite Hc.
  assert (Htail : simplifiedFrom InWord (w ++ rest)
                  = w ++ simplifiedFrom InWord rest).
  { destruct w as [|c' w']; [reflexivity|].
    rewrite (IH InWord rest); [reflexivity|discriminate|exact Hw]. }
  rewrite Htail. destruct g; reflexivity.
Qed.

Lemma list_ascii_app (a b : string) :
  list_ascii_of_string (a ++ b)
  = (list_ascii_of_string a ++ list_ascii_of_string b)%list.
Proof.
  induction a as [|c a IH]; [reflexivity|].
  rewrite append_cons. cbn [list_ascii_of_string app]. now rewrite IH.
Qed.

Lemma plain_noSpace (w : string) :
  forallb plainChar (list_ascii_of_string w) = true ->
  forallb (fun c => negb (isSpace c)) (list_ascii_of_string w) = true.
Proof.
  induction (list_ascii_of_string w) as [|c l IH]; [reflexivity|].
  cbn [forallb]. intros H. apply andb_true_iff in H. destruct H as [Hc Hl].
  apply plainChar_cases in Hc. destruct Hc as (_ & _ & ->). cbn [negb andb].
  now apply IH.
Qed.

Lemma simplified_word (w : string) : isWord w = true -> simplified w = w.
Proof.
  intros H. apply isWord_cases in H. destruct H as [Hne Hw].
  unfold simplified. rewrite <- (append_nil_r w) at 1.
  rewrite simplifiedFrom_word; [|exact Hne|now apply plain_noSpace].
  cbn [simplifiedFrom]. now rewrite append_nil_r.
Qed.

Lemma HProductToken_ctor_words (token version : string) :
  isWord token = true -> isWord version = true ->
  HProductToken_ctor token version = mkProductToken token version /\
  isValid (mkProductToken token version) = true.
Proof.
  intros Ht Hv. unfold HProductToken_ctor.
  rewrite (simplified_word _ Ht), (simplified_word _ Hv).
  apply isWord_cases in Ht, Hv. destruct Ht as [Ht _], Hv as [Hv _].
  apply String.eqb_neq in Ht, Hv. unfold isValid. cbn [m_token m_productVersion].
  rewrite Ht, Hv. split; reflexivity.
Qed.


Lemma parseLoop_rendered (ts : list (string * string)) :
  forall token version lastDelim acc,
    isWord token = true -> isWord version = true ->
    Forall (fun tv => isWord (fst tv) = true /\ isWord (snd tv) = true) ts ->
    parseLoop (version ++ match ts with
                          | [] => ""
                          | _ => " " ++ render ts
                          end)
              token "" 0 lastDelim acc
    = Some (acc ++ tokenOf (token, version) :: map tokenOf ts)%list.
Proof.
  induction ts as [|[token' version'] rest IH];
    intros token version ld acc Ht Hv Hall.
  - rewrite parseLoop_word by (apply isWord_cases in Hv; tauto).
    cbn [parseLoop]. change ("" ++ version) with version.
    destruct (HProductToken_ctor_words _ _ Ht Hv) as [-> ->]. reflexivity.
  - inversion Hall as [|? ? [Ht' Hv'] Hrest]; subst. cbn [fst snd] in *.
    rewrite parseLoop_word by (apply isWord_cases in Hv; tauto).
    change ("" ++ version) with version. cbn [render].
    rewrite append_cons. change ("" ++ ?x) with x.
    cbn [parseLoop]. change (Ascii.eqb " " "/") with false.
    change (Ascii.eqb " " " ") with true. cbv iota.
    rewrite parseLoop_word by (apply isWord_cases in Ht'; tauto).
    rewrite append_cons. change ("" ++ ?x) with x.
    cbn [parseLoop]. change (Ascii.eqb "/" "/") with true. cbv iota.
    assert (Hpos : (0 + size version <=? 0) = false).
    { apply Z.leb_gt. apply isWord_cases in Hv. destruct Hv as [Hne _].
      destruct version; [congruence|]. unfold size. cbn [String.length]. lia. }
    rewrite Hpos.
    rewrite append_assoc. rewrite Z.add_0_l.
    rewrite left_app.
    destruct (HProductToken_ctor_words _ _ Ht Hv) as [-> ->].
    change (String " " "" ++ token') with (String " " token').
    rewrite mid_app.
    rewrite (IH token' version' (size version) _ Ht' Hv' Hrest).
    cbn [map tokenOf fst snd]. f_equal.
    rewrite <- List.app_assoc. reflexivity.
Qed.

Lemma indexWhere_word (p : ascii -> bool) (w rest : string) (c : ascii) :
  forall at_,
    0 <= at_ ->
    forallb (fun x => negb (p x)) (list_ascii_of_string w) = true ->
    p c = true ->
    indexWhere p (w ++ String c rest) at_ 0 = at_ + size w.
Proof.
  induction w as [|x w IH]; intros at_ Hat Hw Hc.
  - change ("" ++ String c rest) with (String c rest). cbn [indexWhere].
    rewrite Hc. replace (0 <=? at_) with true by (symmetry; apply Z.leb_le; lia).
    change (size "") with 0. cbn [andb]. lia.
  - cbn [list_ascii_of_string forallb] in Hw. apply andb_true_iff in Hw.
    destruct Hw as [Hx Hw]. apply negb_true_iff in Hx.
    rewrite append_cons. cbn [indexWhere]. rewrite Hx, andb_false_r.
    rewrite IH by (try lia; assumption).
    unfold size. cbn [String.length]. lia.
Qed.

Lemma word_noSlash (w : string) :
  forallb plainChar (list_ascii_of_string w) = true ->
  forallb (fun x => negb (Ascii.eqb "/" x)) (list_ascii_of_string w) = true.
Proof.
  induction (list_ascii_of_string w) as [|c l IH]; [reflexivity|].
  cbn [forallb]. intros H. apply andb_true_iff in H. destruct H as [Hc Hl].
  apply plainChar_cases in Hc. destruct Hc as (Hs & _ & _).
  rewrite Ascii.eqb_sym, Hs. cbn [negb andb]. now apply IH.
Qed.

Lemma simplifiedFrom_rendered (ts : list (string * string)) :
  Forall (fun tv => isWord (fst tv) = true /\ isWord (snd tv) = true) ts ->
  ts <> [] ->
  forall g,
    simplifiedFrom g (render ts)
    = match g with AfterSpace => " " | _ => "" end ++ render ts.
Proof.
  induction ts as [|[token version] rest IH]; intros Hall Hne g; [congruence|].
  inversion Hall as [|? ? [Ht Hv] Hrest]; subst. cbn [fst snd] in *.
  cbn [render].
  apply isWord_cases in Ht, Hv. destruct Ht as [Htne Ht], Hv as [Hvne Hv].
  set (more := match rest with [] => "" | _ => " " ++ render rest end).
  replace (token ++ "/" ++ version ++ more)
    with ((token ++ "/" ++ version) ++ more)
    by (now rewrite !append_assoc).
  rewrite simplifiedFrom_word.
  - assert (Hmore : simplifiedFrom InWord more = more).
    { subst more. destruct rest as [|tv rest']; [reflexivity|].
      change (" " ++ render (tv :: rest')) with (String " " (render (tv :: rest'))).
      cbn [simplifiedFrom]. change (isSpace " ") with true. cbv iota.
      now rewrite (IH Hrest ltac:(discriminate) AfterSpace). }
    now rewrite Hmore.
  - destruct token; [congruence|discriminate].
  - rewrite !list_ascii_app, !forallb_app.
    rewrite (plain_noSpace _ Ht), (plain_noSpace _ Hv). reflexivity.
Qed.

(** X22. A string written as the UDA asks, [token/version] pairs of
    words separated by one space, at least three of them and the second a
    valid UPnP token, is parsed into exactly these pairs in their order,
    and [HProductTokens] built from it holds the string as it is and these
    tokens. *)
Theorem parse_rendered_tokens
    (indexOfUpnp : string -> Z * Z) (ts : list (string * string)) :
  Forall (fun tv => isWord (fst tv) = true /\ isWord (snd tv) = true) ts ->
  (3 <= length ts)%nat ->
  isValidUpnpToken (tokenOf (nth 1 ts ("", ""))) = true ->
  parse (render ts) = Some (map tokenOf ts) /\
  HProductTokens_ctor indexOfUpnp (render ts)
  = {| m_originalTokenString := render ts;
       m_productTokens := map tokenOf ts |}.
Proof.
  intros Hall Hlen Hupnp.
  assert (Hparse : parse (render ts) = Some (map tokenOf ts)).
  { destruct ts as [|[token version] rest]; [cbn in Hlen; lia|].
    inversion Hall as [|? ? [Ht Hv] Hrest]; subst. cbn [fst snd] in *.
    unfold parse. cbn [render].
    set (more := match rest with [] => "" | _ => " " ++ render rest end).
    change ("/" ++ version ++ more) with (String "/" (version ++ more)).
    unfold indexOf.
    rewrite indexWhere_word;
      [|lia|apply word_noSlash; apply isWord_cases in Ht; tauto|reflexivity].
    rewrite Z.add_0_l.
    destruct (Z.ltb_spec (size token) 0); [unfold size in *; lia|].
    rewrite left_app, mid_app. subst more.
    rewrite (parseLoop_rendered rest token version 0 [] Ht Hv Hrest).
    cbn [app].
    change (tokenOf (token, version) :: map tokenOf rest)
      with (map tokenOf ((token, version) :: rest)).
    rewrite length_map.
    destruct (Nat.ltb_spec (length ((token, version) :: rest)) 3); [lia|].
    cbn [orb].
    change HProductToken_default with (tokenOf ("", "")).
    rewrite map_nth, Hupnp. reflexivity. }
  split; [exact Hparse|].
  unfold HProductTokens_ctor, simplified.
  rewrite (simplifiedFrom_rendered ts Hall) by (destruct ts; [cbn in Hlen; lia|discriminate]).
  change ("" ++ render ts) with (render ts). now rewrite Hparse.
Qed.


Lemma parseLoop_space (rest token buf : string) (j lastDelim : Z)
    (acc : list HProductToken) :
  parseLoop (String " " rest) token buf j lastDelim acc
  = parseLoop rest token (buf ++ " ") (j + 1) j acc.
Proof. reflexivity. Qed.

Lemma parseLoop_slash (rest token a b : string) (x : ascii) (j : Z)
    (acc : list HProductToken) :
  isWord token = true -> isWord a = true ->
  parseLoop (String "/" rest) token (a ++ String x b) j (size a) acc
  = parseLoop rest b "" 0 (size a) (acc ++ [tokenOf (token, a)])%list.
Proof.
  intros Ht Ha. cbn [parseLoop]. change (Ascii.eqb "/" "/") with true. cbv iota.
  assert (Hpos : (size a <=? 0) = false).
  { apply Z.leb_gt. apply isWord_cases in Ha. destruct Ha as [Hne _].
    destruct a; [congruence|]. unfold size. cbn [String.length]. lia. }
  rewrite Hpos, left_app, mid_app.
  destruct (HProductToken_ctor_words _ _ Ht Ha) as [-> ->]. reflexivity.
Qed.

Lemma parseLoop_end (token buf : string) (j lastDelim : Z)
    (acc : list HProductToken) :
  isWord token = true -> isWord buf = true ->
  parseLoop "" token buf j lastDelim acc
  = Some (acc ++ [tokenOf (token, buf)])%list.
Proof.
  intros Ht Hb. cbn [parseLoop].
  destruct (HProductToken_ctor_words _ _ Ht Hb) as [-> ->]. reflexivity.
Qed.

(** X23. [parse] keeps the position of the last space across tokens: when
    the first version has three characters, a string in which the UPnP
    version 1.0 is followed by any character [c] that is no space, and
    then by the third token without a space between, is accepted, and it
    is read as the three tokens with [c] dropped. *)
Theorem parse_accepts_missing_space
    (token1 version1 token3 version3 : string) (c : ascii) :
  isWord token1 = true -> isWord version1 = true ->
  isWord token3 = true -> isWord version3 = true ->
  plainChar c = true ->
  size version1 = 3 ->
  parse (token1 ++ "/" ++ version1 ++ " UPnP/1.0"
         ++ String c (token3 ++ "/" ++ version3))
  = Some [tokenOf (token1, version1); tokenOf ("UPnP", "1.0");
          tokenOf (token3, version3)].
Proof.
  intros Ht1 Hv1 Ht3 Hv3 Hc Hsize.
  assert (Hshape :
            token1 ++ "/" ++ version1 ++ " UPnP/1.0"
            ++ String c (token3 ++ "/" ++ version3)
            = token1 ++ String "/"
                (version1 ++ String " "
                   ("UPnP" ++ String "/"
                      (("1.0" ++ String c token3) ++ String "/" version3)))).
  { reflexivity. }
  rewrite Hshape. clear Hshape.
  unfold parse, indexOf.
  rewrite indexWhere_word;
    [|lia|apply word_noSlash; apply isWord_cases in Ht1; tauto|reflexivity].
  rewrite Z.add_0_l.
  destruct (Z.ltb_spec (size token1) 0); [unfold size in *; lia|].
  rewrite left_app, mid_app.
  rewrite parseLoop_word by (apply isWord_cases in Hv1; tauto).
  rewrite parseLoop_space.
  rewrite parseLoop_word by reflexivity.
  change ("" ++ version1) with version1. rewrite Z.add_0_l.
  rewrite (append_assoc version1 " " "UPnP").
  change (" " ++ "UPnP") with (String " " "UPnP").
  rewrite parseLoop_slash by assumption.
  assert (Hrun : forallb plainChar (list_ascii_of_string ("1.0" ++ String c token3))
                 = true).
  { change ("1.0" ++ String c token3) with
      (String "1" (String "." (String "0" (String c token3)))).
    cbn [list_ascii_of_string forallb]. rewrite Hc.
    apply isWord_cases in Ht3. destruct Ht3 as [_ ->]. reflexivity. }
  rewrite parseLoop_word by exact Hrun.
  change ("" ++ ("1.0" ++ String c token3)) with ("1.0" ++ String c token3).
  rewrite Hsize. change 3 with (size "1.0").
  rewrite parseLoop_slash by (reflexivity || assumption).
  rewrite <- (append_nil_r version3) at 1.
  rewrite parseLoop_word by (apply isWord_cases in Hv3; tauto).
  change ("" ++ version3) with version3.
  rewrite parseLoop_end by assumption.
  reflexivity.
Qed.

(** ** Sample runs *)

Lemma parse_rendered_tokens_witness :
  parse "Linux/2.6 UPnP/1.1 HUPnP/0.5"
  = Some [mkProductToken "Linux" "2.6"; mkProductToken "UPnP" "1.1";
          mkProductToken "HUPnP" "0.5"].
Proof.
  apply (parse_rendered_tokens noUpnpMatch sampleTokens).
  - repeat constructor.
  - simpl. lia.
  - reflexivity.
Defined.

Lemma parse_accepts_missing_space_witness :
  parse "a/111 UPnP/1.0xy/3"
  = Some [mkProductToken "a" "111"; mkProductToken "UPnP" "1.0";
          mkProductToken "y" "3"].
Proof.
  apply (parse_accepts_missing_space "a" "111" "y" "3" "x");
    reflexivity.
Defined.

End ProductTokensProperties.
